(** * TGL Tech Schedule: the assignment and cost engine

    A shallow embedding of the backend routes that attach crew members and
    equipment to events ([routes/assignments.js]) and of the routes that turn
    those assignments into cost figures ([routes/reports.js]), together with
    the part of the schema ([config/migrate.js]) and of the error middleware
    ([middleware/errorHandler.js]) they rely on.

    Conventions of the model.
    - A JavaScript number is an exact rational, or [NaN], or one of the two
      infinities.  Rounding of IEEE doubles and the sign of zero are outside
      the model.
    - A JavaScript object read and written by property name is a finite map
      from strings to values when only lookups matter (a database row, a
      request body) and an insertion-ordered association list when the code
      enumerates it ([Object.values], JSON serialisation).
    - A [DECIMAL(10,2)] column is a whole number of cents; an [INTEGER]
      column is an integer; a nullable column is an [option].
    - Every SQL statement of the routes is a function on the [Store]; a
      handler threads the store through the statements it issues and returns
      the response it sends. *)

From Stdlib Require Import ZArith QArith Qcanon Qround String Ascii List Lia.
From Stdlib Require Import DecimalString DecimalN DecimalPos.
From stdpp Require Import base numbers list strings gmap sorting lexico.

Open Scope Z_scope.

(** ** JavaScript numbers *)

Module Js.

Inductive Number : Type :=
| Fin (q : Qc)
| NaN
| PosInf
| NegInf.

Definition of_Z (z : Z) : Number := Fin (Qc_of_Z z).

#[global] Instance Number_eq_dec : EqDecision Number.
Proof. solve_decision. Defined.

Definition neg (a : Number) : Number :=
  match a with
  | Fin q => Fin (- q)%Qc
  | NaN => NaN
  | PosInf => NegInf
  | NegInf => PosInf
  end.

(** [a + b] on numbers. *)
Definition add (a b : Number) : Number :=
  match a, b with
  | NaN, _ | _, NaN => NaN
  | Fin x, Fin y => Fin (x + y)%Qc
  | PosInf, NegInf | NegInf, PosInf => NaN
  | PosInf, _ | _, PosInf => PosInf
  | NegInf, _ | _, NegInf => NegInf
  end.

(** [a - b]. *)
Definition sub (a b : Number) : Number := add a (neg b).

(** The sign of a rational: [Lt] negative, [Eq] zero, [Gt] positive. *)
Definition sgn (q : Qc) : comparison := (q ?= 0)%Qc.

(** [a * b]: infinity times zero is [NaN]. *)
Definition mul (a b : Number) : Number :=
  match a, b with
  | NaN, _ | _, NaN => NaN
  | Fin x, Fin y => Fin (x * y)%Qc
  | Fin x, PosInf | PosInf, Fin x =>
      match sgn x with Eq => NaN | Gt => PosInf | Lt => NegInf end
  | Fin x, NegInf | NegInf, Fin x =>
      match sgn x with Eq => NaN | Gt => NegInf | Lt => PosInf end
  | PosInf, PosInf | NegInf, NegInf => PosInf
  | PosInf, NegInf | NegInf, PosInf => NegInf
  end.

(** [a / b]: a finite number over zero is an infinity (the zero of the model
    is the positive one), zero over zero is [NaN]. *)
Definition div (a b : Number) : Number :=
  match a, b with
  | NaN, _ | _, NaN => NaN
  | Fin x, Fin y =>
      if decide (y = 0%Qc) then
        match sgn x with Eq => NaN | Gt => PosInf | Lt => NegInf end
      else Fin (x / y)%Qc
  | Fin _, (PosInf | NegInf) => of_Z 0
  | PosInf, Fin y => match sgn y with Lt => NegInf | _ => PosInf end
  | NegInf, Fin y => match sgn y with Lt => PosInf | _ => NegInf end
  | (PosInf | NegInf), (PosInf | NegInf) => NaN
  end.

(** [a < b]: false as soon as one side is [NaN]. *)
Definition ltb (a b : Number) : bool :=
  match a, b with
  | NaN, _ | _, NaN => false
  | Fin x, Fin y => bool_decide (x < y)%Qc
  | NegInf, (Fin _ | PosInf) => true
  | Fin _, PosInf => true
  | _, _ => false
  end.

(** Truthiness of a number: [0] and [NaN] are falsy. *)
Definition truthy_num (a : Number) : bool :=
  match a with
  | Fin q => negb (bool_decide (q = 0%Qc))
  | NaN => false
  | PosInf | NegInf => true
  end.

(** [a || b] when both sides are numbers. *)
Definition or_num (a b : Number) : Number := if truthy_num a then a else b.

(** ** JavaScript values that reach the engine

    What a database row, a JSON body or a missing property can hold:
    [undefined], [null], a number, a string. *)

Inductive Value : Type :=
| Undefined
| Null
| Num (n : Number)
| Str (s : string).

#[global] Instance Value_eq_dec : EqDecision Value.
Proof. solve_decision. Defined.

Definition truthy (v : Value) : bool :=
  match v with
  | Undefined | Null => false
  | Num n => truthy_num n
  | Str s => negb (bool_decide (s = ""%string))
  end.

(** An object as a property map; reading an absent property gives
    [undefined]. *)
Definition get (o : gmap string Value) (k : string) : Value :=
  default Undefined (o !! k).

(** ** Reading numbers out of strings

    Strings are byte strings; the white space skipped by the numeric
    conversions is the ASCII part of JavaScript's (space, tab, line feed,
    vertical tab, form feed, carriage return). *)

Definition is_space (c : ascii) : bool :=
  let n := N_of_ascii c in
  ((n =? 32) || ((9 <=? n) && (n <=? 13)))%N.

Fixpoint skip_spaces (s : string) : string :=
  match s with
  | String c r => if is_space c then skip_spaces r else s
  | EmptyString => s
  end.

Fixpoint all_spaces (s : string) : bool :=
  match s with
  | String c r => is_space c && all_spaces r
  | EmptyString => true
  end.

(** The value of [c] as a digit of the given radix, letters standing for ten
    and above in either case. *)
Definition digit_of (radix : N) (c : ascii) : option N :=
  let n := N_of_ascii c in
  let v := (if (48 <=? n) && (n <=? 57) then Some (n - 48)
            else if (97 <=? n) && (n <=? 122) then Some (n - 87)
            else if (65 <=? n) && (n <=? 90) then Some (n - 55)
            else None)%N in
  match v with
  | Some d => if (d <? radix)%N then Some d else None
  | None => None
  end.

(** The longest run of digits at the head of [s]: its value on top of [acc],
    its length on top of [len], and what follows it. *)
Fixpoint digits (radix : N) (s : string) (acc : N) (len : nat)
  : N * nat * string :=
  match s with
  | String c r =>
      match digit_of radix c with
      | Some d => digits radix r (acc * radix + d)%N (S len)
      | None => (acc, len, s)
      end
  | EmptyString => (acc, len, s)
  end.

(** An optional sign: is it a minus, and what follows it. *)
Definition sign (s : string) : bool * string :=
  match s with
  | String "-" r => (true, r)
  | String "+" r => (false, r)
  | _ => (false, s)
  end.

Definition pow10 (e : Z) : Qc :=
  if (0 <=? e) then Qc_of_Z (10 ^ e) else (/ Qc_of_Z (10 ^ (- e)))%Qc.

(** An exponent part [e±ddd]; without digits there is none and nothing is
    consumed. *)
Definition exponent (s : string) : Z * string :=
  match s with
  | String c r =>
      if bool_decide (c = "e"%char) || bool_decide (c = "E"%char) then
        let '(negative, r1) := sign r in
        let '(e, n, r2) := digits 10 r1 0 0 in
        match n with
        | O => (0, s)
        | S _ => (if negative then - Z.of_N e else Z.of_N e, r2)
        end
      else (0, s)
  | EmptyString => (0, s)
  end.

(** An unsigned decimal literal at the head of [s] ([12], [12.], [12.5],
    [.5], each with an optional exponent) and what follows it. *)
Definition decimal (s : string) : option (Qc * string) :=
  let '(i, ni, r1) := digits 10 s 0 0 in
  let '(f, nf, r2) :=
    match r1 with
    | String "." r => digits 10 r 0 0
    | _ => (0%N, O, r1)
    end in
  match (ni + nf)%nat with
  | O => None
  | S _ =>
      let mantissa := (Qc_of_Z (Z.of_N i)
                       + Qc_of_Z (Z.of_N f) / Qc_of_Z (10 ^ Z.of_nat nf))%Qc in
      let '(e, r3) := exponent r2 in
      Some ((mantissa * pow10 e)%Qc, r3)
  end.

Definition signed (negative : bool) (n : Number) : Number :=
  if negative then neg n else n.

(** [parseFloat] of a string: leading white space, a sign, then [Infinity]
    or the longest decimal literal; [NaN] when there is none. *)
Definition parseFloat_str (s : string) : Number :=
  let '(negative, r) := sign (skip_spaces s) in
  if String.prefix "Infinity" r then signed negative PosInf
  else match decimal r with
       | Some (q, _) => signed negative (Fin q)
       | None => NaN
       end.

(** [parseFloat(v)] converts [v] to a string first; the text of a number
    reads back as that number, [undefined] and [null] read as [NaN]. *)
Definition parseFloat (v : Value) : Number :=
  match v with
  | Str s => parseFloat_str s
  | Num n => n
  | Undefined | Null => NaN
  end.

(** [parseInt] of a string with no radix argument: leading white space, a
    sign, an optional [0x] switching to radix sixteen, then the longest run
    of digits; [NaN] when there is none. *)
Definition parseInt_str (s : string) : Number :=
  let '(negative, r) := sign (skip_spaces s) in
  let '(radix, r) :=
    match r with
    | String "0" (String c r') =>
        if bool_decide (c = "x"%char) || bool_decide (c = "X"%char)
        then (16%N, r') else (10%N, r)
    | _ => (10%N, r)
    end in
  let '(v, n, _) := digits radix r 0 0 in
  match n with
  | O => NaN
  | S _ => signed negative (Fin (Qc_of_Z (Z.of_N v)))
  end.

Definition first_digit (d : Decimal.uint) : Z :=
  match d with
  | Decimal.Nil | Decimal.D0 _ => 0
  | Decimal.D1 _ => 1 | Decimal.D2 _ => 2 | Decimal.D3 _ => 3
  | Decimal.D4 _ => 4 | Decimal.D5 _ => 5 | Decimal.D6 _ => 6
  | Decimal.D7 _ => 7 | Decimal.D8 _ => 8 | Decimal.D9 _ => 9
  end.

(** The first significant decimal digit of a positive rational. *)
Definition leading_digit (q : Qc) : Z :=
  let k := Decimal.nb_digits (Pos.to_uint (Qden q)) in
  first_digit (N.to_uint (Z.to_N (Qnum q * 10 ^ Z.of_nat k / Z.pos (Qden q)))).

Definition Qcabs (q : Qc) : Qc := if bool_decide (q < 0)%Qc then (- q)%Qc else q.

(** [parseInt] of a number reads the number's text.  From [1e-6] up to
    [1e21] the text is positional and the digits before the point are the
    number truncated toward zero; outside that range the text is in exponent
    notation and only its first digit is read. *)
Definition parseInt_num (n : Number) : Number :=
  match n with
  | Fin q =>
      let a := Qcabs q in
      if bool_decide (q = 0%Qc) then of_Z 0
      else if bool_decide (pow10 (-6) <= a)%Qc && bool_decide (a < pow10 21)%Qc
      then Fin (Qc_of_Z (Z.quot (Qnum q) (Z.pos (Qden q))))
      else signed (bool_decide (q < 0)%Qc) (Fin (Qc_of_Z (leading_digit a)))
  | NaN | PosInf | NegInf => NaN
  end.

Definition parseInt (v : Value) : Number :=
  match v with
  | Str s => parseInt_str s
  | Num n => parseInt_num n
  | Undefined | Null => NaN
  end.

(** A literal counts for [Number(s)] when only white space follows it. *)
Definition whole (n : Number) (rest : string) : Number :=
  if all_spaces rest then n else NaN.

(** A signed decimal literal, or a signed [Infinity], up to the end. *)
Definition decimal_whole (r : string) : Number :=
  let '(negative, r1) := sign r in
  if String.prefix "Infinity" r1
  then whole (signed negative PosInf) (String.substring 8 (String.length r1 - 8) r1)
  else match decimal r1 with
       | Some (q, rest) => whole (signed negative (Fin q)) rest
       | None => NaN
       end.

(** The digits of a [0x], [0o] or [0b] literal, up to the end. *)
Definition based_whole (radix : N) (r : string) : Number :=
  let '(v, n, rest) := digits radix r 0 0 in
  match n with
  | O => NaN
  | S _ => whole (Fin (Qc_of_Z (Z.of_N v))) rest
  end.

(** [Number(s)] on a string: white space trimmed at both ends, the empty
    string is [0], and the rest must be one complete numeric literal. *)
Definition to_number_str (s : string) : Number :=
  let r := skip_spaces s in
  match r with
  | EmptyString => of_Z 0
  | String "0" (String c r') =>
      if bool_decide (c = "x"%char) || bool_decide (c = "X"%char)
      then based_whole 16 r'
      else if bool_decide (c = "o"%char) || bool_decide (c = "O"%char)
      then based_whole 8 r'
      else if bool_decide (c = "b"%char) || bool_decide (c = "B"%char)
      then based_whole 2 r'
      else decimal_whole r
  | _ => decimal_whole r
  end.

(** [Number(v)]. *)
Definition to_number (v : Value) : Number :=
  match v with
  | Undefined => NaN
  | Null => of_Z 0
  | Num n => n
  | Str s => to_number_str s
  end.

(** The decimal text of a natural number, as a template literal or a
    database value prints it. *)
Definition text_of_N (n : N) : string := NilZero.string_of_uint (N.to_uint n).

(** What evaluating a piece of code ends in: a value, or an exception. *)
Inductive Outcome (A : Type) : Type :=
| Return (a : A)
| Throw (error : string).
Arguments Return {A} a.
Arguments Throw {A} error.

#[global] Instance Outcome_eq_dec {A : Type} `{EqDecision A} : EqDecision (Outcome A).
Proof. solve_decision. Defined.

(** [s.split(sep)] for a one-character separator. *)
Fixpoint split (sep : ascii) (s : string) : list string :=
  match s with
  | EmptyString => [EmptyString]
  | String c r =>
      if bool_decide (c = sep) then EmptyString :: split sep r
      else match split sep r with
           | h :: t => String c h :: t
           | [] => [String c EmptyString]
           end
  end.

(** [arr[i]] used as an operand of arithmetic: an index past the end reads
    [undefined], which arithmetic turns into [NaN]. *)
Definition at_index (arr : list Number) (i : nat) : Number :=
  default NaN (arr !! i).

(** ** Objects the code enumerates

    An object filled property by property and then enumerated keeps its
    properties in the order they were first written, for keys that are not
    array indices. *)

Fixpoint obj_get {K V : Type} `{EqDecision K} (o : list (K * V)) (k : K)
  : option V :=
  match o with
  | [] => None
  | (k', v) :: rest => if decide (k' = k) then Some v else obj_get rest k
  end.

(** [o[k] = f(o[k])] on a property that exists. *)
Fixpoint obj_alter {K V : Type} `{EqDecision K} (f : V → V) (k : K)
    (o : list (K * V)) : list (K * V) :=
  match o with
  | [] => []
  | (k', v) :: rest =>
      if decide (k' = k) then (k', f v) :: rest
      else (k', v) :: obj_alter f k rest
  end.

(** [Object.values(o)]. *)
Definition obj_values {K V : Type} (o : list (K * V)) : list V := snd <$> o.

End Js.

(** ** The schema ([config/migrate.js])

    A table is the list of its rows in physical order.  Columns the engine
    neither reads nor writes (time stamps, free-text descriptions, contact
    details) are left out of the rows. *)

Module Db.

(** [UUID]: a 128-bit number. *)
Definition Uuid : Type := N.
(** [DATE]: a day number. *)
Definition Date : Type := Z.
(** [TIME]: a clock time without date. *)
Record Time : Type := mkTime { hour : N; minute : N; second : N }.
(** [DECIMAL(10,2)]: a whole number of cents. *)
Definition Cents : Type := Z.

(** An amount of cents in units of the currency. *)
Definition amount (c : Cents) : Qc := (Qc_of_Z c / Qc_of_Z 100)%Qc.

Bind Scope N_scope with Uuid.
Bind Scope Z_scope with Date.
Bind Scope Z_scope with Cents.

#[global] Instance Time_eq_dec : EqDecision Time.
Proof. solve_decision. Defined.

Record Event : Type := mkEvent {
  e_id : Uuid;
  e_name : string;
  e_event_date : Date;
  e_cost_center : option string
}.

Record Position : Type := mkPosition {
  p_id : Uuid;
  p_name : string;
  p_sort_order : option Z
}.

Record CrewMember : Type := mkCrewMember {
  cm_id : Uuid;
  cm_name : string;
  cm_email : option string;
  cm_hourly_rate : option Cents;
  cm_is_active : option bool
}.

Record EquipmentCategory : Type := mkEquipmentCategory {
  ec_id : Uuid;
  ec_name : string;
  ec_sort_order : option Z
}.

Record Equipment : Type := mkEquipment {
  eq_id : Uuid;
  eq_name : string;
  eq_category_id : option Uuid;
  eq_serial_number : option string;
  eq_daily_rate : option Cents;
  eq_is_active : option bool
}.

(** [status VARCHAR(50) CHECK (status IN (...))] of a crew assignment. *)
Inductive Status : Type :=
| pending | confirmed | declined | no_show | completed.

#[global] Instance Status_eq_dec : EqDecision Status.
Proof. solve_decision. Defined.

Record CrewAssignment : Type := mkCrewAssignment {
  ca_id : Uuid;
  ca_event_id : Uuid;
  ca_crew_member_id : Uuid;
  ca_position_id : option Uuid;
  ca_call_time : option Time;
  ca_end_time : option Time;
  ca_rate_override : option Cents;
  ca_status : option Status;
  ca_notes : option string;
  ca_created_by : option Uuid
}.

Record EquipmentAssignment : Type := mkEquipmentAssignment {
  ea_id : Uuid;
  ea_event_id : Uuid;
  ea_equipment_id : Uuid;
  ea_quantity : option Z;
  ea_rate_override : option Cents;
  ea_notes : option string;
  ea_created_by : option Uuid
}.

#[global] Instance CrewAssignment_eq_dec : EqDecision CrewAssignment.
Proof. solve_decision. Defined.

#[global] Instance EquipmentAssignment_eq_dec : EqDecision EquipmentAssignment.
Proof. solve_decision. Defined.

Record Store : Type := mkStore {
  events : list Event;
  positions : list Position;
  crew_members : list CrewMember;
  equipment_categories : list EquipmentCategory;
  equipment : list Equipment;
  crew_assignments : list CrewAssignment;
  equipment_assignments : list EquipmentAssignment
}.

Definition with_crew_assignments (s : Store) (l : list CrewAssignment) : Store :=
  mkStore (events s) (positions s) (crew_members s) (equipment_categories s)
          (equipment s) l (equipment_assignments s).

Definition with_equipment_assignments (s : Store) (l : list EquipmentAssignment)
  : Store :=
  mkStore (events s) (positions s) (crew_members s) (equipment_categories s)
          (equipment s) (crew_assignments s) l.

(** *** Errors raised by the database

    Each carries the name of the constraint, column or type at fault; [code]
    is the SQLSTATE the routes and the error middleware test, [message] the
    text of the error without its quotation marks. *)

Inductive Error : Type :=
| UniqueViolation (constraint : string)
| ForeignKeyViolation (table constraint : string)
| NotNullViolation (column : string)
| CheckViolation (constraint : string)
| UndefinedColumn (column : string)
| InvalidTextRepresentation (type : string).

#[global] Instance Error_eq_dec : EqDecision Error.
Proof. solve_decision. Defined.

Definition code (e : Error) : string :=
  match e with
  | UniqueViolation _ => "23505"
  | ForeignKeyViolation _ _ => "23503"
  | NotNullViolation _ => "23502"
  | CheckViolation _ => "23514"
  | UndefinedColumn _ => "42703"
  | InvalidTextRepresentation _ => "22P02"
  end.

Definition message (e : Error) : string :=
  match e with
  | UniqueViolation c =>
      "duplicate key value violates unique constraint " +:+ c
  | ForeignKeyViolation t c =>
      "insert or update on table " +:+ t
      +:+ " violates foreign key constraint " +:+ c
  | NotNullViolation c =>
      "null value in column " +:+ c +:+ " violates not-null constraint"
  | CheckViolation c =>
      "new row violates check constraint " +:+ c
  | UndefinedColumn c =>
      "column " +:+ c +:+ " does not exist"
  | InvalidTextRepresentation t =>
      "invalid input syntax for type " +:+ t
  end.

(** Statements either raise or return; [x ← m; k] runs [k] on what [m]
    returned and stops at the first error. *)
#[global] Instance result_bind : MBind (sum Error) :=
  λ A B f m, match m with inl e => inl e | inr a => f a end.

(** [is_active = true] on a nullable boolean. *)
Definition is_true (b : option bool) : bool :=
  match b with Some true => true | _ => false end.

(** [uuid_generate_v4()]: an id the table does not hold yet. *)
Definition fresh (ids : list Uuid) : Uuid := N.succ (foldr N.max 0%N ids).

(** [COALESCE(a, b, 0)] on two nullable amounts. *)
Definition coalesce0 (a b : option Cents) : Cents :=
  match a, b with
  | Some x, _ => x
  | None, Some y => y
  | None, None => 0
  end.

(** [COALESCE(a, b)]. *)
Definition coalesce (a b : option Cents) : option Cents :=
  match a with Some x => Some x | None => b end.

(** [SUM] over a group: nulls are skipped, and the sum of no value at all is
    null. *)
Definition sum (l : list (option Z)) : option Z :=
  match omap id l with
  | [] => None
  | x :: r => Some (foldl Z.add x r)
  end.

(** [A LEFT JOIN B ON ...]: [k] continues with each matching row of [B], or
    once with no row when there is none. *)
Definition left_join {B R : Type} (matching : list B) (k : option B → list R)
  : list R :=
  match matching with
  | [] => k None
  | _ => matching ≫= (λ b, k (Some b))
  end.

(** [ORDER BY] on text follows the collation of the database: some total
    preorder on strings. *)
Class Collation : Type := {
  text_le : relation string;
  text_le_dec :: RelDecision text_le;
  text_le_total :: Total text_le;
  text_le_trans :: Transitive text_le
}.

(** [x BETWEEN a AND b] as a condition: not satisfied when a bound is
    null. *)
Definition between (x : Z) (a b : option Z) : Prop :=
  match a, b with
  | Some a, Some b => a ≤ x ≤ b
  | _, _ => False
  end.

#[global] Instance between_dec x a b : Decision (between x a b).
Proof. destruct a, b; simpl; apply _. Defined.

(** Ascending order on a nullable key puts the nulls last. *)
Definition nulls_last {A : Type} (le : relation A) : relation (option A) :=
  λ a b, match a, b with
         | Some x, Some y => le x y
         | _, None => True
         | None, Some _ => False
         end.

#[global] Instance nulls_last_dec {A : Type} (le : relation A)
  `{!RelDecision le} : RelDecision (nulls_last le).
Proof. intros [x|] [y|]; simpl; apply _. Defined.

(** [ORDER BY k1, k2]: by the first key, and by the second among rows whose
    first keys are equivalent. *)
Definition then_by {R K1 K2 : Type} (k1 : R → K1) (le1 : relation K1)
    (k2 : R → K2) (le2 : relation K2) : relation R :=
  λ a b, ¬ le1 (k1 b) (k1 a) ∨ (le1 (k1 a) (k1 b) ∧ le2 (k2 a) (k2 b)).

#[global] Instance then_by_dec {R K1 K2 : Type} (k1 : R → K1) (le1 : relation K1)
  (k2 : R → K2) (le2 : relation K2) `{!RelDecision le1, !RelDecision le2}
  : RelDecision (then_by k1 le1 k2 le2).
Proof. intros a b; unfold then_by; apply _. Defined.

(** *** Values on their way in and out

    How text becomes a typed column value is the database's business and how
    a JavaScript number becomes text is the driver's; the routes are modelled
    over any such conversions. *)
Class Conversions : Type := {
  uuid_in : string → option Uuid;
  date_in : string → option Date;
  time_in : string → option Time;
  numeric_in : string → option Cents;
  int4_in : string → option Z;
  number_out : Js.Number → string
}.

(** The driver sends [null] and [undefined] as SQL [NULL], a string as it
    is, a number as its text. *)
Definition param_text `{!Conversions} (v : Js.Value) : option string :=
  match v with
  | Js.Undefined | Js.Null => None
  | Js.Str s => Some s
  | Js.Num n => Some (number_out n)
  end.

(** A parameter bound to a column of type [type]. *)
Definition bind `{!Conversions} {A : Type} (type : string) (input : string → option A)
    (v : Js.Value) : Error + option A :=
  match param_text v with
  | None => inr None
  | Some s =>
      match input s with
      | Some a => inr (Some a)
      | None => inl (InvalidTextRepresentation type)
      end
  end.

(** A parameter bound to a [NOT NULL] column. *)
Definition required {A : Type} (column : string) (v : option A) : Error + A :=
  match v with
  | Some a => inr a
  | None => inl (NotNullViolation column)
  end.

(** A route parameter used as an identifier: [WHERE id = $1]. *)
Definition bind_uuid `{!Conversions} (id : string) : Error + option Uuid :=
  bind "uuid" uuid_in (Js.Str id).

(** On the way out the driver hands a [NUMERIC] and a [TIME] to JavaScript
    as text, an [INTEGER] as a number, [NULL] as [null]. *)
Definition pad2 (n : N) : string :=
  if (n <? 10)%N then "0" +:+ Js.text_of_N n else Js.text_of_N n.

Definition numeric_out (c : Cents) : string :=
  (if c <? 0 then "-" else "")
  +:+ Js.text_of_N (Z.abs_N c / 100) +:+ "." +:+ pad2 (Z.abs_N c mod 100).

Definition time_out (t : Time) : string :=
  pad2 (hour t) +:+ ":" +:+ pad2 (minute t) +:+ ":" +:+ pad2 (second t).

Definition js_numeric (c : option Cents) : Js.Value :=
  match c with Some c => Js.Str (numeric_out c) | None => Js.Null end.

Definition js_time (t : option Time) : Js.Value :=
  match t with Some t => Js.Str (time_out t) | None => Js.Null end.

Definition js_integer (z : option Z) : Js.Value :=
  match z with Some z => Js.Num (Js.of_Z z) | None => Js.Null end.

End Db.

(** ** The error middleware ([middleware/errorHandler.js]) *)

(** What a handler sends: [res.status(n).json(body)], or
    [res.status(n).json({ error })]. *)
Inductive Reply (A : Type) : Type :=
| Send (status : N) (body : A)
| Fail (status : N) (error : string).
Arguments Send {A} status body.
Arguments Fail {A} status error.

(** What a handler passes to [next]: an error of the database, which has a
    [code], or a [TypeError] of the language, which has none. *)
Inductive Raised : Type :=
| DbError (e : Db.Error)
| TypeError (message : string).

(** [errorHandler]: the two tests on [err.name] concern token errors, which
    neither kind of [Raised] is. *)
Definition errorHandler {A : Type} (err : Raised) : Reply A :=
  match err with
  | DbError e =>
      if bool_decide (Db.code e = "23505"%string)
      then Fail 409 "A record with this value already exists"
      else if bool_decide (Db.code e = "23503"%string)
      then Fail 400 "Referenced record does not exist"
      else Fail 500 "Internal server error"
  | TypeError _ => Fail 500 "Internal server error"
  end.

(** ** Assignments ([routes/assignments.js]) *)

Module Assignments.
Import Db.

Section Routes.
Context `{!Conversions}.

Definition status_in (s : string) : option Status :=
  if bool_decide (s = "pending"%string) then Some pending
  else if bool_decide (s = "confirmed"%string) then Some confirmed
  else if bool_decide (s = "declined"%string) then Some declined
  else if bool_decide (s = "no_show"%string) then Some no_show
  else if bool_decide (s = "completed"%string) then Some completed
  else None.

(** *** Statements on [crew_assignments] *)

(** [SELECT id FROM events WHERE id = $1]. *)
Definition select_event (s : Store) (id : Uuid) : list Event :=
  filter (λ e, e_id e = id) (events s).

(** [SELECT id FROM crew_members WHERE id = $1 AND is_active = true]. *)
Definition select_active_crew (s : Store) (id : Uuid) : list CrewMember :=
  filter (λ cm, cm_id cm = id ∧ is_true (cm_is_active cm) = true) (crew_members s).

(** [UNIQUE(event_id, crew_member_id)]. *)
Definition crew_pair_taken (s : Store) (event crew : Uuid) : bool :=
  bool_decide (Exists (λ ca, ca_event_id ca = event ∧ ca_crew_member_id ca = crew)
                      (crew_assignments s)).

Definition references {R : Type} (key : R → Uuid) (table : list R) (id : Uuid)
  : bool :=
  bool_decide (id ∈ map key table).

(** The foreign keys of a crew assignment, in the order of their
    declaration.  [created_by] is the caller, whose row [authenticate] has
    just read from [users]; that key always holds and [users] is not part of
    the store. *)
Definition crew_foreign_keys (s : Store) (row : CrewAssignment) : option Error :=
  if negb (references e_id (events s) (ca_event_id row))
  then Some (ForeignKeyViolation "crew_assignments" "crew_assignments_event_id_fkey")
  else if negb (references cm_id (crew_members s) (ca_crew_member_id row))
  then Some (ForeignKeyViolation "crew_assignments" "crew_assignments_crew_member_id_fkey")
  else match ca_position_id row with
       | Some p =>
           if references p_id (positions s) p then None
           else Some (ForeignKeyViolation "crew_assignments"
                                          "crew_assignments_position_id_fkey")
       | None => None
       end.

(** The row an [INSERT] builds: the listed columns, [uuid_generate_v4()] for
    the id, [DEFAULT 'pending'] for the status. *)
Definition new_crew_row (s : Store) (event crew : Uuid) (position : option Uuid)
    (call_time end_time : option Time) (rate : option Cents)
    (notes : option string) (user : Uuid) : CrewAssignment :=
  mkCrewAssignment (fresh (map ca_id (crew_assignments s))) event crew position
                   call_time end_time rate (Some pending) notes (Some user).

(** [INSERT INTO crew_assignments (...) VALUES (...) RETURNING *]: the unique
    index is checked as the row goes in, the foreign keys when the statement
    ends. *)
Definition insert_crew (s : Store) (row : CrewAssignment)
  : Error + (Store * CrewAssignment) :=
  if crew_pair_taken s (ca_event_id row) (ca_crew_member_id row)
  then inl (UniqueViolation "crew_assignments_event_id_crew_member_id_key")
  else match crew_foreign_keys s row with
       | Some e => inl e
       | None => inr (with_crew_assignments s (crew_assignments s ++ [row]), row)
       end.

(** [INSERT ... ON CONFLICT (event_id, crew_member_id) DO NOTHING]: a row
    whose pair is taken is dropped before anything else is checked. *)
Definition insert_crew_or_nothing (s : Store) (row : CrewAssignment)
  : Error + Store :=
  if crew_pair_taken s (ca_event_id row) (ca_crew_member_id row)
  then inr s
  else match crew_foreign_keys s row with
       | Some e => inl e
       | None => inr (with_crew_assignments s (crew_assignments s ++ [row]))
       end.

(** What [RETURNING *] is followed with: the assignment "with names",
    [SELECT ca.*, cm.name as crew_name, cm.email as crew_email,
            p.name as position_name
     FROM crew_assignments ca
     JOIN crew_members cm ON ca.crew_member_id = cm.id
     LEFT JOIN positions p ON ca.position_id = p.id
     WHERE ca.id = $1]. *)
Record CrewView : Type := mkCrewView {
  cv_assignment : CrewAssignment;
  cv_crew_name : string;
  cv_crew_email : option string;
  cv_position_name : option string
}.

Definition select_crew_view (s : Store) (id : Uuid) : list CrewView :=
  ca ← crew_assignments s;
  cm ← filter (λ cm, ca_crew_member_id ca = cm_id cm) (crew_members s);
  left_join (filter (λ p, ca_position_id ca = Some (p_id p)) (positions s))
    (λ p, if decide (ca_id ca = id)
          then [mkCrewView ca (cm_name cm) (cm_email cm) (p_name <$> p)]
          else []).

(** One [column = $k] of an [UPDATE], its parameter bound to the column's
    type. *)
Inductive CrewSet : Type :=
| SetPosition (p : option Uuid)
| SetCallTime (t : option Time)
| SetEndTime (t : option Time)
| SetRate (r : option Cents)
| SetStatus (text : option string)
| SetNotes (text : option string).

Definition bind_crew_set (column : string) (v : Js.Value) : Error + CrewSet :=
  if bool_decide (column = "position_id"%string)
  then x ← bind "uuid" uuid_in v; inr (SetPosition x)
  else if bool_decide (column = "call_time"%string)
  then x ← bind "time" time_in v; inr (SetCallTime x)
  else if bool_decide (column = "end_time"%string)
  then x ← bind "time" time_in v; inr (SetEndTime x)
  else if bool_decide (column = "rate_override"%string)
  then x ← bind "numeric" numeric_in v; inr (SetRate x)
  else if bool_decide (column = "status"%string)
  then inr (SetStatus (param_text v))
  else if bool_decide (column = "notes"%string)
  then inr (SetNotes (param_text v))
  else inl (UndefinedColumn column).

Fixpoint bind_crew_sets (sets : list (string * Js.Value)) : Error + list CrewSet :=
  match sets with
  | [] => inr []
  | (column, v) :: rest =>
      x ← bind_crew_set column v;
      xs ← bind_crew_sets rest;
      inr (x :: xs)
  end.

(** The new value of a row under one assignment; the [CHECK] on [status] is
    tested on the new row. *)
Definition apply_crew_set (ca : CrewAssignment) (set : CrewSet)
  : Error + CrewAssignment :=
  let '(mkCrewAssignment id event crew position call_time end_time rate status
                         notes user) := ca in
  match set with
  | SetPosition p =>
      inr (mkCrewAssignment id event crew p call_time end_time rate status notes user)
  | SetCallTime t =>
      inr (mkCrewAssignment id event crew position t end_time rate status notes user)
  | SetEndTime t =>
      inr (mkCrewAssignment id event crew position call_time t rate status notes user)
  | SetRate r =>
      inr (mkCrewAssignment id event crew position call_time end_time r status notes user)
  | SetStatus None =>
      inr (mkCrewAssignment id event crew position call_time end_time rate None notes user)
  | SetStatus (Some text) =>
      match status_in text with
      | Some st =>
          inr (mkCrewAssignment id event crew position call_time end_time rate
                                (Some st) notes user)
      | None => inl (CheckViolation "crew_assignments_status_check")
      end
  | SetNotes n =>
      inr (mkCrewAssignment id event crew position call_time end_time rate status n user)
  end.

Fixpoint apply_crew_sets (ca : CrewAssignment) (sets : list CrewSet)
  : Error + CrewAssignment :=
  match sets with
  | [] => inr ca
  | set :: rest => ca' ← apply_crew_set ca set; apply_crew_sets ca' rest
  end.

(** The foreign key on [position_id] is tested again when an update changes
    the column. *)
Definition position_key_after_update (s : Store) (old new : CrewAssignment)
  : Error + CrewAssignment :=
  match ca_position_id new with
  | Some p =>
      if bool_decide (ca_position_id old = Some p) || references p_id (positions s) p
      then inr new
      else inl (ForeignKeyViolation "crew_assignments"
                                    "crew_assignments_position_id_fkey")
  | None => inr new
  end.

Fixpoint update_crew_rows (s : Store) (sets : list CrewSet) (key : Uuid)
    (rows : list CrewAssignment) : Error + list CrewAssignment :=
  match rows with
  | [] => inr []
  | ca :: rest =>
      ca' ← (if decide (ca_id ca = key)
             then new ← apply_crew_sets ca sets; position_key_after_update s ca new
             else inr ca);
      rest' ← update_crew_rows s sets key rest;
      inr (ca' :: rest')
  end.

(** [UPDATE crew_assignments SET ... WHERE id = $n RETURNING *]: the
    parameters are bound in their order, the identifier last; then the rows
    are rewritten.  An error leaves the table as it was. *)
Definition update_crew (s : Store) (sets : list (string * Js.Value)) (id : string)
  : Error + (Store * list CrewAssignment) :=
  typed ← bind_crew_sets sets;
  key ← bind_uuid id;
  match key with
  | None => inr (s, [])
  | Some key =>
      rows ← update_crew_rows s typed key (crew_assignments s);
      inr (with_crew_assignments s rows, filter (λ ca, ca_id ca = key) rows)
  end.

(** [DELETE FROM crew_assignments WHERE id = $1 RETURNING id]. *)
Definition delete_crew (s : Store) (id : string) : Error + (Store * list Uuid) :=
  key ← bind_uuid id;
  match key with
  | None => inr (s, [])
  | Some key =>
      inr (with_crew_assignments s (filter (λ ca, ca_id ca ≠ key) (crew_assignments s)),
           ca_id <$> filter (λ ca, ca_id ca = key) (crew_assignments s))
  end.

(** *** Handlers for crew assignments

    A handler takes the store and returns the store it leaves and the reply
    it sends.  [user] is [req.user.id]. *)

(** The body of [POST /crew] as the validation chain lets it through. *)
Record CreateCrewBody : Type := mkCreateCrewBody {
  ccb_event_id : Uuid;
  ccb_crew_member_id : Uuid;
  ccb_position_id : option Uuid;
  ccb_call_time : option Time;
  ccb_end_time : option Time;
  ccb_rate_override : option Cents;
  ccb_notes : option string
}.

(** [rate_override || null]: a rate of zero is falsy. *)
Definition amount_or_null (r : option Cents) : option Cents :=
  match r with
  | Some c => if bool_decide (c = 0) then None else Some c
  | None => None
  end.

(** [notes || null]: the empty string is falsy. *)
Definition text_or_null (t : option string) : option string :=
  match t with
  | Some s => if bool_decide (s = ""%string) then None else Some s
  | None => None
  end.

(** [router.post('/crew', ...)]. *)
Definition createCrewAssignment (s : Store) (user : Uuid) (body : CreateCrewBody)
  : Store * Reply (option CrewView) :=
  match select_event s (ccb_event_id body) with
  | [] => (s, Fail 404 "Event not found")
  | _ :: _ =>
      match select_active_crew s (ccb_crew_member_id body) with
      | [] => (s, Fail 404 "Crew member not found or inactive")
      | _ :: _ =>
          match insert_crew s
                  (new_crew_row s (ccb_event_id body) (ccb_crew_member_id body)
                     (ccb_position_id body) (ccb_call_time body) (ccb_end_time body)
                     (amount_or_null (ccb_rate_override body))
                     (text_or_null (ccb_notes body)) user) with
          | inr (s', row) => (s', Send 201 (head (select_crew_view s' (ca_id row))))
          | inl error =>
              if bool_decide (code error = "23505"%string)
              then (s, Fail 409 "Crew member already assigned to this event")
              else (s, errorHandler (DbError error))
          end
      end
  end.

Definition allowedFields : list string :=
  ["position_id"; "call_time"; "end_time"; "rate_override"; "status"; "notes"]%string.

(** The loop over [allowedFields]: a field that is not [undefined] in the
    body adds one assignment, the empty string standing for [null]. *)
Definition collect_updates (body : gmap string Js.Value)
  : list (string * Js.Value) :=
  foldl (λ updates field,
           let v := Js.get body field in
           if bool_decide (v = Js.Undefined) then updates
           else updates ++ [(field, if bool_decide (v = Js.Str "") then Js.Null else v)])
        [] allowedFields.

(** [router.put('/crew/:id', ...)]. *)
Definition updateCrewAssignment (s : Store) (id : string)
    (body : gmap string Js.Value) : Store * Reply (option CrewView) :=
  match collect_updates body with
  | [] => (s, Fail 400 "No updates provided")
  | updates =>
      match update_crew s updates id with
      | inr (s', []) => (s', Fail 404 "Assignment not found")
      | inr (s', row :: _) => (s', Send 200 (head (select_crew_view s' (ca_id row))))
      | inl error => (s, errorHandler (DbError error))
      end
  end.

(** [router.delete('/crew/:id', ...)]. *)
Definition deleteCrewAssignment (s : Store) (id : string) : Store * Reply string :=
  match delete_crew s id with
  | inr (s', []) => (s', Fail 404 "Assignment not found")
  | inr (s', _ :: _) => (s', Send 200 "Assignment deleted successfully"%string)
  | inl error => (s, errorHandler (DbError error))
  end.

(** The body of [POST /crew/bulk]: the chain checks that [event_id] and
    [position_id] are UUIDs and that [crew_member_ids] is a non-empty array;
    the elements of the array and [call_time] arrive as they were sent. *)
Record BulkBody : Type := mkBulkBody {
  bb_event_id : Uuid;
  bb_crew_member_ids : list Js.Value;
  bb_position_id : option Uuid;
  bb_call_time : Js.Value
}.

Record BulkResults : Type := mkBulkResults {
  assigned : N;
  skipped : N;
  errors : list (Js.Value * string)
}.

(** The statement of the loop body with its parameters
    [[event_id, crew_member_id, position_id || null, call_time || null,
      req.user.id]]. *)
Definition bulk_insert (s : Store) (user : Uuid) (body : BulkBody)
    (crew_member_id : Js.Value) : Error + Store :=
  crew ← bind "uuid" uuid_in crew_member_id;
  call_time ← bind "time" time_in
                (if Js.truthy (bb_call_time body) then bb_call_time body else Js.Null);
  crew ← required "crew_member_id" crew;
  insert_crew_or_nothing s
    (new_crew_row s (bb_event_id body) crew (bb_position_id body) call_time
                  None None None user).

(** One turn of the loop: [try { await query(...); results.assigned++ }
    catch (error) { results.errors.push({ crew_member_id, error: error.message }) }]. *)
Definition bulk_step (user : Uuid) (body : BulkBody) (state : Store * BulkResults)
    (crew_member_id : Js.Value) : Store * BulkResults :=
  let '(s, results) := state in
  match bulk_insert s user body crew_member_id with
  | inr s' =>
      (s', mkBulkResults (assigned results + 1) (skipped results) (errors results))
  | inl error =>
      (s, mkBulkResults (assigned results) (skipped results)
                        (errors results ++ [(crew_member_id, message error)]))
  end.

(** [router.post('/crew/bulk', ...)]. *)
Definition bulkCreateCrewAssignments (s : Store) (user : Uuid) (body : BulkBody)
  : Store * Reply (string * BulkResults) :=
  let '(s', results) :=
    foldl (bulk_step user body) (s, mkBulkResults 0 0 []) (bb_crew_member_ids body) in
  (s', Send 200 ("Assigned " +:+ Js.text_of_N (assigned results) +:+ " crew members", results)).

(** *** Statements and handlers for equipment assignments *)

(** [SELECT id FROM equipment WHERE id = $1 AND is_active = true]. *)
Definition select_active_equipment (s : Store) (id : Uuid) : list Equipment :=
  filter (λ eq, eq_id eq = id ∧ is_true (eq_is_active eq) = true) (equipment s).

(** [UNIQUE(event_id, equipment_id)]. *)
Definition equipment_pair_taken (s : Store) (event item : Uuid) : bool :=
  bool_decide (Exists (λ ea, ea_event_id ea = event ∧ ea_equipment_id ea = item)
                      (equipment_assignments s)).

Definition equipment_foreign_keys (s : Store) (row : EquipmentAssignment)
  : option Error :=
  if negb (references e_id (events s) (ea_event_id row))
  then Some (ForeignKeyViolation "equipment_assignments"
                                 "equipment_assignments_event_id_fkey")
  else if negb (references eq_id (equipment s) (ea_equipment_id row))
  then Some (ForeignKeyViolation "equipment_assignments"
                                 "equipment_assignments_equipment_id_fkey")
  else None.

(** [INSERT INTO equipment_assignments (...) VALUES (...) RETURNING *]. *)
Definition insert_equipment (s : Store) (row : EquipmentAssignment)
  : Error + (Store * EquipmentAssignment) :=
  if equipment_pair_taken s (ea_event_id row) (ea_equipment_id row)
  then inl (UniqueViolation "equipment_assignments_event_id_equipment_id_key")
  else match equipment_foreign_keys s row with
       | Some e => inl e
       | None =>
           inr (with_equipment_assignments s (equipment_assignments s ++ [row]), row)
       end.

(** [SELECT ea.*, eq.name as equipment_name, eq.serial_number,
            ec.name as category_name
     FROM equipment_assignments ea
     JOIN equipment eq ON ea.equipment_id = eq.id
     LEFT JOIN equipment_categories ec ON eq.category_id = ec.id
     WHERE ea.id = $1]. *)
Record EquipmentView : Type := mkEquipmentView {
  ev_assignment : EquipmentAssignment;
  ev_equipment_name : string;
  ev_serial_number : option string;
  ev_category_name : option string
}.

Definition select_equipment_view (s : Store) (id : Uuid) : list EquipmentView :=
  ea ← equipment_assignments s;
  eq ← filter (λ eq, ea_equipment_id ea = eq_id eq) (equipment s);
  left_join (filter (λ ec, eq_category_id eq = Some (ec_id ec)) (equipment_categories s))
    (λ ec, if decide (ea_id ea = id)
           then [mkEquipmentView ea (eq_name eq) (eq_serial_number eq) (ec_name <$> ec)]
           else []).

Inductive EquipmentSet : Type :=
| SetQuantity (q : option Z)
| SetEquipmentRate (r : option Cents)
| SetEquipmentNotes (text : option string).

Definition bind_equipment_set (column : string) (v : Js.Value)
  : Error + EquipmentSet :=
  if bool_decide (column = "quantity"%string)
  then x ← bind "integer" int4_in v; inr (SetQuantity x)
  else if bool_decide (column = "rate_override"%string)
  then x ← bind "numeric" numeric_in v; inr (SetEquipmentRate x)
  else if bool_decide (column = "notes"%string)
  then inr (SetEquipmentNotes (param_text v))
  else inl (UndefinedColumn column).

Fixpoint bind_equipment_sets (sets : list (string * Js.Value))
  : Error + list EquipmentSet :=
  match sets with
  | [] => inr []
  | (column, v) :: rest =>
      x ← bind_equipment_set column v;
      xs ← bind_equipment_sets rest;
      inr (x :: xs)
  end.

Definition apply_equipment_set (ea : EquipmentAssignment) (set : EquipmentSet)
  : EquipmentAssignment :=
  let '(mkEquipmentAssignment id event item quantity rate notes user) := ea in
  match set with
  | SetQuantity q => mkEquipmentAssignment id event item q rate notes user
  | SetEquipmentRate r => mkEquipmentAssignment id event item quantity r notes user
  | SetEquipmentNotes n => mkEquipmentAssignment id event item quantity rate n user
  end.

(** [UPDATE equipment_assignments SET ... WHERE id = $n RETURNING *]. *)
Definition update_equipment (s : Store) (sets : list (string * Js.Value))
    (id : string) : Error + (Store * list EquipmentAssignment) :=
  typed ← bind_equipment_sets sets;
  key ← bind_uuid id;
  match key with
  | None => inr (s, [])
  | Some key =>
      let rows := (λ ea, if decide (ea_id ea = key)
                         then foldl apply_equipment_set ea typed else ea)
                  <$> equipment_assignments s in
      inr (with_equipment_assignments s rows, filter (λ ea, ea_id ea = key) rows)
  end.

(** [DELETE FROM equipment_assignments WHERE id = $1 RETURNING id]. *)
Definition delete_equipment (s : Store) (id : string)
  : Error + (Store * list Uuid) :=
  key ← bind_uuid id;
  match key with
  | None => inr (s, [])
  | Some key =>
      inr (with_equipment_assignments s
             (filter (λ ea, ea_id ea ≠ key) (equipment_assignments s)),
           ea_id <$> filter (λ ea, ea_id ea = key) (equipment_assignments s))
  end.

(** The body of [POST /equipment] as the validation chain lets it through. *)
Record CreateEquipmentBody : Type := mkCreateEquipmentBody {
  ceb_event_id : Uuid;
  ceb_equipment_id : Uuid;
  ceb_quantity : option Z;
  ceb_rate_override : option Cents;
  ceb_notes : option string
}.

(** [quantity || 1]. *)
Definition quantity_or_one (q : option Z) : Z :=
  match q with
  | Some n => if bool_decide (n = 0) then 1 else n
  | None => 1
  end.

(** [router.post('/equipment', ...)]. *)
Definition createEquipmentAssignment (s : Store) (user : Uuid)
    (body : CreateEquipmentBody) : Store * Reply (option EquipmentView) :=
  match select_event s (ceb_event_id body) with
  | [] => (s, Fail 404 "Event not found")
  | _ :: _ =>
      match select_active_equipment s (ceb_equipment_id body) with
      | [] => (s, Fail 404 "Equipment not found or inactive")
      | _ :: _ =>
          match insert_equipment s
                  (mkEquipmentAssignment
                     (fresh (map ea_id (equipment_assignments s)))
                     (ceb_event_id body) (ceb_equipment_id body)
                     (Some (quantity_or_one (ceb_quantity body)))
                     (amount_or_null (ceb_rate_override body))
                     (text_or_null (ceb_notes body)) (Some user)) with
          | inr (s', row) =>
              (s', Send 201 (head (select_equipment_view s' (ea_id row))))
          | inl error =>
              if bool_decide (code error = "23505"%string)
              then (s, Fail 409 "Equipment already assigned to this event")
              else (s, errorHandler (DbError error))
          end
      end
  end.

(** The three [if (field !== undefined)] of [PUT /equipment/:id]. *)
Definition collect_equipment_updates (body : gmap string Js.Value)
  : list (string * Js.Value) :=
  let quantity := Js.get body "quantity" in
  let rate_override := Js.get body "rate_override" in
  let notes := Js.get body "notes" in
  (if bool_decide (quantity = Js.Undefined) then []
   else [("quantity"%string, quantity)])
  ++ (if bool_decide (rate_override = Js.Undefined) then []
      else [("rate_override"%string,
             if bool_decide (rate_override = Js.Str "") then Js.Null else rate_override)])
  ++ (if bool_decide (notes = Js.Undefined) then []
      else [("notes"%string, if Js.truthy notes then notes else Js.Null)]).

(** [router.put('/equipment/:id', ...)]. *)
Definition updateEquipmentAssignment (s : Store) (id : string)
    (body : gmap string Js.Value) : Store * Reply (option EquipmentView) :=
  match collect_equipment_updates body with
  | [] => (s, Fail 400 "No updates provided")
  | updates =>
      match update_equipment s updates id with
      | inr (s', []) => (s', Fail 404 "Assignment not found")
      | inr (s', row :: _) =>
          (s', Send 200 (head (select_equipment_view s' (ea_id row))))
      | inl error => (s, errorHandler (DbError error))
      end
  end.

(** [router.delete('/equipment/:id', ...)]. *)
Definition deleteEquipmentAssignment (s : Store) (id : string)
  : Store * Reply string :=
  match delete_equipment s id with
  | inr (s', []) => (s', Fail 404 "Assignment not found")
  | inr (s', _ :: _) => (s', Send 200 "Assignment deleted successfully"%string)
  | inl error => (s, errorHandler (DbError error))
  end.

(** *** Availability *)

(** A row of
    [SELECT cm.id, cm.name, e.event_date, e.name as event_name
     FROM crew_members cm
     LEFT JOIN crew_assignments ca ON cm.id = ca.crew_member_id
     LEFT JOIN events e ON ca.event_id = e.id
                       AND e.event_date BETWEEN $1 AND $2
     WHERE cm.is_active = true
     ORDER BY cm.name, e.event_date];
    the two columns of [e] are null together. *)
Record AvailabilityRow : Type := mkAvailabilityRow {
  ar_id : Uuid;
  ar_name : string;
  ar_event : option (Date * string)
}.

Definition availability_order `{!Collation} : relation AvailabilityRow :=
  then_by ar_name text_le (λ r, fst <$> ar_event r) (nulls_last Z.le).

Definition select_availability `{!Collation} (s : Store)
    (start_date end_date : option Date) : list AvailabilityRow :=
  merge_sort availability_order
    (cm ← crew_members s;
     left_join (filter (λ ca, cm_id cm = ca_crew_member_id ca) (crew_assignments s))
       (λ ca,
          left_join
            (match ca with
             | Some ca =>
                 filter (λ e, ca_event_id ca = e_id e
                              ∧ between (e_event_date e) start_date end_date)
                        (events s)
             | None => []
             end)
            (λ e, if is_true (cm_is_active cm)
                  then [mkAvailabilityRow (cm_id cm) (cm_name cm)
                          ((λ e, (e_event_date e, e_name e)) <$> e)]
                  else []))).

Record Availability : Type := mkAvailability {
  av_id : Uuid;
  av_name : string;
  av_assignments : list (Date * string)
}.

Definition push_assignment (a : Date * string) (entry : Availability)
  : Availability :=
  mkAvailability (av_id entry) (av_name entry) (av_assignments entry ++ [a]).

(** The body of [result.rows.forEach]: the entry of the member is created
    the first time the member is met, and a row with an event adds to it.
    The keys are the texts of UUIDs, which are neither array indices nor
    names of inherited properties. *)
Definition availability_step (availability : list (Uuid * Availability))
    (row : AvailabilityRow) : list (Uuid * Availability) :=
  let availability :=
    match Js.obj_get availability (ar_id row) with
    | None => availability ++ [(ar_id row, mkAvailability (ar_id row) (ar_name row) [])]
    | Some _ => availability
    end in
  match ar_event row with
  | Some a => Js.obj_alter (push_assignment a) (ar_id row) availability
  | None => availability
  end.

(** [router.get('/availability/crew', ...)]; the two dates are the query
    parameters [start_date] and [end_date]. *)
Definition crewAvailability `{!Collation} (s : Store) (start_date end_date : Js.Value)
  : Reply (list Availability) :=
  if negb (Js.truthy start_date) || negb (Js.truthy end_date)
  then Fail 400 "start_date and end_date required"
  else
    match (d1 ← bind "date" date_in start_date;
           d2 ← bind "date" date_in end_date;
           inr (d1, d2)) with
    | inl error => errorHandler (DbError error)
    | inr (d1, d2) =>
        Send 200 (Js.obj_values (foldl availability_step [] (select_availability s d1 d2)))
    end.

End Routes.
End Assignments.

(** ** Reports ([routes/reports.js]) *)

Module Reports.
Import Db.

(** *** The two cost helpers *)

(** [calculateCrewCost(assignment)].  [split] exists on strings only: a
    truthy time that is not a string ends the call with a [TypeError]. *)
Definition calculateCrewCost (assignment : gmap string Js.Value)
  : Js.Outcome Js.Number :=
  let rate := Js.or_num (Js.parseFloat (Js.get assignment "rate")) (Js.of_Z 0) in
  let call_time := Js.get assignment "call_time" in
  let end_time := Js.get assignment "end_time" in
  if Js.truthy call_time && Js.truthy end_time then
    match call_time with
    | Js.Str call =>
        let start := Js.to_number_str <$> Js.split ":" call in
        match end_time with
        | Js.Str finish =>
            let end_ := Js.to_number_str <$> Js.split ":" finish in
            let hours :=
              Js.sub (Js.add (Js.at_index end_ 0)
                             (Js.div (Js.at_index end_ 1) (Js.of_Z 60)))
                     (Js.add (Js.at_index start 0)
                             (Js.div (Js.at_index start 1) (Js.of_Z 60))) in
            let hours :=
              if Js.ltb hours (Js.of_Z 0) then Js.add hours (Js.of_Z 24) else hours in
            Js.Return (Js.mul rate hours)
        | _ => Js.Throw "assignment.end_time.split is not a function"
        end
    | _ => Js.Throw "assignment.call_time.split is not a function"
    end
  else Js.Return (Js.mul rate (Js.of_Z 8)).

(** [calculateEquipmentCost(assignment)]. *)
Definition calculateEquipmentCost (assignment : gmap string Js.Value) : Js.Number :=
  let rate := Js.or_num (Js.parseFloat (Js.get assignment "rate")) (Js.of_Z 0) in
  let quantity := Js.or_num (Js.parseInt (Js.get assignment "quantity")) (Js.of_Z 1) in
  Js.mul rate quantity.

(** *** The report of one event *)

(** The text of [COALESCE(override, default, 0)]: a column value prints with
    its two decimals, the literal as [0]. *)
Definition rate_text (override default : option Cents) : string :=
  match coalesce override default with
  | Some c => numeric_out c
  | None => "0"
  end.

(** A row of
    [SELECT ca.*, cm.name as crew_name, ..., p.name as position_name,
            COALESCE(ca.rate_override, cm.hourly_rate, 0) as rate
     FROM crew_assignments ca
     JOIN crew_members cm ON ca.crew_member_id = cm.id
     LEFT JOIN positions p ON ca.position_id = p.id
     WHERE ca.event_id = $1
     ORDER BY p.sort_order, cm.name]. *)
Record CrewCostRow : Type := mkCrewCostRow {
  ccr_assignment : CrewAssignment;
  ccr_crew_name : string;
  ccr_position : option Position;
  ccr_rate : string
}.

Record EquipmentCostRow : Type := mkEquipmentCostRow {
  ecr_assignment : EquipmentAssignment;
  ecr_equipment_name : string;
  ecr_category : option EquipmentCategory;
  ecr_rate : string
}.

(** [{ ...a, cost }]. *)
Record Costed (R : Type) : Type := mkCosted { item : R; cost : Js.Number }.
Arguments mkCosted {R} item cost.
Arguments item {R} c.
Arguments cost {R} c.

Section Queries.
Context `{!Conversions, !Collation}.

Definition crew_cost_order : relation CrewCostRow :=
  then_by (λ r, ccr_position r ≫= p_sort_order) (nulls_last Z.le)
          ccr_crew_name text_le.

Definition select_crew_costs (s : Store) (event : option Uuid) : list CrewCostRow :=
  merge_sort crew_cost_order
    (ca ← crew_assignments s;
     cm ← filter (λ cm, ca_crew_member_id ca = cm_id cm) (crew_members s);
     left_join (filter (λ p, ca_position_id ca = Some (p_id p)) (positions s))
       (λ p, if decide (Some (ca_event_id ca) = event)
             then [mkCrewCostRow ca (cm_name cm) p
                     (rate_text (ca_rate_override ca) (cm_hourly_rate cm))]
             else [])).

(** [SELECT ea.*, eq.name as equipment_name, ..., ec.name as category_name,
            COALESCE(ea.rate_override, eq.daily_rate, 0) as rate
     FROM equipment_assignments ea
     JOIN equipment eq ON ea.equipment_id = eq.id
     LEFT JOIN equipment_categories ec ON eq.category_id = ec.id
     WHERE ea.event_id = $1
     ORDER BY ec.sort_order, eq.name]. *)
Definition equipment_cost_order : relation EquipmentCostRow :=
  then_by (λ r, ecr_category r ≫= ec_sort_order) (nulls_last Z.le)
          ecr_equipment_name text_le.

Definition select_equipment_costs (s : Store) (event : option Uuid)
  : list EquipmentCostRow :=
  merge_sort equipment_cost_order
    (ea ← equipment_assignments s;
     eq ← filter (λ eq, ea_equipment_id ea = eq_id eq) (equipment s);
     left_join (filter (λ ec, eq_category_id eq = Some (ec_id ec))
                       (equipment_categories s))
       (λ ec, if decide (Some (ea_event_id ea) = event)
              then [mkEquipmentCostRow ea (eq_name eq) ec
                      (rate_text (ea_rate_override ea) (eq_daily_rate eq))]
              else [])).

(** The object the driver builds for a row, with the properties the helpers
    read. *)
Definition crew_object (r : CrewCostRow) : gmap string Js.Value :=
  {[ "rate"%string := Js.Str (ccr_rate r);
     "call_time"%string := js_time (ca_call_time (ccr_assignment r));
     "end_time"%string := js_time (ca_end_time (ccr_assignment r)) ]}.

Definition equipment_object (r : EquipmentCostRow) : gmap string Js.Value :=
  {[ "rate"%string := Js.Str (ecr_rate r);
     "quantity"%string := js_integer (ea_quantity (ecr_assignment r)) ]}.

(** [crewResult.rows.map(a => ({ ...a, cost: calculateCrewCost(a) }))]: the
    first call that throws ends the map. *)
Fixpoint crew_costs (rows : list CrewCostRow) : Js.Outcome (list (Costed CrewCostRow)) :=
  match rows with
  | [] => Js.Return []
  | a :: rest =>
      match calculateCrewCost (crew_object a) with
      | Js.Throw e => Js.Throw e
      | Js.Return c =>
          match crew_costs rest with
          | Js.Throw e => Js.Throw e
          | Js.Return cs => Js.Return (mkCosted a c :: cs)
          end
      end
  end.

Definition equipment_costs (rows : list EquipmentCostRow)
  : list (Costed EquipmentCostRow) :=
  (λ a, mkCosted a (calculateEquipmentCost (equipment_object a))) <$> rows.

(** [rows.reduce((sum, a) => sum + a.cost, 0)]. *)
Definition total_cost {R : Type} (rows : list (Costed R)) : Js.Number :=
  foldl (λ sum a, Js.add sum (cost a)) (Js.of_Z 0) rows.

Record Totals : Type := mkTotals {
  t_crew : Js.Number;
  t_equipment : Js.Number;
  t_total : Js.Number
}.

Record EventReport : Type := mkEventReport {
  er_event : Event;
  er_crewAssignments : list (Costed CrewCostRow);
  er_equipmentAssignments : list (Costed EquipmentCostRow);
  er_totals : Totals
}.

(** [router.get('/event/:id', ...)]. *)
Definition eventReport (s : Store) (id : string) : Reply EventReport :=
  match bind_uuid id with
  | inl error => errorHandler (DbError error)
  | inr key =>
      match filter (λ e, Some (e_id e) = key) (events s) with
      | [] => Fail 404 "Event not found"
      | event :: _ =>
          match crew_costs (select_crew_costs s key) with
          | Js.Throw e => errorHandler (TypeError e)
          | Js.Return crewAssignments =>
              let equipmentAssignments :=
                equipment_costs (select_equipment_costs s key) in
              let crewTotal := total_cost crewAssignments in
              let equipmentTotal := total_cost equipmentAssignments in
              Send 200 (mkEventReport event crewAssignments equipmentAssignments
                          (mkTotals crewTotal equipmentTotal
                                    (Js.add crewTotal equipmentTotal)))
          end
      end
  end.

(** [router.get('/export/pdf/event/:id', ...)] up to the figures it prints:
    the same two queries, and the totals accumulated while the rows are
    mapped. *)
Definition pdfEventCosts (s : Store) (id : string)
  : Reply (list (Costed CrewCostRow) * Js.Number
           * list (Costed EquipmentCostRow) * Js.Number) :=
  match bind_uuid id with
  | inl error => errorHandler (DbError error)
  | inr key =>
      match filter (λ e, Some (e_id e) = key) (events s) with
      | [] => Fail 404 "Event not found"
      | _ :: _ =>
          match crew_costs (select_crew_costs s key) with
          | Js.Throw e => errorHandler (TypeError e)
          | Js.Return crewRows =>
              let equipmentRows := equipment_costs (select_equipment_costs s key) in
              Send 200 (crewRows, total_cost crewRows,
                        equipmentRows, total_cost equipmentRows)
          end
      end
  end.

(** *** The cost report by cost center *)

(** The rows the four [LEFT JOIN]s of the cost queries produce for one
    event:
    [FROM events e
     LEFT JOIN crew_assignments ca ON e.id = ca.event_id
     LEFT JOIN crew_members cm ON ca.crew_member_id = cm.id
     LEFT JOIN equipment_assignments ea ON e.id = ea.event_id
     LEFT JOIN equipment eq ON ea.equipment_id = eq.id]. *)
Definition joined (s : Store) (e : Event)
  : list (option CrewAssignment * option CrewMember
          * option EquipmentAssignment * option Equipment) :=
  left_join (filter (λ ca, e_id e = ca_event_id ca) (crew_assignments s)) (λ ca,
  left_join (match ca with
             | Some ca => filter (λ cm, ca_crew_member_id ca = cm_id cm) (crew_members s)
             | None => []
             end) (λ cm,
  left_join (filter (λ ea, e_id e = ea_event_id ea) (equipment_assignments s)) (λ ea,
  left_join (match ea with
             | Some ea => filter (λ eq, ea_equipment_id ea = eq_id eq) (equipment s)
             | None => []
             end) (λ eq,
  [(ca, cm, ea, eq)])))).

(** [COALESCE(ca.rate_override, cm.hourly_rate, 0) * 8] on a joined row. *)
Definition crew_term (ca : option CrewAssignment) (cm : option CrewMember)
  : option Cents :=
  Some (coalesce0 (ca ≫= ca_rate_override) (cm ≫= cm_hourly_rate) * 8).

(** [COALESCE(ea.rate_override, eq.daily_rate, 0) * ea.quantity] on a joined
    row: null when the quantity is. *)
Definition equipment_term (ea : option EquipmentAssignment) (eq : option Equipment)
  : option Cents :=
  q ← ea ≫= ea_quantity;
  Some (coalesce0 (ea ≫= ea_rate_override) (eq ≫= eq_daily_rate) * q).

(** The text of [COALESCE(SUM(...), 0)]. *)
Definition sum_text (terms : list (option Cents)) : string :=
  match sum terms with
  | Some c => numeric_out c
  | None => "0"
  end.

Record CostRow : Type := mkCostRow {
  cr_event : Event;
  cr_crew_cost : string;
  cr_equipment_cost : string
}.

(** The [WHERE] clause the handler assembles: each condition is there when
    its query parameter is. *)
Definition cost_filter (start_date end_date : option Date)
    (cost_center : option string) (e : Event) : Prop :=
  from_option (λ d, d ≤ e_event_date e) True start_date
  ∧ from_option (λ d, e_event_date e ≤ d) True end_date
  ∧ from_option (λ c, e_cost_center e = Some c) True cost_center.

#[global] Instance cost_filter_dec a b c e : Decision (cost_filter a b c e).
Proof. unfold cost_filter; destruct a, b, c; simpl; apply _. Defined.

(** [SELECT e.id, e.name, e.event_date, e.cost_center, e.status,
            COALESCE(SUM(... * 8), 0) as crew_cost,
            COALESCE(SUM(... * ea.quantity), 0) as equipment_cost
     FROM ... WHERE ... GROUP BY e.id ORDER BY e.event_date]: [e.id] being
    the primary key, each event that passes the [WHERE] clause is a group of
    its own. *)
Definition cost_order : relation CostRow :=
  λ a b, e_event_date (cr_event a) ≤ e_event_date (cr_event b).

#[global] Instance cost_order_dec : RelDecision cost_order.
Proof. intros a b; unfold cost_order; apply _. Defined.

Definition select_costs (s : Store) (start_date end_date : option Date)
    (cost_center : option string) : list CostRow :=
  merge_sort cost_order
    (e ← events s;
     if decide (cost_filter start_date end_date cost_center e)
     then [mkCostRow e
             (sum_text ((λ '(ca, cm, _, _), crew_term ca cm) <$> joined s e))
             (sum_text ((λ '(_, _, ea, eq), equipment_term ea eq) <$> joined s e))]
     else []).

Record CostedEvent : Type := mkCostedEvent {
  ce_event : Event;
  ce_crew_cost : Js.Number;
  ce_equipment_cost : Js.Number;
  ce_total : Js.Number
}.

Record Bucket : Type := mkBucket {
  b_events : list CostedEvent;
  b_totals : Totals
}.

Record CostReport : Type := mkCostReport {
  byCostCenter : list (string * Bucket);
  grandTotal : Totals;
  eventCount : nat
}.

(** The properties every object inherits: read through [byCostCenter[cc]]
    they are functions, or the prototype itself, all truthy and none with an
    [events] array. *)
Definition inherited_properties : list string :=
  ["constructor"; "__defineGetter__"; "__defineSetter__"; "hasOwnProperty";
   "__lookupGetter__"; "__lookupSetter__"; "isPrototypeOf";
   "propertyIsEnumerable"; "toString"; "valueOf"; "__proto__";
   "toLocaleString"]%string.

Definition add_totals (t : Totals) (crewCost equipmentCost total : Js.Number)
  : Totals :=
  mkTotals (Js.add (t_crew t) crewCost) (Js.add (t_equipment t) equipmentCost)
           (Js.add (t_total t) total).

(** The body of [result.rows.forEach(event => ...)]. *)
Definition cost_step (state : list (string * Bucket) * Totals) (event : CostRow)
  : Js.Outcome (list (string * Bucket) * Totals) :=
  let '(byCostCenter, grandTotal) := state in
  let cc := match e_cost_center (cr_event event) with
            | Some c => if bool_decide (c = ""%string) then "Unassigned"%string else c
            | None => "Unassigned"%string
            end in
  let byCostCenter :=
    if bool_decide (is_Some (Js.obj_get byCostCenter cc))
       || bool_decide (cc ∈ inherited_properties)
    then byCostCenter
    else byCostCenter
         ++ [(cc, mkBucket [] (mkTotals (Js.of_Z 0) (Js.of_Z 0) (Js.of_Z 0)))] in
  let crewCost := Js.or_num (Js.parseFloat (Js.Str (cr_crew_cost event))) (Js.of_Z 0) in
  let equipmentCost :=
    Js.or_num (Js.parseFloat (Js.Str (cr_equipment_cost event))) (Js.of_Z 0) in
  let total := Js.add crewCost equipmentCost in
  match Js.obj_get byCostCenter cc with
  | None => Js.Throw "Cannot read properties of undefined (reading 'push')"
  | Some _ =>
      Js.Return
        (Js.obj_alter
           (λ b, mkBucket
                   (b_events b
                    ++ [mkCostedEvent (cr_event event) crewCost equipmentCost total])
                   (add_totals (b_totals b) crewCost equipmentCost total))
           cc byCostCenter,
         add_totals grandTotal crewCost equipmentCost total)
  end.

Fixpoint cost_loop (state : list (string * Bucket) * Totals) (rows : list CostRow)
  : Js.Outcome (list (string * Bucket) * Totals) :=
  match rows with
  | [] => Js.Return state
  | event :: rest =>
      match cost_step state event with
      | Js.Throw e => Js.Throw e
      | Js.Return state' => cost_loop state' rest
      end
  end.

(** A query parameter that adds a condition when it is truthy. *)
Definition optional {A : Type} (type : string) (input : string → option A)
    (v : Js.Value) : Error + option A :=
  if Js.truthy v then bind type input v else inr None.

(** [router.get('/costs', ...)]. *)
Definition costReport (s : Store) (start_date end_date cost_center : Js.Value)
  : Reply CostReport :=
  match (d1 ← optional "date" date_in start_date;
         d2 ← optional "date" date_in end_date;
         cc ← optional "text" Some cost_center;
         inr (select_costs s d1 d2 cc)) with
  | inl error => errorHandler (DbError error)
  | inr rows =>
      match cost_loop ([], mkTotals (Js.of_Z 0) (Js.of_Z 0) (Js.of_Z 0)) rows with
      | Js.Throw e => errorHandler (TypeError e)
      | Js.Return (byCostCenter, grandTotal) =>
          Send 200 (mkCostReport byCostCenter grandTotal (length rows))
      end
  end.

(** [router.get('/export/excel/costs', ...)] up to the sheet's rows: the
    query of the cost report without the cost-center condition, and a
    [Total] column. *)
Definition excelCostRows (s : Store) (start_date end_date : Js.Value)
  : Reply (list (CostRow * Js.Number)) :=
  match (d1 ← optional "date" date_in start_date;
         d2 ← optional "date" date_in end_date;
         inr (select_costs s d1 d2 None)) with
  | inl error => errorHandler (DbError error)
  | inr rows =>
      Send 200
        ((λ row,
            (row,
             Js.add (Js.or_num (Js.parseFloat (Js.Str (cr_crew_cost row))) (Js.of_Z 0))
                    (Js.or_num (Js.parseFloat (Js.Str (cr_equipment_cost row)))
                               (Js.of_Z 0)))) <$> rows)
  end.

End Queries.
End Reports.

(** ** The event page ([pages/Events/EventDetail.jsx])

    The page shows the rows of [GET /events/:id] ([routes/events.js]), whose
    [rate] column is [COALESCE(override, default)] without the final zero,
    and computes its own totals. *)

Module EventDetail.
Import Db.

(** The [rate] and [quantity] properties of the rows the page receives. *)
Definition crew_rows (s : Store) (event : Uuid) : list (gmap string Js.Value) :=
  ca ← crew_assignments s;
  cm ← filter (λ cm, ca_crew_member_id ca = cm_id cm) (crew_members s);
  if decide (ca_event_id ca = event)
  then [{[ "rate"%string :=
             js_numeric (coalesce (ca_rate_override ca) (cm_hourly_rate cm)) ]}]
  else [].

Definition equipment_rows (s : Store) (event : Uuid) : list (gmap string Js.Value) :=
  ea ← equipment_assignments s;
  eq ← filter (λ eq, ea_equipment_id ea = eq_id eq) (equipment s);
  if decide (ea_event_id ea = event)
  then [{[ "rate"%string :=
             js_numeric (coalesce (ea_rate_override ea) (eq_daily_rate eq));
           "quantity"%string := js_integer (ea_quantity ea) ]}]
  else [].

(** [calculateTotals()]. *)
Definition calculateTotals (crewAssignments equipmentAssignments : list (gmap string Js.Value))
  : Js.Number * Js.Number * Js.Number :=
  let crewTotal :=
    foldl (λ sum a,
             let rate := Js.or_num (Js.parseFloat (Js.get a "rate")) (Js.of_Z 0) in
             Js.add sum (Js.mul rate (Js.of_Z 8)))
          (Js.of_Z 0) crewAssignments in
  let equipmentTotal :=
    foldl (λ sum a,
             let rate := Js.or_num (Js.parseFloat (Js.get a "rate")) (Js.of_Z 0) in
             let qty := Js.or_num (Js.parseInt (Js.get a "quantity")) (Js.of_Z 1) in
             Js.add sum (Js.mul rate qty))
          (Js.of_Z 0) equipmentAssignments in
  (crewTotal, equipmentTotal, Js.add crewTotal equipmentTotal).

End EventDetail.

(** ** A concrete setting

    One choice of conversions and of collation, and a small store, on which
    the routes can be run. *)

Module Sample.
Import Db.

(** A string made of decimal digits only, as a number. *)
Definition whole (s : string) : option N :=
  match Js.digits 10 s 0 0 with
  | (v, S _, EmptyString) => Some v
  | _ => None
  end.

(** Identifiers, dates and amounts are written as whole numbers, times as
    [HH:MM] or [HH:MM:SS]. *)
#[global] Instance conversions : Conversions := {|
  uuid_in := whole;
  date_in := λ s, Z.of_N <$> whole s;
  time_in := λ s, match whole <$> Js.split ":" s with
                  | [Some h; Some m] => Some (mkTime h m 0)
                  | [Some h; Some m; Some sec] => Some (mkTime h m sec)
                  | _ => None
                  end;
  numeric_in := λ s, Z.of_N <$> whole s;
  int4_in := λ s, Z.of_N <$> whole s;
  number_out := λ n, match n with
                     | Js.Fin q => Js.text_of_N (Z.to_N (Qnum q))
                     | _ => "NaN"
                     end
|}.

(** The characters of a string as numbers. *)
Fixpoint codes (s : string) : list N :=
  match s with
  | EmptyString => []
  | String c r => N_of_ascii c :: codes r
  end.

(** The byte-wise collation: [a] is at most [b] when [b] does not come
    strictly before [a] in the lexicographic order of the codes. *)
Definition byte_le : relation string := λ a b, ¬ lexico (codes b) (codes a).

#[global] Instance byte_le_dec : RelDecision byte_le.
Proof.
  intros a b. unfold byte_le.
  destruct (trichotomyT lexico (codes b) (codes a)) as [[H|H]|H].
  - right. tauto.
  - left. rewrite H. apply irreflexivity, _.
  - left. intros H'. by apply (irreflexivity lexico (codes a)); transitivity (codes b).
Defined.

#[global] Instance byte_le_total : Total byte_le.
Proof.
  intros a b. unfold byte_le.
  destruct (trichotomyT lexico (codes a) (codes b)) as [[H|H]|H].
  - left. intros H'. by apply (irreflexivity lexico (codes a)); transitivity (codes b).
  - left. rewrite H. apply irreflexivity, _.
  - right. intros H'. by apply (irreflexivity lexico (codes a)); transitivity (codes b).
Qed.

#[global] Instance byte_le_trans : Transitive byte_le.
Proof.
  intros a b c Hab Hbc Hca. unfold byte_le in *.
  destruct (trichotomyT lexico (codes b) (codes a)) as [[H|H]|H]; [done|..].
  - apply Hbc. by rewrite H.
  - apply Hbc. by transitivity (codes a).
Qed.

#[global] Instance collation : Collation := {| text_le := byte_le |}.

(** Two events, one position, three crew members (the third inactive), two
    pieces of equipment; no assignment yet. *)
Definition catalog : Store :=
  mkStore
    [mkEvent 1 "Gala" 100 (Some "North"%string); mkEvent 2 "Expo" 101 None]
    [mkPosition 1 "Rigger" (Some 1)]
    [mkCrewMember 1 "Ann" None (Some 2000) (Some true);
     mkCrewMember 2 "Bob" None None (Some true);
     mkCrewMember 3 "Cy" None (Some 1000) (Some false)]
    []
    [mkEquipment 1 "Lamp" None None (Some 500) (Some true);
     mkEquipment 2 "Truss" None None None (Some true)]
    [] [].

(** The catalog with Ann on the Gala at an override of 10.00 (her default
    is 20.00) and with both pieces of equipment on the Gala, one of each. *)
Definition booked : Store :=
  with_equipment_assignments
    (with_crew_assignments catalog
       [mkCrewAssignment 1 1 1 None None None (Some 1000) (Some pending) None (Some 9%N)])
    [mkEquipmentAssignment 1 1 1 (Some 1) None None (Some 9%N);
     mkEquipmentAssignment 2 1 2 (Some 1) (Some 250) None (Some 9%N)].

End Sample.

(** * Facts

    ** Numbers and their texts *)

Module JsFacts.
Import Js.

Lemma Fin_inj_iff (x y : Qc) : Fin x = Fin y ↔ x = y.
Proof. split; [by intros [= ->] | by intros ->]. Qed.

Lemma add_comm (a b : Number) : add a b = add b a.
Proof. destruct a, b; simpl; try reflexivity. f_equal; ring. Qed.

Lemma add_assoc (a b c : Number) : add a (add b c) = add (add a b) c.
Proof. destruct a, b, c; simpl; try reflexivity. f_equal; ring. Qed.

Lemma of_Z_0 : of_Z 0 = Fin 0%Qc.
Proof. unfold of_Z. f_equal. by apply Qc_is_canon. Qed.

Lemma add_0_l (a : Number) : add (of_Z 0) a = a.
Proof. rewrite of_Z_0. destruct a; simpl; try reflexivity. f_equal; ring. Qed.

Lemma add_0_r (a : Number) : add a (of_Z 0) = a.
Proof. by rewrite add_comm, add_0_l. Qed.

(** Digits *)
Definition is_digit (c : ascii) : Prop := is_Some (digit_of 10 c).

Definition starts_with_digit (s : string) : Prop :=
  match s with String c _ => is_digit c | EmptyString => False end.

Lemma digits_stop radix s acc len :
  match s with String c _ => digit_of radix c = None | EmptyString => True end →
  digits radix s acc len = (acc, len, s).
Proof. destruct s as [|c r]; simpl; [done|]. by intros ->. Qed.

Lemma append_cons (c : ascii) (r rest : string) :
  String c r +:+ rest = String c (r +:+ rest).
Proof. reflexivity. Qed.

Lemma append_nil (rest : string) : "" +:+ rest = rest.
Proof. reflexivity. Qed.

Lemma digits_step radix c r acc len d :
  digit_of radix c = Some d →
  digits radix (String c r) acc len = digits radix r (acc * radix + d)%N (S len).
Proof. simpl. by intros ->. Qed.

Lemma digits_uint_acc (d : Decimal.uint) (rest : string) (acc : positive) (len : nat) :
  digits 10 (NilEmpty.string_of_uint d +:+ rest) (Npos acc) len
  = digits 10 rest (Npos (Pos.of_uint_acc d acc)) (len + Decimal.nb_digits d)%nat.
Proof.
  revert acc len.
  induction d as [|d IH|d IH|d IH|d IH|d IH|d IH|d IH|d IH|d IH|d IH];
    intros acc len;
    cbn [NilEmpty.string_of_uint Decimal.nb_digits Pos.of_uint_acc];
    rewrite ?append_cons, ?append_nil;
    [by rewrite Nat.add_0_r|..];
    (erewrite digits_step by reflexivity);
    rewrite <- Nat.add_succ_comm, <- IH; f_equal.
  all: simpl (N_of_ascii _); lia.
Qed.

Lemma digits_uint (d : Decimal.uint) (rest : string) (len : nat) :
  digits 10 (NilEmpty.string_of_uint d +:+ rest) 0 len
  = digits 10 rest (N.of_uint d) (len + Decimal.nb_digits d)%nat.
Proof.
  revert len.
  induction d as [|d IH|d IH|d IH|d IH|d IH|d IH|d IH|d IH|d IH|d IH];
    intros len;
    cbn [NilEmpty.string_of_uint Decimal.nb_digits N.of_uint Pos.of_uint];
    rewrite ?append_cons, ?append_nil;
    [by rewrite Nat.add_0_r|..];
    (erewrite digits_step by reflexivity);
    rewrite <- Nat.add_succ_comm;
    [by rewrite <- IH|..];
    by rewrite <- digits_uint_acc.
Qed.

Lemma text_of_N_digits (n : N) :
  text_of_N n = NilEmpty.string_of_uint (N.to_uint n).
Proof.
  unfold text_of_N, NilZero.string_of_uint.
  destruct n as [|p]; simpl; [done|].
  pose proof (DecimalPos.Unsigned.to_uint_nonnil p).
  by destruct (Pos.to_uint p).
Qed.

Lemma digits_text_of_N (n : N) (rest : string) :
  ¬ starts_with_digit rest →
  digits 10 (text_of_N n +:+ rest) 0 0 = (n, Decimal.nb_digits (N.to_uint n), rest).
Proof.
  intros Hrest. rewrite text_of_N_digits.
  rewrite digits_uint, DecimalN.Unsigned.of_to. simpl.
  apply digits_stop. destruct rest as [|c r]; [done|].
  simpl in Hrest. unfold is_digit in Hrest.
  destruct (digit_of 10 c); [|done]. by destruct Hrest.
Qed.

Lemma nb_digits_pos (n : N) : (0 < Decimal.nb_digits (N.to_uint n))%nat.
Proof.
  destruct n as [|p]; simpl; [lia|].
  pose proof (DecimalPos.Unsigned.to_uint_nonnil p) as H.
  destruct (Pos.to_uint p); simpl; [done|lia..].
Qed.

Definition digit_chars : list ascii :=
  ["0"; "1"; "2"; "3"; "4"; "5"; "6"; "7"; "8"; "9"]%char.

Lemma is_digit_cases (c : ascii) : is_digit c → c ∈ digit_chars.
Proof.
  intros [d Hd].
  destruct c as [[] [] [] [] [] [] [] []]; vm_compute in Hd; try discriminate Hd;
    unfold digit_chars; rewrite !elem_of_cons; tauto.
Qed.

Ltac digit_cases H :=
  apply is_digit_cases in H; unfold digit_chars in H;
  repeat (apply elem_of_cons in H as [->|H]); [..|by apply elem_of_nil in H].

Lemma digit_head (s : string) :
  starts_with_digit s →
  skip_spaces s = s ∧ sign s = (false, s) ∧ String.prefix "Infinity" s = false.
Proof. destruct s as [|c r]; [done|]. simpl. intros H. digit_cases H; done. Qed.

Fixpoint all_digits (s : string) : Prop :=
  match s with
  | EmptyString => True
  | String c r => is_digit c ∧ all_digits r
  end.

Lemma all_digits_uint (d : Decimal.uint) : all_digits (NilEmpty.string_of_uint d).
Proof. induction d; simpl; (split; [by eexists|done]) || done. Qed.

Lemma all_digits_text (n : N) : all_digits (text_of_N n).
Proof. rewrite text_of_N_digits. apply all_digits_uint. Qed.

Lemma text_nonempty (n : N) : ∃ c r, text_of_N n = String c r.
Proof.
  rewrite text_of_N_digits. destruct n as [|p]; simpl; [by eexists _, _|].
  pose proof (DecimalPos.Unsigned.to_uint_nonnil p).
  destruct (Pos.to_uint p); simpl; try done; by eexists _, _.
Qed.

Lemma text_starts_with_digit (n : N) (rest : string) :
  starts_with_digit (text_of_N n +:+ rest).
Proof.
  destruct (text_nonempty n) as (c & r & E). pose proof (all_digits_text n) as H.
  rewrite E in *. rewrite append_cons. simpl in *. tauto.
Qed.

Lemma append_nil_r (s : string) : s +:+ "" = s.
Proof. induction s as [|c r IH]; [done|]. by rewrite append_cons, IH. Qed.

Lemma digits_text_of_N_len (n : N) (rest : string) (len : nat) :
  ¬ starts_with_digit rest →
  digits 10 (text_of_N n +:+ rest) 0 len
  = (n, (len + Decimal.nb_digits (N.to_uint n))%nat, rest).
Proof.
  intros Hrest. rewrite text_of_N_digits.
  rewrite digits_uint, DecimalN.Unsigned.of_to.
  apply digits_stop. destruct rest as [|c r]; [done|].
  simpl in Hrest. unfold is_digit in Hrest.
  destruct (digit_of 10 c); [|done]. by destruct Hrest.
Qed.

(** [pad2] of a number below one hundred is two digits. *)
Lemma digits_pad2 (n : N) (rest : string) :
  (n < 100)%N → ¬ starts_with_digit rest →
  digits 10 (Db.pad2 n +:+ rest) 0 0 = (n, 2%nat, rest).
Proof.
  intros Hn Hrest. unfold Db.pad2. destruct (N.ltb_spec n 10).
  - change ("0" +:+ text_of_N n) with (String "0" (text_of_N n)).
    rewrite append_cons. erewrite digits_step by reflexivity.
    change (0 * 10 + (N_of_ascii "0" - 48))%N with 0%N.
    rewrite digits_text_of_N_len by done. do 2 f_equal.
    assert (n ∈ [0;1;2;3;4;5;6;7;8;9]%N) as Hin.
    { apply list_elem_of_In. 
      replace n with (N.of_nat (N.to_nat n)) by lia.
      assert (N.to_nat n < 10)%nat as Hlt by lia.
      revert Hlt. generalize (N.to_nat n). intros m Hm.
      do 10 (destruct m as [|m]; [simpl; tauto|]). lia. }
    repeat (apply elem_of_cons in Hin as [->|Hin]); try reflexivity.
    by apply elem_of_nil in Hin.
  - rewrite digits_text_of_N_len by done. do 2 f_equal. simpl.
    assert (∃ k, (k < 90)%nat ∧ n = N.of_nat (10 + k)) as (k & Hk & ->).
    { exists (N.to_nat n - 10)%nat. lia. }
    do 90 (destruct k as [|k]; [reflexivity|]). lia.
Qed.


Lemma Qc_of_Z_nonzero (z : Z) : z ≠ 0 → Qc_of_Z z ≠ 0%Qc.
Proof. intros Hz E. rewrite <- Z2Qc_inj_0 in E. by apply Z2Qc_inj in E. Qed.

Lemma pow10_0 : pow10 0 = 1%Qc.
Proof. unfold pow10. simpl. apply Z2Qc_inj_1. Qed.

Lemma exponent_nil : exponent "" = (0, ""%string).
Proof. reflexivity. Qed.

(** A run of digits up to the end of the string is a decimal literal. *)
Lemma decimal_digits (s : string) (n : N) (len : nat) :
  digits 10 s 0 0 = (n, S len, ""%string) →
  decimal s = Some (Qc_of_Z (Z.of_N n), ""%string).
Proof.
  intros E. unfold decimal. rewrite E. simpl.
  rewrite pow10_0, Z2Qc_inj_0. repeat f_equal.
  change (Qc_of_Z (10 ^ Z.of_nat 0)) with (Qc_of_Z 1). rewrite Z2Qc_inj_1.
  field. by intros [=].
Qed.

Lemma decimal_whole_digits (s : string) (n : N) (len : nat) :
  starts_with_digit s →
  digits 10 s 0 0 = (n, S len, ""%string) →
  decimal_whole s = of_Z (Z.of_N n).
Proof.
  intros Hs E. unfold decimal_whole.
  destruct (digit_head s Hs) as (_ & -> & ->).
  by rewrite (decimal_digits _ _ _ E).
Qed.

Lemma to_number_all_digits (s : string) :
  all_digits s → to_number_str s = match s with EmptyString => of_Z 0 | _ => decimal_whole s end.
Proof.
  destruct s as [|c r]; [done|]. intros [Hc Hr].
  unfold to_number_str.
  destruct (digit_head (String c r)) as (-> & _); [done|].
  digit_cases Hc; try reflexivity.
  destruct r as [|c' r']; [reflexivity|].
  destruct Hr as [Hc' _]. digit_cases Hc'; reflexivity.
Qed.

Lemma to_number_text (n : N) : to_number_str (text_of_N n) = of_Z (Z.of_N n).
Proof.
  rewrite to_number_all_digits by apply all_digits_text.
  destruct (text_nonempty n) as (c & r & E). rewrite E, <- E.
  pose proof (nb_digits_pos n) as Hlen.
  destruct (Decimal.nb_digits (N.to_uint n)) as [|len] eqn:El; [lia|].
  apply (decimal_whole_digits _ _ len).
  - rewrite <- (append_nil_r (text_of_N n)). apply text_starts_with_digit.
  - rewrite <- (append_nil_r (text_of_N n)), digits_text_of_N_len by tauto.
    by rewrite El.
Qed.

Lemma to_number_pad2 (n : N) : to_number_str (Db.pad2 n) = of_Z (Z.of_N n).
Proof.
  unfold Db.pad2. destruct (n <? 10)%N; [|apply to_number_text].
  change ("0" +:+ text_of_N n) with (String "0" (text_of_N n)).
  rewrite to_number_all_digits.
  2:{ split; [by eexists|apply all_digits_text]. }
  pose proof (nb_digits_pos n) as Hlen.
  apply (decimal_whole_digits _ _ (Decimal.nb_digits (N.to_uint n))).
  - simpl. by eexists.
  - erewrite digits_step by reflexivity.
    change (0 * 10 + (N_of_ascii "0" - 48))%N with 0%N.
    rewrite <- (append_nil_r (text_of_N n)), digits_text_of_N_len by tauto.
    done.
Qed.


Lemma decimal_cents (i f : N) :
  (f < 100)%N →
  decimal (text_of_N i +:+ "." +:+ Db.pad2 f)
  = Some ((Qc_of_Z (Z.of_N i) + Qc_of_Z (Z.of_N f) / Qc_of_Z 100)%Qc, ""%string).
Proof.
  intros Hf. unfold decimal.
  change ("." +:+ Db.pad2 f) with (String "." (Db.pad2 f)).
  rewrite digits_text_of_N_len by (simpl; by intros [? [=]]).
  rewrite <- (append_nil_r (Db.pad2 f)), digits_pad2 by tauto.
  pose proof (nb_digits_pos i).
  destruct (0 + Decimal.nb_digits (N.to_uint i) + 2)%nat eqn:E; [lia|].
  rewrite exponent_nil, pow10_0. f_equal. f_equal.
  change (Qc_of_Z (10 ^ Z.of_nat 2)) with (Qc_of_Z 100). ring.
Qed.

Lemma parseFloat_numeric_out (c : Z) :
  parseFloat_str (Db.numeric_out c) = Fin (Db.amount c).
Proof.
  unfold Db.numeric_out, parseFloat_str, Db.amount.
  set (i := (Z.abs_N c / 100)%N). set (f := (Z.abs_N c mod 100)%N).
  assert (f < 100)%N as Hf by (apply N.mod_lt; lia).
  assert (Z.abs c = 100 * Z.of_N i + Z.of_N f) as Habs.
  { unfold i, f. rewrite <- (N2Z.inj_mul 100), <- N2Z.inj_add, <- N.div_mod by lia. lia. }
  assert (Qc_of_Z 100 ≠ 0%Qc) as H100 by (by apply Qc_of_Z_nonzero).
  destruct (Z.ltb_spec c 0) as [Hneg|Hpos].
  - change ("-" +:+ ?x) with (String "-" x).
    change (skip_spaces (String "-" ?x)) with (String "-" x).
    cbn [sign].
    destruct (digit_head (text_of_N i +:+ "." +:+ Db.pad2 f)) as (_ & _ & ->);
      [apply text_starts_with_digit|].
    rewrite decimal_cents by done. simpl. f_equal.
    replace c with (- (100 * Z.of_N i + Z.of_N f)) by lia.
    rewrite Z2Qc_inj_opp, Z2Qc_inj_add, Z2Qc_inj_mul. by field.
  - rewrite append_nil.
    destruct (digit_head (text_of_N i +:+ "." +:+ Db.pad2 f)) as (-> & -> & ->);
      [apply text_starts_with_digit|].
    rewrite decimal_cents by done. simpl. f_equal.
    replace c with (100 * Z.of_N i + Z.of_N f) by lia.
    rewrite Z2Qc_inj_add, Z2Qc_inj_mul. by field.
Qed.

(** [split] *)
Fixpoint free_of (sep : ascii) (s : string) : Prop :=
  match s with
  | EmptyString => True
  | String c r => c ≠ sep ∧ free_of sep r
  end.

Lemma split_free (sep : ascii) (s : string) : free_of sep s → split sep s = [s].
Proof.
  induction s as [|c r IH]; [done|]. intros [Hc Hr]. simpl.
  rewrite bool_decide_eq_false_2 by done. by rewrite IH.
Qed.

Lemma split_append (sep : ascii) (s1 s2 : string) :
  free_of sep s1 → split sep (s1 +:+ String sep s2) = s1 :: split sep s2.
Proof.
  induction s1 as [|c r IH]; intros H.
  - rewrite append_nil. simpl. by rewrite bool_decide_eq_true_2.
  - destruct H as [Hc Hr]. rewrite append_cons. simpl.
    rewrite bool_decide_eq_false_2 by done. by rewrite IH.
Qed.

Lemma all_digits_free (s : string) : all_digits s → free_of ":" s.
Proof.
  induction s as [|c r IH]; [done|]. intros [Hc Hr]. split; [|by apply IH].
  intros ->. by destruct Hc as [? [=]].
Qed.

Lemma all_digits_pad2 (n : N) : all_digits (Db.pad2 n).
Proof.
  unfold Db.pad2. destruct (n <? 10)%N; [|apply all_digits_text].
  split; [by eexists|apply all_digits_text].
Qed.

Lemma split_time_out (t : Db.Time) :
  split ":" (Db.time_out t)
  = [Db.pad2 (Db.hour t); Db.pad2 (Db.minute t); Db.pad2 (Db.second t)].
Proof.
  unfold Db.time_out.
  change (split ":" (Db.pad2 (Db.hour t)
            +:+ String ":" (Db.pad2 (Db.minute t) +:+ String ":" (Db.pad2 (Db.second t))))
          = [Db.pad2 (Db.hour t); Db.pad2 (Db.minute t); Db.pad2 (Db.second t)]).
  rewrite (split_append _ (Db.pad2 (Db.hour t))) by apply all_digits_free, all_digits_pad2.
  rewrite (split_append _ (Db.pad2 (Db.minute t))) by apply all_digits_free, all_digits_pad2.
  by rewrite split_free by apply all_digits_free, all_digits_pad2.
Qed.

Lemma time_out_nonempty (t : Db.Time) : Db.time_out t ≠ ""%string.
Proof.
  unfold Db.time_out, Db.pad2.
  destruct (text_nonempty (Db.hour t)) as (c & r & E).
  destruct (Db.hour t <? 10)%N; rewrite ?E; by rewrite append_cons.
Qed.

End JsFacts.


(** ** The cost helpers *)

Module CostFacts.
Import Db Reports JsFacts.

(** The hours of the specification: the clock reading [hour + minute/60] of
    the end time minus that of the call time, a day added when negative;
    eight hours when a time is absent. *)
Definition clock (t : Time) : Qc :=
  (Qc_of_Z (Z.of_N (hour t)) + Qc_of_Z (Z.of_N (minute t)) / Qc_of_Z 60)%Qc.

Definition spec_elapsed (call finish : Time) : Qc :=
  let d := (clock finish - clock call)%Qc in
  if bool_decide (d < Qc_of_Z 0)%Qc then (d + Qc_of_Z 24)%Qc else d.

Definition spec_hours (call_time end_time : option Time) : Qc :=
  match call_time, end_time with
  | Some call, Some finish => spec_elapsed call finish
  | _, _ => Qc_of_Z 8
  end.

(** The values a time takes in an assignment object: absent as [null],
    [undefined] or the empty string; present as [HH:MM], the form of the
    request, or as [HH:MM:SS], the form of the database. *)
Inductive time_value : option Time → Js.Value → Prop :=
| time_null : time_value None Js.Null
| time_undefined : time_value None Js.Undefined
| time_empty : time_value None (Js.Str "")
| time_short t :
    time_value (Some t) (Js.Str (pad2 (hour t) +:+ ":" +:+ pad2 (minute t)))
| time_full t : time_value (Some t) (Js.Str (time_out t)).

Ltac by_computation := apply (bool_decide_unpack _); vm_compute; exact I.

Lemma or_num_rate (rate h : Qc) :
  Js.mul (Js.or_num (Js.Fin rate) (Js.of_Z 0)) (Js.Fin h) = Js.Fin (rate * h).
Proof.
  unfold Js.or_num, Js.truthy_num. case_bool_decide as E; simpl; [|done].
  subst rate. unfold Js.of_Z. simpl. by rewrite Z2Qc_inj_0.
Qed.

Lemma div_60 (x : Z) :
  Js.div (Js.of_Z x) (Js.of_Z 60) = Js.Fin (Qc_of_Z x / Qc_of_Z 60).
Proof.
  unfold Js.div, Js.of_Z. rewrite decide_False; [done|]. by apply Qc_of_Z_nonzero.
Qed.

Lemma split_short (t : Time) :
  Js.split ":" (pad2 (hour t) +:+ ":" +:+ pad2 (minute t))
  = [pad2 (hour t); pad2 (minute t)].
Proof.
  change (Js.split ":" (pad2 (hour t) +:+ String ":" (pad2 (minute t)))
          = [pad2 (hour t); pad2 (minute t)]).
  rewrite (split_append _ (pad2 (hour t))) by apply all_digits_free, all_digits_pad2.
  by rewrite split_free by apply all_digits_free, all_digits_pad2.
Qed.

Lemma pad2_nonempty (n : N) (rest : string) : pad2 n +:+ rest ≠ ""%string.
Proof.
  unfold pad2. destruct (text_nonempty n) as (c & r & E).
  destruct (n <? 10)%N; rewrite ?E; by rewrite append_cons.
Qed.

(** What the helper extracts from a present time: a truthy string whose
    first two fields are the hour and the minute. *)
Lemma time_value_present (t : Time) (v : Js.Value) :
  time_value (Some t) v →
  ∃ s, v = Js.Str s ∧ Js.truthy v = true
       ∧ Js.at_index (Js.to_number_str <$> Js.split ":" s) 0 = Js.of_Z (Z.of_N (hour t))
       ∧ Js.at_index (Js.to_number_str <$> Js.split ":" s) 1
         = Js.of_Z (Z.of_N (minute t)).
Proof.
  inversion 1; subst; eexists; (split; [reflexivity|]); split.
  - simpl. rewrite bool_decide_eq_false_2; [done|]. apply pad2_nonempty.
  - rewrite split_short. cbn. by rewrite !to_number_pad2.
  - simpl. rewrite bool_decide_eq_false_2; [done|]. apply time_out_nonempty.
  - rewrite split_time_out. cbn. by rewrite !to_number_pad2.
Qed.

Lemma time_value_absent (v : Js.Value) : time_value None v → Js.truthy v = false.
Proof. by inversion 1. Qed.

Lemma crew_cost_hours (a : gmap string Js.Value) (rate : Qc)
    (call_time end_time : option Time) :
  Js.parseFloat (Js.get a "rate") = Js.Fin rate →
  time_value call_time (Js.get a "call_time") →
  time_value end_time (Js.get a "end_time") →
  calculateCrewCost a = Js.Return (Js.Fin (rate * spec_hours call_time end_time)).
Proof.
  intros Hrate Hcall Hend. unfold calculateCrewCost. rewrite Hrate.
  change (Js.of_Z 8) with (Js.Fin (Qc_of_Z 8)).
  destruct call_time as [call|]; [destruct end_time as [finish|]|].
  - destruct (time_value_present _ _ Hcall) as (s1 & -> & -> & -> & ->).
    destruct (time_value_present _ _ Hend) as (s2 & -> & -> & -> & ->).
    cbn [andb]. rewrite !div_60.
    cbn [Js.add Js.sub Js.neg Js.of_Z Js.ltb].
    unfold spec_hours, spec_elapsed, clock.
    change (?x + - ?y)%Qc with (x - y)%Qc.
    case_bool_decide; cbn [Js.add]; by rewrite or_num_rate.
  - rewrite (time_value_absent _ Hend), andb_false_r. by rewrite or_num_rate.
  - rewrite (time_value_absent _ Hcall). by rewrite or_num_rate.
Qed.

(** C3. For every crew assignment, [calculateCrewCost] returns the effective
    rate times the hours, where the hours are the end time's
    [hour + minute/60] minus the call time's when both are present, a day
    added when that is negative, and eight when a time is absent.  In
    particular a rate of 50 from 22:00 to 02:00 costs 200, and a rate of 50
    with no times costs 400. *)
Theorem crew_cost_formula :
  (∀ (a : gmap string Js.Value) (rate : Qc) (call_time end_time : option Time),
     Js.parseFloat (Js.get a "rate") = Js.Fin rate →
     time_value call_time (Js.get a "call_time") →
     time_value end_time (Js.get a "end_time") →
     calculateCrewCost a = Js.Return (Js.Fin (rate * spec_hours call_time end_time)))
  ∧ calculateCrewCost {[ "rate"%string := Js.Num (Js.of_Z 50);
                         "call_time"%string := Js.Str "22:00";
                         "end_time"%string := Js.Str "02:00" ]}
    = Js.Return (Js.of_Z 200)
  ∧ calculateCrewCost {[ "rate"%string := Js.Num (Js.of_Z 50);
                         "call_time"%string := Js.Null;
                         "end_time"%string := Js.Null ]}
    = Js.Return (Js.of_Z 400).
Proof.
  split; [exact crew_cost_hours|]. split.
  - rewrite (crew_cost_hours _ (Qc_of_Z 50) (Some (mkTime 22 0 0)) (Some (mkTime 2 0 0)));
      [by_computation|reflexivity|apply (time_short (mkTime 22 0 0))
      |apply (time_short (mkTime 2 0 0))].
  - rewrite (crew_cost_hours _ (Qc_of_Z 50) None None);
      [by_computation|reflexivity|apply time_null..].
Qed.

(** A row of the database with an override of 50.00, called at 22:00:00 and
    released at 02:00:00, costs four hours at that rate. *)
Lemma crew_cost_formula_witness :
  calculateCrewCost {[ "rate"%string := Js.Str (numeric_out 5000);
                       "call_time"%string := js_time (Some (mkTime 22 0 0));
                       "end_time"%string := js_time (Some (mkTime 2 0 0)) ]}
  = Js.Return (Js.Fin (amount 5000
                       * spec_hours (Some (mkTime 22 0 0)) (Some (mkTime 2 0 0)))).
Proof.
  apply (proj1 crew_cost_formula).
  - apply (parseFloat_numeric_out 5000).
  - apply (time_full (mkTime 22 0 0)).
  - apply (time_full (mkTime 2 0 0)).
Defined.

Lemma Qcabs_of_Z (z : Z) : Js.Qcabs (Qc_of_Z z) = Qc_of_Z (Z.abs z).
Proof.
  unfold Js.Qcabs. rewrite <- Z2Qc_inj_0. case_bool_decide as E.
  - apply (proj2 (Z2Qc_inj_lt _ _)) in E. rewrite <- Z2Qc_inj_opp. f_equal. lia.
  - f_equal. rewrite <- Z2Qc_inj_lt in E. lia.
Qed.

(** [parseInt] of an integer that prints in positional notation is that
    integer. *)
Lemma parseInt_integer (z : Z) :
  z ≠ 0 → Z.abs z < 10 ^ 21 → Js.parseInt_num (Js.of_Z z) = Js.of_Z z.
Proof.
  intros Hz Hbound. unfold Js.parseInt_num, Js.of_Z.
  rewrite bool_decide_eq_false_2 by (by apply Qc_of_Z_nonzero).
  rewrite Qcabs_of_Z.
  rewrite bool_decide_eq_true_2, bool_decide_eq_true_2.
  - simpl. by rewrite Z.quot_1_r.
  - change (Js.pow10 21) with (Qc_of_Z (10 ^ 21)). by apply (proj1 (Z2Qc_inj_lt _ _)).
  - transitivity (Qc_of_Z 1).
    + by_computation.
    + apply (proj1 (Z2Qc_inj_le _ _)). lia.
Qed.

Lemma or_num_quantity (q : Qc) :
  q ≠ 0%Qc → Js.or_num (Js.Fin q) (Js.of_Z 1) = Js.Fin q.
Proof. intros Hq. unfold Js.or_num. simpl. by rewrite bool_decide_eq_false_2. Qed.

Lemma equipment_cost_product (a : gmap string Js.Value) (rate : Qc) (z : Z) :
  Js.parseFloat (Js.get a "rate") = Js.Fin rate →
  Js.get a "quantity" = Js.Num (Js.of_Z z) →
  z ≠ 0 → Z.abs z < 10 ^ 21 →
  calculateEquipmentCost a = Js.Fin (rate * Qc_of_Z z).
Proof.
  intros Hrate Hq Hz Hbound. unfold calculateEquipmentCost.
  rewrite Hrate, Hq. cbn [Js.parseInt]. rewrite parseInt_integer by done.
  unfold Js.of_Z at 2. rewrite or_num_quantity by (by apply Qc_of_Z_nonzero).
  apply or_num_rate.
Qed.

Lemma equipment_cost_default_quantity (a : gmap string Js.Value) (rate : Qc) :
  Js.parseFloat (Js.get a "rate") = Js.Fin rate →
  Js.parseInt (Js.get a "quantity") = Js.NaN →
  calculateEquipmentCost a = Js.Fin rate.
Proof.
  intros Hrate Hq. unfold calculateEquipmentCost. rewrite Hrate, Hq.
  change (Js.or_num Js.NaN (Js.of_Z 1)) with (Js.Fin (Qc_of_Z 1)).
  rewrite or_num_rate, Z2Qc_inj_1. f_equal. ring.
Qed.

Lemma equipment_cost_default_rate (a : gmap string Js.Value) (q : Qc) :
  Js.parseFloat (Js.get a "rate") = Js.NaN →
  Js.or_num (Js.parseInt (Js.get a "quantity")) (Js.of_Z 1) = Js.Fin q →
  calculateEquipmentCost a = Js.of_Z 0.
Proof.
  intros Hrate Hq. unfold calculateEquipmentCost. rewrite Hrate, Hq.
  change (Js.or_num Js.NaN (Js.of_Z 0)) with (Js.Fin (Qc_of_Z 0)).
  cbn [Js.mul]. unfold Js.of_Z. f_equal. rewrite Z2Qc_inj_0. ring.
Qed.

(** C6. For every equipment assignment, [calculateEquipmentCost] returns the
    effective rate times the quantity; a quantity that is missing or not
    numeric counts as one, a rate that is missing or not numeric as zero.
    The helper is a function into numbers: unlike [calculateCrewCost] it has
    no way to end in an exception.  In particular a rate of 25 costs 75 for a
    quantity of 3 and 25 for a quantity of [null]. *)
Theorem equipment_cost_formula :
  (∀ (a : gmap string Js.Value) (rate : Qc) (z : Z),
     Js.parseFloat (Js.get a "rate") = Js.Fin rate →
     Js.get a "quantity" = Js.Num (Js.of_Z z) →
     z ≠ 0 → Z.abs z < 10 ^ 21 →
     calculateEquipmentCost a = Js.Fin (rate * Qc_of_Z z))
  ∧ (∀ (a : gmap string Js.Value) (rate : Qc),
       Js.parseFloat (Js.get a "rate") = Js.Fin rate →
       Js.parseInt (Js.get a "quantity") = Js.NaN →
       calculateEquipmentCost a = Js.Fin rate)
  ∧ (∀ (a : gmap string Js.Value) (q : Qc),
       Js.parseFloat (Js.get a "rate") = Js.NaN →
       Js.or_num (Js.parseInt (Js.get a "quantity")) (Js.of_Z 1) = Js.Fin q →
       calculateEquipmentCost a = Js.of_Z 0)
  ∧ (∀ v, v ∈ [Js.Undefined; Js.Null; Js.Str ""; Js.Str "n/a"; Js.Num Js.NaN] →
          Js.parseFloat v = Js.NaN ∧ Js.parseInt v = Js.NaN)
  ∧ calculateEquipmentCost {[ "rate"%string := Js.Num (Js.of_Z 25);
                              "quantity"%string := Js.Num (Js.of_Z 3) ]}
    = Js.of_Z 75
  ∧ calculateEquipmentCost {[ "rate"%string := Js.Num (Js.of_Z 25);
                              "quantity"%string := Js.Null ]}
    = Js.of_Z 25.
Proof.
  split; [exact equipment_cost_product|].
  split; [exact equipment_cost_default_quantity|].
  split; [exact equipment_cost_default_rate|].
  split; [|split].
  - intros v Hv. repeat (apply elem_of_cons in Hv as [->|Hv]); try done.
    by apply elem_of_nil in Hv.
  - rewrite (equipment_cost_product _ (Qc_of_Z 25) 3); [|done|done|lia|by vm_compute].
    by rewrite <- Z2Qc_inj_mul.
  - by rewrite (equipment_cost_default_quantity _ (Qc_of_Z 25)).
Qed.

(** A row of the database at 25.00 a day, three of them. *)
Lemma equipment_cost_formula_witness :
  calculateEquipmentCost {[ "rate"%string := Js.Str (numeric_out 2500);
                            "quantity"%string := js_integer (Some 3) ]}
  = Js.Fin (amount 2500 * Qc_of_Z 3).
Proof.
  apply (proj1 equipment_cost_formula).
  - apply (parseFloat_numeric_out 2500).
  - reflexivity.
  - discriminate.
  - reflexivity.
Defined.

(** [calculateCrewCost] does end in an exception on a call time that is
    truthy and not a string. *)
Lemma crew_cost_can_throw :
  calculateCrewCost {[ "rate"%string := Js.Num (Js.of_Z 50);
                       "call_time"%string := Js.Num (Js.of_Z 22);
                       "end_time"%string := Js.Str "02:00" ]}
  = Js.Throw "assignment.call_time.split is not a function".
Proof. reflexivity. Qed.

End CostFacts.

(** ** The cost report *)

Module ReportFacts.
Import Db Reports JsFacts CostFacts.

(** The sum of a list of numbers. *)
Definition sum_numbers (l : list Js.Number) : Js.Number :=
  foldr Js.add (Js.of_Z 0) l.

(** One component of the totals, summed over the buckets. *)
Definition bucket_sum (component : Totals → Js.Number) (o : list (string * Bucket))
  : Js.Number :=
  sum_numbers ((λ kb, component (b_totals kb.2)) <$> o).

(** The grand total agrees with the buckets, component by component. *)
Definition consistent (state : list (string * Bucket) * Totals) : Prop :=
  t_crew state.2 = bucket_sum t_crew state.1
  ∧ t_equipment state.2 = bucket_sum t_equipment state.1
  ∧ t_total state.2 = bucket_sum t_total state.1.

Section Sums.
Context (component : Totals → Js.Number).

Lemma bucket_sum_snoc (o : list (string * Bucket)) (k : string) (b : Bucket) :
  bucket_sum component (o ++ [(k, b)])
  = Js.add (bucket_sum component o) (component (b_totals b)).
Proof.
  unfold bucket_sum, sum_numbers.
  induction o as [|[k' b'] o IH]; cbn [app fmap list_fmap foldr snd].
  - by rewrite add_0_l, add_0_r.
  - by rewrite IH, add_assoc.
Qed.

Lemma bucket_sum_alter (f : Bucket → Bucket) (k : string) (δ : Js.Number)
    (o : list (string * Bucket)) :
  (∀ b, component (b_totals (f b)) = Js.add (component (b_totals b)) δ) →
  is_Some (Js.obj_get o k) →
  bucket_sum component (Js.obj_alter f k o) = Js.add (bucket_sum component o) δ.
Proof.
  intros Hf. unfold bucket_sum, sum_numbers.
  induction o as [|[k' b'] o IH]; cbn [Js.obj_get Js.obj_alter]; intros Hk.
  - by destruct Hk.
  - destruct (decide (k' = k)); cbn [fmap list_fmap foldr snd].
    + rewrite Hf. by rewrite <- !add_assoc, (add_comm δ).
    + by rewrite IH, add_assoc.
Qed.

End Sums.

(** The bucket [byCostCenter[cc]] the loop body reaches after its [if]. *)
Definition ensure_bucket (o : list (string * Bucket)) (cc : string)
  : list (string * Bucket) :=
  if bool_decide (is_Some (Js.obj_get o cc)) || bool_decide (cc ∈ inherited_properties)
  then o
  else o ++ [(cc, mkBucket [] (mkTotals (Js.of_Z 0) (Js.of_Z 0) (Js.of_Z 0)))].

Lemma bucket_sum_ensure (p : Totals → Js.Number) o cc :
  p (mkTotals (Js.of_Z 0) (Js.of_Z 0) (Js.of_Z 0)) = Js.of_Z 0 →
  bucket_sum p (ensure_bucket o cc) = bucket_sum p o.
Proof.
  intros Hp. unfold ensure_bucket. destruct (_ || _); [done|].
  rewrite bucket_sum_snoc. cbn [b_totals]. by rewrite Hp, add_0_r.
Qed.

Lemma cost_step_consistent state event state' :
  consistent state → cost_step state event = Js.Return state' → consistent state'.
Proof.
  destruct state as [o g]. unfold cost_step.
  fold (ensure_bucket o (match e_cost_center (cr_event event) with
                         | Some c => if bool_decide (c = ""%string)
                                     then "Unassigned"%string else c
                         | None => "Unassigned"%string
                         end)).
  generalize (match e_cost_center (cr_event event) with
              | Some c => if bool_decide (c = ""%string) then "Unassigned"%string else c
              | None => "Unassigned"%string
              end).
  intros cc.
  generalize (Js.or_num (Js.parseFloat (Js.Str (cr_crew_cost event))) (Js.of_Z 0)).
  generalize (Js.or_num (Js.parseFloat (Js.Str (cr_equipment_cost event))) (Js.of_Z 0)).
  intros equipmentCost crewCost (Hc & He & Ht) Hstep.
  destruct (Js.obj_get (ensure_bucket o cc) cc) as [b|] eqn:Hget; [|done].
  injection Hstep as <-. simpl in Hc, He, Ht.
  repeat split; cbn [fst snd add_totals t_crew t_equipment t_total].
  - rewrite (bucket_sum_alter t_crew _ _ crewCost) by (by rewrite ?Hget).
    by rewrite bucket_sum_ensure, Hc.
  - rewrite (bucket_sum_alter t_equipment _ _ equipmentCost) by (by rewrite ?Hget).
    by rewrite bucket_sum_ensure, He.
  - rewrite (bucket_sum_alter t_total _ _ (Js.add crewCost equipmentCost))
      by (by rewrite ?Hget).
    by rewrite bucket_sum_ensure, Ht.
Qed.

Lemma cost_loop_consistent rows : ∀ state state',
  consistent state → cost_loop state rows = Js.Return state' → consistent state'.
Proof.
  induction rows as [|event rows IH]; simpl; intros state state' Hs Hloop.
  - by injection Hloop as <-.
  - destruct (cost_step state event) as [state1|] eqn:Hstep; [|done].
    eapply IH; [|done]. by eapply cost_step_consistent.
Qed.

Lemma consistent_start :
  consistent ([], mkTotals (Js.of_Z 0) (Js.of_Z 0) (Js.of_Z 0)).
Proof. by repeat split. Qed.

Section WithConversions.
Context `{!Conversions}.


End WithConversions.
(** ** The effective rate *)

(** The rate of the specification: the override when present, else the
    default of the resource, else zero. *)
Definition effective_rate (override default : option Cents) : Cents :=
  match override with
  | Some r => r
  | None => match default with Some d => d | None => 0 end
  end.

(** The quantity of the specification: one when absent. *)
Definition spec_quantity (q : option Z) : Z := default 1 q.

(** What the assignment routes store as a quantity: a 32-bit integer other
    than zero (they insert [quantity || 1] and validate updates with
    [isInt({ min: 1 })]), or nothing. *)
Definition stored_quantity (q : option Z) : Prop :=
  match q with
  | Some z => z ≠ 0 ∧ Z.abs z < 2 ^ 31
  | None => True
  end.

Lemma parseFloat_rate_text (override default : option Cents) :
  Js.parseFloat (Js.Str (rate_text override default))
  = Js.Fin (amount (effective_rate override default)).
Proof.
  unfold rate_text, effective_rate, coalesce. cbn [Js.parseFloat].
  destruct override as [r|]; [apply parseFloat_numeric_out|].
  destruct default as [d|]; [apply parseFloat_numeric_out|].
  by_computation.
Qed.

Lemma amount_0 : amount 0 = Qc_of_Z 0.
Proof. unfold amount. rewrite Z2Qc_inj_0. field. by apply Qc_of_Z_nonzero. Qed.

(** The rate the event page computes with, from a [rate] column that may be
    null. *)
Lemma page_rate (override default : option Cents) :
  Js.or_num (Js.parseFloat (js_numeric (coalesce override default))) (Js.of_Z 0)
  = Js.Fin (amount (effective_rate override default)).
Proof.
  assert (∀ c, Js.or_num (Js.Fin (amount c)) (Js.of_Z 0) = Js.Fin (amount c)) as H.
  { intros c. unfold Js.or_num, Js.truthy_num. case_bool_decide as E; [|done].
    simpl. unfold Js.of_Z. f_equal. by rewrite E, Z2Qc_inj_0. }
  unfold effective_rate, coalesce, js_numeric.
  destruct override as [r|]; cbn [Js.parseFloat];
    [by rewrite parseFloat_numeric_out|].
  destruct default as [d|]; cbn [Js.parseFloat];
    [by rewrite parseFloat_numeric_out|].
  unfold Js.or_num. simpl. unfold Js.of_Z. by rewrite amount_0.
Qed.

Lemma elem_of_merge_sort {A} (R : relation A) `{!RelDecision R} (x : A) (l : list A) :
  x ∈ merge_sort R l ↔ x ∈ l.
Proof. by rewrite merge_sort_Permutation. Qed.

Lemma elem_of_left_join {B R} (matching : list B) (k : option B → list R) (x : R) :
  x ∈ left_join matching k ↔
  (matching = [] ∧ x ∈ k None) ∨ (∃ b, b ∈ matching ∧ x ∈ k (Some b)).
Proof.
  unfold left_join. destruct matching as [|b0 rest].
  - split; [by left|]. intros [[_ H]|(b & Hb & _)]; [done|]. by apply elem_of_nil in Hb.
  - rewrite list_elem_of_bind. split.
    + intros (b & Hx & Hb). right. by exists b.
    + intros [[[=] _]|(b & Hb & Hx)]. by exists b.
Qed.

Lemma time_value_js_time (t : option Time) : time_value t (js_time t).
Proof. destruct t; constructor. Qed.

(** The cost the reports attach to a crew row: the effective rate of the
    assignment and of its crew member, times the hours. *)
Definition crew_row_costed (s : Store) (row : CrewCostRow) (c : Js.Number) : Prop :=
  ∃ cm, cm ∈ crew_members s
        ∧ cm_id cm = ca_crew_member_id (ccr_assignment row)
        ∧ ccr_assignment row ∈ crew_assignments s
        ∧ c = Js.Fin (amount (effective_rate (ca_rate_override (ccr_assignment row))
                                             (cm_hourly_rate cm))
                      * spec_hours (ca_call_time (ccr_assignment row))
                                   (ca_end_time (ccr_assignment row))).

(** The cost the reports attach to an equipment row: the effective rate of
    the assignment and of its equipment, times the quantity. *)
Definition equipment_row_costed (s : Store) (row : EquipmentCostRow) (c : Js.Number)
  : Prop :=
  ∃ eq, eq ∈ equipment s
        ∧ eq_id eq = ea_equipment_id (ecr_assignment row)
        ∧ ecr_assignment row ∈ equipment_assignments s
        ∧ (stored_quantity (ea_quantity (ecr_assignment row)) →
           c = Js.Fin (amount (effective_rate (ea_rate_override (ecr_assignment row))
                                              (eq_daily_rate eq))
                       * Qc_of_Z (spec_quantity (ea_quantity (ecr_assignment row))))).

Section Rates.
Context `{!Conversions, !Collation}.

Lemma select_crew_costs_cost s event row :
  row ∈ select_crew_costs s event →
  ∃ c, calculateCrewCost (crew_object row) = Js.Return c ∧ crew_row_costed s row c.
Proof.
  unfold select_crew_costs. rewrite elem_of_merge_sort, list_elem_of_bind.
  intros (ca & Hrow & Hca). apply list_elem_of_bind in Hrow as (cm & Hrow & Hcm).
  apply list_elem_of_filter in Hcm as [Hid Hcm].
  assert (ccr_assignment row = ca
          ∧ ccr_rate row = rate_text (ca_rate_override ca) (cm_hourly_rate cm))
    as [Ea Er].
  { apply elem_of_left_join in Hrow as [[_ Hrow]|(p & _ & Hrow)];
      destruct (decide _); try (by apply elem_of_nil in Hrow);
      by apply list_elem_of_singleton in Hrow as ->. }
  eexists. split.
  - apply crew_cost_hours.
    + change (Js.get (crew_object row) "rate") with (Js.Str (ccr_rate row)).
      rewrite Er. apply parseFloat_rate_text.
    + apply time_value_js_time.
    + apply time_value_js_time.
  - exists cm. by rewrite Ea.
Qed.

Lemma select_equipment_costs_cost s event row :
  row ∈ select_equipment_costs s event →
  equipment_row_costed s row (calculateEquipmentCost (equipment_object row)).
Proof.
  unfold select_equipment_costs. rewrite elem_of_merge_sort, list_elem_of_bind.
  intros (ea & Hrow & Hea). apply list_elem_of_bind in Hrow as (eq & Hrow & Heq).
  apply list_elem_of_filter in Heq as [Hid Heq].
  assert (ecr_assignment row = ea
          ∧ ecr_rate row = rate_text (ea_rate_override ea) (eq_daily_rate eq))
    as [Ea Er].
  { apply elem_of_left_join in Hrow as [[_ Hrow]|(p & _ & Hrow)];
      destruct (decide _); try (by apply elem_of_nil in Hrow);
      by apply list_elem_of_singleton in Hrow as ->. }
  exists eq. rewrite Ea. do 3 (split; [done|]). intros Hq.
  assert (Js.parseFloat (Js.get (equipment_object row) "rate")
          = Js.Fin (amount (effective_rate (ea_rate_override ea) (eq_daily_rate eq))))
    as Hrate.
  { change (Js.get (equipment_object row) "rate") with (Js.Str (ecr_rate row)).
    rewrite Er. apply parseFloat_rate_text. }
  assert (Js.get (equipment_object row) "quantity" = js_integer (ea_quantity ea))
    as Hquantity by (by rewrite <- Ea).
  destruct (ea_quantity ea) as [z|] eqn:Ez; simpl in Hq.
  - apply equipment_cost_product; [done|done|tauto|].
    destruct Hq as [_ Hq]. etransitivity; [exact Hq|]. by vm_compute.
  - rewrite (equipment_cost_default_quantity _ _ Hrate).
    + simpl. rewrite Z2Qc_inj_1. f_equal. ring.
    + by rewrite Hquantity.
Qed.

Lemma crew_costs_costed s rows :
  (∀ row, row ∈ rows →
          ∃ c, calculateCrewCost (crew_object row) = Js.Return c ∧ crew_row_costed s row c) →
  ∃ l, crew_costs rows = Js.Return l
       ∧ item <$> l = rows
       ∧ Forall (λ c, crew_row_costed s (item c) (cost c)) l.
Proof.
  induction rows as [|row rows IH]; intros Hrows; simpl.
  - by exists [].
  - destruct (Hrows row) as (c & -> & Hc); [by left|].
    destruct IH as (l & -> & Hl & Hall); [intros r Hr; apply Hrows; by right|].
    exists (mkCosted row c :: l). split; [done|]. split.
    + by rewrite fmap_cons, Hl.
    + by constructor.
Qed.

Lemma equipment_costs_costed s event :
  Forall (λ c, equipment_row_costed s (item c) (cost c))
         (equipment_costs (select_equipment_costs s event)).
Proof.
  unfold equipment_costs. apply Forall_fmap, Forall_forall. intros row Hrow.
  by apply (select_equipment_costs_cost _ event).
Qed.

Lemma eventReport_costed s id status report :
  eventReport s id = Send status report →
  Forall (λ c, crew_row_costed s (item c) (cost c)) (er_crewAssignments report)
  ∧ Forall (λ c, equipment_row_costed s (item c) (cost c))
           (er_equipmentAssignments report).
Proof.
  unfold eventReport. destruct (bind_uuid id) as [error|key]; [by destruct error|].
  destruct (filter _ (events s)) as [|event others]; [done|].
  destruct (crew_costs_costed s (select_crew_costs s key)) as (costed & -> & _ & Hl);
    [apply select_crew_costs_cost|].
  intros [= _ <-]. split; [done|]. apply equipment_costs_costed.
Qed.

Lemma pdfEventCosts_costed s id status crewRows crewTotal equipmentRows equipmentTotal :
  pdfEventCosts s id = Send status (crewRows, crewTotal, equipmentRows, equipmentTotal) →
  Forall (λ c, crew_row_costed s (item c) (cost c)) crewRows
  ∧ Forall (λ c, equipment_row_costed s (item c) (cost c)) equipmentRows.
Proof.
  unfold pdfEventCosts. destruct (bind_uuid id) as [error|key]; [by destruct error|].
  destruct (filter _ (events s)) as [|event others]; [done|].
  destruct (crew_costs_costed s (select_crew_costs s key)) as (costed & -> & _ & Hl);
    [apply select_crew_costs_cost|].
  intros [= _ <- _ <- _]. split; [done|]. apply equipment_costs_costed.
Qed.

Lemma page_crew_rate s event row :
  row ∈ EventDetail.crew_rows s event →
  ∃ ca cm, ca ∈ crew_assignments s ∧ cm ∈ crew_members s
           ∧ ca_crew_member_id ca = cm_id cm
           ∧ Js.or_num (Js.parseFloat (Js.get row "rate")) (Js.of_Z 0)
             = Js.Fin (amount (effective_rate (ca_rate_override ca) (cm_hourly_rate cm))).
Proof.
  unfold EventDetail.crew_rows. rewrite list_elem_of_bind.
  intros (ca & Hrow & Hca). apply list_elem_of_bind in Hrow as (cm & Hrow & Hcm).
  apply list_elem_of_filter in Hcm as [Hid Hcm].
  destruct (decide _); [|by apply elem_of_nil in Hrow].
  apply list_elem_of_singleton in Hrow as ->.
  exists ca, cm. do 3 (split; [done|]). apply page_rate.
Qed.

Lemma page_equipment_rate s event row :
  row ∈ EventDetail.equipment_rows s event →
  ∃ ea eq, ea ∈ equipment_assignments s ∧ eq ∈ equipment s
           ∧ ea_equipment_id ea = eq_id eq
           ∧ Js.or_num (Js.parseFloat (Js.get row "rate")) (Js.of_Z 0)
             = Js.Fin (amount (effective_rate (ea_rate_override ea) (eq_daily_rate eq))).
Proof.
  unfold EventDetail.equipment_rows. rewrite list_elem_of_bind.
  intros (ea & Hrow & Hea). apply list_elem_of_bind in Hrow as (eq & Hrow & Heq).
  apply list_elem_of_filter in Heq as [Hid Heq].
  destruct (decide _); [|by apply elem_of_nil in Hrow].
  apply list_elem_of_singleton in Hrow as ->.
  exists ea, eq. do 3 (split; [done|]). apply page_rate.
Qed.


End Rates.

(** *** The reports of the sample store *)

(** The crew subtotal of the specification for an event: the sum over its
    crew assignments of the effective rate times eight. *)
Definition spec_crew_subtotal (s : Store) (e : Event) : Cents :=
  foldr Z.add 0
    (ca ← filter (λ ca, ca_event_id ca = e_id e) (crew_assignments s);
     cm ← filter (λ cm, cm_id cm = ca_crew_member_id ca) (crew_members s);
     [effective_rate (ca_rate_override ca) (cm_hourly_rate cm) * 8]).

(** The equipment subtotal of the specification for an event: the sum over
    its equipment assignments of the effective rate times the quantity. *)
Definition spec_equipment_subtotal (s : Store) (e : Event) : Cents :=
  foldr Z.add 0
    (ea ← filter (λ ea, ea_event_id ea = e_id e) (equipment_assignments s);
     eq ← filter (λ eq, eq_id eq = ea_equipment_id ea) (equipment s);
     [effective_rate (ea_rate_override ea) (eq_daily_rate eq)
      * spec_quantity (ea_quantity ea)]).

Definition no_report : CostReport :=
  mkCostReport [] (mkTotals (Js.of_Z 0) (Js.of_Z 0) (Js.of_Z 0)) 0.

(** What [GET /costs] answers on the sample store, without parameters. *)
Definition booked_cost_report : CostReport :=
  match costReport Sample.booked Js.Undefined Js.Undefined Js.Undefined with
  | Send _ report => report
  | Fail _ _ => no_report
  end.

(** What [GET /event/1] answers on the sample store. *)
Definition booked_event_report : EventReport :=
  match eventReport Sample.booked "1" with
  | Send _ report => report
  | Fail _ _ =>
      mkEventReport (mkEvent 0 "" 0 None) [] []
                    (mkTotals (Js.of_Z 0) (Js.of_Z 0) (Js.of_Z 0))
  end.

Lemma booked_cost_report_sent :
  costReport Sample.booked Js.Undefined Js.Undefined Js.Undefined
  = Send 200 booked_cost_report.
Proof. vm_compute. reflexivity. Qed.

(** C4, evaluated.  The Gala of the sample store has one crew assignment, at
    an effective rate of 10.00, and two equipment assignments.  The four
    joins give the event two rows, one per equipment assignment, each
    carrying the crew assignment: the report states a crew cost of 160 where
    the sum over the crew assignments of rate times eight is 80.  The
    equipment cost, 7.50, is the sum over the equipment assignments, the
    event having a single crew assignment. *)
Theorem cost_report_fan_out :
  costReport Sample.booked Js.Undefined Js.Undefined Js.Undefined
  = Send 200 booked_cost_report
  ∧ ((λ b, (λ e, (e_name (ce_event e), ce_crew_cost e, ce_equipment_cost e))
           <$> b_events b)
     <$> Js.obj_get (byCostCenter booked_cost_report) "North"%string)
    = Some [("Gala"%string, Js.of_Z 160, Js.Fin (amount 750))]
  ∧ (spec_crew_subtotal Sample.booked <$> head (events Sample.booked)) = Some 8000
  ∧ (spec_equipment_subtotal Sample.booked <$> head (events Sample.booked)) = Some 750
  ∧ Js.Fin (amount 8000) = Js.of_Z 80.
Proof.
  split; [exact booked_cost_report_sent|].
  split; [by_computation|]. split; [reflexivity|]. split; [reflexivity|].
  by_computation.
Qed.



End ReportFacts.

(** ** Assignments *)

Module AssignmentFacts.
Import Db Assignments.

(** Two stores with the same catalog: everything but the crew assignments
    is the same. *)
Definition same_catalog (s s' : Store) : Prop :=
  events s' = events s ∧ positions s' = positions s
  ∧ crew_members s' = crew_members s
  ∧ equipment_categories s' = equipment_categories s
  ∧ equipment s' = equipment s
  ∧ equipment_assignments s' = equipment_assignments s.

(** The pairs of the crew assignments and of the equipment assignments. *)
Definition crew_pair (ca : CrewAssignment) : Uuid * Uuid :=
  (ca_event_id ca, ca_crew_member_id ca).

Definition equipment_pair (ea : EquipmentAssignment) : Uuid * Uuid :=
  (ea_event_id ea, ea_equipment_id ea).

(** At most one assignment per (event, crew member) pair and per (event,
    equipment) pair. *)
Definition unique_pairs (s : Store) : Prop :=
  NoDup (crew_pair <$> crew_assignments s)
  ∧ NoDup (equipment_pair <$> equipment_assignments s).

Lemma same_catalog_refl s : same_catalog s s.
Proof. by repeat split. Qed.

Lemma same_catalog_with s s' l :
  same_catalog s s' → same_catalog s (with_crew_assignments s' l).
Proof. intros (?&?&?&?&?&?). by repeat split. Qed.

Lemma crew_pair_taken_spec s event crew :
  crew_pair_taken s event crew = true ↔ (event, crew) ∈ crew_pair <$> crew_assignments s.
Proof.
  unfold crew_pair_taken. rewrite bool_decide_eq_true, Exists_exists, list_elem_of_fmap.
  split.
  - intros (ca & Hca & <- & <-). by exists ca.
  - intros (ca & [= -> ->] & Hca). by exists ca.
Qed.

Lemma crew_pair_not_taken_spec s event crew :
  crew_pair_taken s event crew = false ↔ (event, crew) ∉ crew_pair <$> crew_assignments s.
Proof. rewrite <- crew_pair_taken_spec. by destruct (crew_pair_taken s event crew). Qed.

Lemma crew_foreign_keys_catalog s s' r r' :
  same_catalog s s' →
  ca_event_id r = ca_event_id r' → ca_crew_member_id r = ca_crew_member_id r' →
  ca_position_id r = ca_position_id r' →
  crew_foreign_keys s' r' = crew_foreign_keys s r.
Proof.
  intros (He & Hp & Hc & _) E1 E2 E3. unfold crew_foreign_keys.
  by rewrite He, Hp, Hc, E1, E2, E3.
Qed.

Section Bulk.
Context `{!Conversions}.
Context (s : Store) (user : Uuid) (body : BulkBody).

(** What the loop does with one identifier, judged on the store the request
    found: the entry it adds to the error list, if any. *)
Definition verdict (id : Js.Value) : option (Js.Value * string) :=
  match bulk_insert s user body id with
  | inl error => Some (id, message error)
  | inr _ => None
  end.

(** The identifiers whose statement does not raise. *)
Definition passes (id : Js.Value) : Prop := verdict id = None.

#[local] Instance passes_dec id : Decision (passes id).
Proof. unfold passes. apply _. Defined.

(** A row the loop has added. *)
Definition added_row (ids : list Js.Value) (ca : CrewAssignment) : Prop :=
  ca_event_id ca = bb_event_id body
  ∧ ca_position_id ca = bb_position_id body
  ∧ crew_foreign_keys s ca = None
  ∧ crew_pair_taken s (ca_event_id ca) (ca_crew_member_id ca) = false
  ∧ ∃ id, id ∈ ids ∧ bind "uuid" uuid_in id = inr (Some (ca_crew_member_id ca)).

Definition bulk_invariant (ids : list Js.Value) (state : Store * BulkResults) : Prop :=
  same_catalog s state.1
  ∧ (∃ added, crew_assignments state.1 = crew_assignments s ++ added
              ∧ Forall (added_row ids) added
              ∧ NoDup (crew_pair <$> added))
  ∧ errors state.2 = omap verdict ids
  ∧ assigned state.2 = N.of_nat (length (filter passes ids))
  ∧ skipped state.2 = 0%N
  ∧ (∀ id crew, id ∈ ids → passes id →
       bind "uuid" uuid_in id = inr (Some crew) →
       crew_pair_taken state.1 (bb_event_id body) crew = true).

Lemma new_crew_row_fields s0 event crew position call_time end_time rate notes :
  let r := new_crew_row s0 event crew position call_time end_time rate notes user in
  ca_event_id r = event ∧ ca_crew_member_id r = crew ∧ ca_position_id r = position.
Proof. done. Qed.

(** What the statement of the loop does on a later store, against what it
    does on the store the request found. *)
Lemma insert_or_nothing_agree s' added ids crew call_time :
  same_catalog s s' →
  crew_assignments s' = crew_assignments s ++ added →
  Forall (added_row ids) added →
  let r := new_crew_row s (bb_event_id body) crew (bb_position_id body) call_time
                        None None None user in
  let r' := new_crew_row s' (bb_event_id body) crew (bb_position_id body) call_time
                         None None None user in
  match insert_crew_or_nothing s' r', insert_crew_or_nothing s r with
  | inl e', inl e => e' = e
  | inr s'', inr _ =>
      (crew_pair_taken s' (bb_event_id body) crew = true ∧ s'' = s')
      ∨ (crew_pair_taken s' (bb_event_id body) crew = false
         ∧ crew_foreign_keys s r' = None
         ∧ s'' = with_crew_assignments s' (crew_assignments s' ++ [r']))
  | _, _ => False
  end.
Proof.
  intros Hcat Hrows Hadded r r'. unfold insert_crew_or_nothing.
  assert (crew_foreign_keys s' r' = crew_foreign_keys s r) as Hfk
    by (by apply crew_foreign_keys_catalog).
  assert (crew_foreign_keys s r' = crew_foreign_keys s r) as Hfk'
    by (by apply crew_foreign_keys_catalog; [apply same_catalog_refl|..]).
  change (ca_event_id r') with (bb_event_id body).
  change (ca_crew_member_id r') with crew.
  change (ca_event_id r) with (bb_event_id body).
  change (ca_crew_member_id r) with crew.
  rewrite Hfk.
  destruct (crew_pair_taken s' (bb_event_id body) crew) eqn:Htaken';
    destruct (crew_pair_taken s (bb_event_id body) crew) eqn:Htaken.
  - by left.
  - destruct (crew_foreign_keys s r) as [e|] eqn:Hr; [|by left].
    apply crew_pair_taken_spec in Htaken'. apply crew_pair_not_taken_spec in Htaken.
    rewrite Hrows, fmap_app, elem_of_app in Htaken'.
    destruct Htaken' as [?|Hin]; [done|].
    apply list_elem_of_fmap in Hin as (ca & Hpair & Hca).
    rewrite Forall_forall in Hadded.
    destruct (Hadded ca Hca) as (Hev & Hpos & Hnone & _).
    injection Hpair as Hev' Hcrew.
    rewrite (crew_foreign_keys_catalog s s ca r) in Hr;
      [congruence|apply same_catalog_refl|done..].
  - apply crew_pair_taken_spec in Htaken. apply crew_pair_not_taken_spec in Htaken'.
    rewrite Hrows, fmap_app, elem_of_app in Htaken'. tauto.
  - destruct (crew_foreign_keys s r) as [e|] eqn:Hr; [done|]. right.
    by rewrite Hfk'.
Qed.

Lemma bulk_insert_agree s' added ids id :
  same_catalog s s' →
  crew_assignments s' = crew_assignments s ++ added →
  Forall (added_row ids) added →
  match bulk_insert s' user body id, bulk_insert s user body id with
  | inl e', inl e => e' = e
  | inr s'', inr _ =>
      ∃ crew, bind "uuid" uuid_in id = inr (Some crew)
              ∧ ((crew_pair_taken s' (bb_event_id body) crew = true ∧ s'' = s')
                 ∨ (crew_pair_taken s' (bb_event_id body) crew = false
                    ∧ ∃ r', ca_event_id r' = bb_event_id body
                            ∧ ca_crew_member_id r' = crew
                            ∧ ca_position_id r' = bb_position_id body
                            ∧ crew_foreign_keys s r' = None
                            ∧ s'' = with_crew_assignments s' (crew_assignments s' ++ [r'])))
  | _, _ => False
  end.
Proof.
  intros Hcat Hrows Hadded. unfold bulk_insert.
  destruct (bind "uuid" uuid_in id) as [e|crew]; [done|]. cbn [mbind result_bind].
  destruct (bind "time" time_in _) as [e|call_time]; [done|]. cbn [mbind result_bind].
  destruct crew as [crew|]; [|done]. cbn [required mbind result_bind].
  pose proof (insert_or_nothing_agree s' added ids crew call_time Hcat Hrows Hadded)
    as Hins.
  cbv zeta in Hins.
  destruct (insert_crew_or_nothing s' _) as [e'|s''],
           (insert_crew_or_nothing s _) as [e|s0]; try done.
  exists crew. split; [done|].
  destruct Hins as [?|(? & ? & ?)]; [by left|right]. split; [done|].
  by eexists (new_crew_row s' _ crew _ call_time None None None user).
Qed.

Lemma bulk_invariant_intro ids s' results added :
  same_catalog s s' →
  crew_assignments s' = crew_assignments s ++ added →
  Forall (added_row ids) added →
  NoDup (crew_pair <$> added) →
  errors results = omap verdict ids →
  assigned results = N.of_nat (length (filter passes ids)) →
  skipped results = 0%N →
  (∀ id crew, id ∈ ids → passes id →
     bind "uuid" uuid_in id = inr (Some crew) →
     crew_pair_taken s' (bb_event_id body) crew = true) →
  bulk_invariant ids (s', results).
Proof. intros. split; [done|]. split; [by exists added|]. done. Qed.

Lemma bulk_step_invariant ids state id :
  bulk_invariant ids state →
  bulk_invariant (ids ++ [id]) (bulk_step user body state id).
Proof.
  destruct state as [s' results].
  intros (Hcat & (added & Hrows & Hadded & Hnodup) & Herrors & Hassigned & Hskipped & Hin).
  cbn [fst snd] in *. unfold bulk_step.
  pose proof (bulk_insert_agree s' added ids id Hcat Hrows Hadded) as Hagree.
  assert (Forall (added_row (ids ++ [id])) added) as Hadded'.
  { eapply Forall_impl; [done|]. intros ca (?&?&?&?&id0&?&?).
    repeat split; try done. exists id0. split; [|done]. apply elem_of_app. by left. }
  destruct (bulk_insert s' user body id) as [e'|s''],
           (bulk_insert s user body id) as [e|s0] eqn:Hs; try done.
  - (* the statement raises *)
    subst e'.
    assert (verdict id = Some (id, message e)) as Hv by (unfold verdict; by rewrite Hs).
    apply (bulk_invariant_intro _ _ _ added); cbn [errors assigned skipped]; try done.
    + rewrite omap_app. cbn [omap list_omap]. by rewrite Hv, Herrors.
    + rewrite filter_app, filter_cons_False, filter_nil, app_nil_r by (unfold passes; by rewrite Hv).
      done.
    + intros id0 crew [Hid0|Hid0]%elem_of_app Hpass Hbind; [by eapply Hin|].
      apply list_elem_of_singleton in Hid0 as ->.
      unfold passes in Hpass. by rewrite Hv in Hpass.
  - (* the statement returns *)
    destruct Hagree as (crew & Hbind & Hcases).
    assert (verdict id = None) as Hv by (unfold verdict; by rewrite Hs).
    assert (errors results = omap verdict (ids ++ [id])) as Herrors'.
    { rewrite omap_app. cbn [omap list_omap]. by rewrite Hv, app_nil_r. }
    assert ((assigned results + 1)%N = N.of_nat (length (filter passes (ids ++ [id]))))
      as Hassigned'.
    { rewrite filter_app, filter_cons_True, filter_nil, length_app by done.
      rewrite Hassigned. simpl. lia. }
    destruct Hcases as [[Htaken ->]|(Hfree & r' & Hev & Hcrew & Hpos & Hfk & ->)].
    + apply (bulk_invariant_intro _ _ _ added); cbn [errors assigned skipped]; try done.
      intros id0 crew0 [Hid0|Hid0]%elem_of_app Hpass Hbind0; [by eapply Hin|].
      apply list_elem_of_singleton in Hid0 as ->. congruence.
    + apply crew_pair_not_taken_spec in Hfree.
      rewrite Hrows, fmap_app, elem_of_app in Hfree.
      apply (bulk_invariant_intro _ _ _ (added ++ [r']));
        cbn [errors assigned skipped]; try done.
      * cbn. by rewrite Hrows, app_assoc.
      * apply Forall_app. split; [done|]. constructor; [|done].
        split; [done|]. split; [done|]. split; [done|]. split.
        -- apply crew_pair_not_taken_spec. rewrite Hev, Hcrew. tauto.
        -- exists id. split; [|by rewrite Hcrew]. apply elem_of_app. right. by left.
      * rewrite fmap_app. apply NoDup_app. split; [done|]. split.
        -- intros pair Hpair [->|[]%elem_of_nil]%elem_of_cons.
           unfold crew_pair in Hpair at 1. rewrite Hev, Hcrew in Hpair. tauto.
        -- apply NoDup_singleton.
      * intros id0 crew0 [Hid0|Hid0]%elem_of_app Hpass Hbind0.
        -- apply crew_pair_taken_spec. cbn. rewrite fmap_app, elem_of_app. left.
           apply crew_pair_taken_spec. by eapply Hin.
        -- apply list_elem_of_singleton in Hid0 as ->.
           apply crew_pair_taken_spec. cbn. rewrite fmap_app, elem_of_app. right.
           assert (crew0 = crew) as -> by congruence.
           apply list_elem_of_singleton. unfold crew_pair. by rewrite Hev, Hcrew.
Qed.

Lemma bulk_loop_invariant ids :
  bulk_invariant ids (foldl (bulk_step user body) (s, mkBulkResults 0 0 []) ids).
Proof.
  induction ids as [|id ids IH] using rev_ind.
  - apply (bulk_invariant_intro _ _ _ []);
      [apply same_catalog_refl|by rewrite app_nil_r|constructor..|done|done|done|].
    by intros ? ? ?%elem_of_nil.
  - rewrite foldl_snoc. by apply bulk_step_invariant.
Qed.

Lemma verdicts_and_passes ids :
  (length (filter passes ids) + length (omap verdict ids) = length ids)%nat.
Proof.
  induction ids as [|id ids IH]; [done|]. cbn [omap list_omap length].
  destruct (decide (passes id)) as [Hp|Hp].
  - rewrite filter_cons_True by done. unfold passes in Hp. rewrite Hp. simpl. lia.
  - rewrite filter_cons_False by done. unfold passes in Hp.
    destruct (verdict id); [simpl; lia|done].
Qed.

(** An identifier whose pair is taken when the request arrives is not an
    error. *)
Lemma duplicate_passes id crew call_time :
  bind "uuid" uuid_in id = inr (Some crew) →
  bind "time" time_in
       (if Js.truthy (bb_call_time body) then bb_call_time body else Js.Null)
  = inr call_time →
  crew_pair_taken s (bb_event_id body) crew = true →
  bulk_insert s user body id = inr s.
Proof.
  intros Hid Htime Htaken. unfold bulk_insert. rewrite Hid, Htime.
  cbn [mbind result_bind required]. unfold insert_crew_or_nothing.
  change (ca_event_id (new_crew_row _ ?e ?c _ _ _ _ _ _)) with e.
  change (ca_crew_member_id (new_crew_row _ ?e ?c _ _ _ _ _ _)) with c.
  by rewrite Htaken.
Qed.

Lemma bulk_reply :
  bulkCreateCrewAssignments s user body
  = (let state := foldl (bulk_step user body) (s, mkBulkResults 0 0 [])
                        (bb_crew_member_ids body) in
     (state.1,
      Send 200 ("Assigned " +:+ Js.text_of_N (assigned state.2) +:+ " crew members",
                state.2))).
Proof. unfold bulkCreateCrewAssignments. by destruct (foldl _ _ _). Qed.

End Bulk.

(** C1. Every call of the bulk route answers with a result object, whatever
    the identifiers.  Each identifier is judged on its own: its entry in the
    error list depends on the store the request found and on nothing the
    other identifiers did, so the error list is exactly the list of the
    identifiers whose insert raises, in order.  An identifier whose (event,
    crew member) pair is taken is not an error and adds no row; the rows
    the store had are kept; every identifier whose insert does not raise
    has its pair in the store afterwards.  The assigned count plus the
    number of errors does not exceed the number of identifiers. *)
Theorem bulk_partial_failure `{!Conversions} (s : Store) (user : Uuid)
    (body : BulkBody) :
  ∃ s' results,
    bulkCreateCrewAssignments s user body
    = (s', Send 200 ("Assigned " +:+ Js.text_of_N (assigned results)
                     +:+ " crew members", results))
    ∧ errors results = omap (verdict s user body) (bb_crew_member_ids body)
    ∧ (∀ id crew call_time,
         bind "uuid" uuid_in id = inr (Some crew) →
         bind "time" time_in
              (if Js.truthy (bb_call_time body) then bb_call_time body else Js.Null)
         = inr call_time →
         crew_pair_taken s (bb_event_id body) crew = true →
         verdict s user body id = None)
    ∧ same_catalog s s'
    ∧ (∃ added,
         crew_assignments s' = crew_assignments s ++ added
         ∧ Forall (λ ca, crew_pair_taken s (ca_event_id ca) (ca_crew_member_id ca)
                         = false) added
         ∧ NoDup (crew_pair <$> added))
    ∧ (∀ id crew,
         id ∈ bb_crew_member_ids body → verdict s user body id = None →
         bind "uuid" uuid_in id = inr (Some crew) →
         crew_pair_taken s' (bb_event_id body) crew = true)
    ∧ (N.to_nat (assigned results) + length (errors results)
       ≤ length (bb_crew_member_ids body))%nat.
Proof.
  rewrite bulk_reply. cbv zeta.
  pose proof (bulk_loop_invariant s user body (bb_crew_member_ids body)) as Hinv.
  destruct (foldl _ _ _) as [s' results].
  destruct Hinv as (Hcat & (added & Hrows & Hadded & Hnodup) & Herrors & Hassigned
                    & Hskipped & Hin).
  cbn [fst snd] in *. exists s', results.
  split; [done|]. split; [done|]. split.
  { intros id crew call_time Hid Htime Htaken. unfold verdict.
    by rewrite (duplicate_passes s user body id crew call_time). }
  split; [done|]. split.
  { exists added. split; [done|]. split; [|done].
    eapply Forall_impl; [done|]. by intros ca (?&?&?&?&?). }
  split; [done|].
  rewrite Herrors, Hassigned, Nat2N.id.
  by rewrite verdicts_and_passes.
Qed.

(** On the sample store, where Ann is on the Gala already: Ann is passed
    over, Bob is assigned, and the two identifiers that name no crew member
    are reported, each with the message of its error. *)
Example bulk_of_the_sample :
  bulkCreateCrewAssignments Sample.booked 9
    (mkBulkBody 1 [Js.Str "1"; Js.Str "2"; Js.Str "7"; Js.Str "x"] None Js.Undefined)
  = (with_crew_assignments Sample.booked
       (crew_assignments Sample.booked
        ++ [mkCrewAssignment 2 1 2 None None None None (Some pending) None (Some 9%N)]),
     Send 200
       ("Assigned 2 crew members"%string,
        mkBulkResults 2 0
          [(Js.Str "7",
            message (ForeignKeyViolation "crew_assignments"
                                         "crew_assignments_crew_member_id_fkey"));
           (Js.Str "x", message (InvalidTextRepresentation "uuid"))])).
Proof. by vm_compute. Qed.

(** C10. In the result of the bulk route the [skipped] counter is zero and
    [assigned] counts the identifiers whose insert does not raise, an
    identifier whose pair was taken among them, so that [assigned] plus the
    length of the error list is the number of identifiers.  On the sample
    store, where Ann is on the Gala already, asking for Ann again answers
    one assigned, no error, and leaves the store as it was. *)
Theorem bulk_counters :
  (∀ `{!Conversions} (s : Store) (user : Uuid) (body : BulkBody),
     ∃ s' message results,
       bulkCreateCrewAssignments s user body = (s', Send 200 (message, results))
       ∧ skipped results = 0%N
       ∧ assigned results
         = N.of_nat (length (filter (passes s user body) (bb_crew_member_ids body)))
       ∧ (∀ id crew call_time,
            bind "uuid" uuid_in id = inr (Some crew) →
            bind "time" time_in
                 (if Js.truthy (bb_call_time body) then bb_call_time body else Js.Null)
            = inr call_time →
            crew_pair_taken s (bb_event_id body) crew = true →
            passes s user body id)
       ∧ (N.to_nat (assigned results) + length (errors results)
          = length (bb_crew_member_ids body))%nat)
  ∧ bulkCreateCrewAssignments Sample.booked 9
      (mkBulkBody 1 [Js.Str "1"] None Js.Undefined)
    = (Sample.booked,
       Send 200 ("Assigned 1 crew members"%string, mkBulkResults 1 0 [])).
Proof.
  split; [|reflexivity].
  intros ? s user body. rewrite bulk_reply. cbv zeta.
  pose proof (bulk_loop_invariant s user body (bb_crew_member_ids body)) as Hinv.
  destruct (foldl _ _ _) as [s' results].
  destruct Hinv as (_ & _ & Herrors & Hassigned & Hskipped & _).
  cbn [fst snd] in *. eexists s', _, results.
  split; [done|]. split; [done|]. split; [done|]. split.
  { intros id crew call_time Hid Htime Htaken. unfold passes, verdict.
    by rewrite (duplicate_passes s user body id crew call_time). }
  rewrite Herrors, Hassigned, Nat2N.id. apply verdicts_and_passes.
Qed.

(** *** One assignment per pair *)

Lemma fresh_above ids id : id ∈ ids → (id < fresh ids)%N.
Proof.
  unfold fresh. induction ids as [|x ids IH]; [by intros ?%elem_of_nil|].
  rewrite elem_of_cons. cbn [foldr]. intros [->|Hin]; [lia|].
  specialize (IH Hin). lia.
Qed.

Lemma fresh_not_in ids : fresh ids ∉ ids.
Proof. intros Hin%fresh_above. lia. Qed.

Lemma equipment_pair_taken_spec s event item :
  equipment_pair_taken s event item = true
  ↔ (event, item) ∈ equipment_pair <$> equipment_assignments s.
Proof.
  unfold equipment_pair_taken.
  rewrite bool_decide_eq_true, Exists_exists, list_elem_of_fmap. split.
  - intros (ea & Hea & <- & <-). by exists ea.
  - intros (ea & [= -> ->] & Hea). by exists ea.
Qed.

Lemma equipment_pair_not_taken_spec s event item :
  equipment_pair_taken s event item = false
  ↔ (event, item) ∉ equipment_pair <$> equipment_assignments s.
Proof.
  rewrite <- equipment_pair_taken_spec. by destruct (equipment_pair_taken s event item).
Qed.

Lemma NoDup_snoc {A : Type} (l : list A) (x : A) :
  NoDup l → x ∉ l → NoDup (l ++ [x]).
Proof.
  intros Hl Hx. apply NoDup_app. split; [done|]. split; [|apply NoDup_singleton].
  by intros y Hy ->%list_elem_of_singleton.
Qed.

Lemma references_spec {R : Type} (key : R → Uuid) (table : list R) (id : Uuid) :
  references key table id = true ↔ ∃ r, r ∈ table ∧ key r = id.
Proof.
  unfold references. rewrite bool_decide_eq_true.
  change (map key table) with (key <$> table). rewrite list_elem_of_fmap.
  split; intros (r & ? & ?); by exists r.
Qed.

Lemma select_event_references s id :
  select_event s id ≠ [] → references e_id (events s) id = true.
Proof.
  unfold select_event. intros Hne. apply references_spec.
  destruct (filter _ _) as [|e l] eqn:E; [done|].
  assert (e ∈ filter (λ e, e_id e = id) (events s)) as Hin
    by (rewrite E; apply elem_of_cons; by left).
  apply list_elem_of_filter in Hin as [? ?]. by exists e.
Qed.

Lemma select_active_crew_references s id :
  select_active_crew s id ≠ [] → references cm_id (crew_members s) id = true.
Proof.
  unfold select_active_crew. intros Hne. apply references_spec.
  destruct (filter _ _) as [|cm l] eqn:E; [done|].
  assert (cm ∈ filter (λ cm, cm_id cm = id ∧ is_true (cm_is_active cm) = true)
                      (crew_members s)) as Hin
    by (rewrite E; apply elem_of_cons; by left).
  apply list_elem_of_filter in Hin as [[? ?] ?]. by exists cm.
Qed.

Lemma select_active_equipment_references s id :
  select_active_equipment s id ≠ [] → references eq_id (equipment s) id = true.
Proof.
  unfold select_active_equipment. intros Hne. apply references_spec.
  destruct (filter _ _) as [|eq l] eqn:E; [done|].
  assert (eq ∈ filter (λ eq, eq_id eq = id ∧ is_true (eq_is_active eq) = true)
                      (equipment s)) as Hin
    by (rewrite E; apply elem_of_cons; by left).
  apply list_elem_of_filter in Hin as [[? ?] ?]. by exists eq.
Qed.

Lemma crew_foreign_keys_code s row error :
  crew_foreign_keys s row = Some error → code error = "23503"%string.
Proof.
  unfold crew_foreign_keys. intros E.
  repeat (match type of E with
          | (if ?b then _ else _) = _ => destruct b
          | match ?o with Some _ => _ | None => _ end = _ => destruct o
          end); by simplify_eq.
Qed.

Lemma equipment_foreign_keys_code s row error :
  equipment_foreign_keys s row = Some error → code error = "23503"%string.
Proof.
  unfold equipment_foreign_keys. intros E.
  repeat (match type of E with
          | (if ?b then _ else _) = _ => destruct b
          end); by simplify_eq.
Qed.

(** What a successful [INSERT] leaves. *)
Lemma insert_crew_inr s row s' row' :
  insert_crew s row = inr (s', row') →
  row' = row
  ∧ s' = with_crew_assignments s (crew_assignments s ++ [row])
  ∧ crew_pair_taken s (ca_event_id row) (ca_crew_member_id row) = false.
Proof.
  unfold insert_crew. destruct (crew_pair_taken _ _ _); [done|].
  destruct (crew_foreign_keys s row); [done|]. by intros [= <- <-].
Qed.

Lemma insert_crew_unique s row s' row' :
  insert_crew s row = inr (s', row') → unique_pairs s → unique_pairs s'.
Proof.
  intros (-> & -> & Hfree)%insert_crew_inr [Hc He]. split; [|done].
  cbn. rewrite fmap_app. apply NoDup_snoc; [done|].
  by apply crew_pair_not_taken_spec.
Qed.

Lemma insert_equipment_inr s row s' row' :
  insert_equipment s row = inr (s', row') →
  row' = row
  ∧ s' = with_equipment_assignments s (equipment_assignments s ++ [row])
  ∧ equipment_pair_taken s (ea_event_id row) (ea_equipment_id row) = false.
Proof.
  unfold insert_equipment. destruct (equipment_pair_taken _ _ _); [done|].
  destruct (equipment_foreign_keys s row); [done|]. by intros [= <- <-].
Qed.

Lemma insert_equipment_unique s row s' row' :
  insert_equipment s row = inr (s', row') → unique_pairs s → unique_pairs s'.
Proof.
  intros (-> & -> & Hfree)%insert_equipment_inr [Hc He]. split; [done|].
  cbn. rewrite fmap_app. apply NoDup_snoc; [done|].
  by apply equipment_pair_not_taken_spec.
Qed.

Section Unique.
Context `{!Conversions}.

(** The read-after-write join finds the row that was written: the
    identifier is new, and the crew member is there. *)
Lemma select_crew_view_new s row :
  ca_id row = fresh (map ca_id (crew_assignments s)) →
  references cm_id (crew_members s) (ca_crew_member_id row) = true →
  ∃ view,
    head (select_crew_view (with_crew_assignments s (crew_assignments s ++ [row]))
                           (ca_id row)) = Some view
    ∧ cv_assignment view = row.
Proof.
  intros Hid (cm & Hcm & Hkey)%references_spec.
  set (s' := with_crew_assignments s (crew_assignments s ++ [row])).
  assert (∀ view, view ∈ select_crew_view s' (ca_id row) → cv_assignment view = row)
    as Hall.
  { intros view. unfold select_crew_view.
    rewrite list_elem_of_bind. intros (ca & Hview & Hca).
    apply list_elem_of_bind in Hview as (cm' & Hview & _).
    assert (ca_id ca = ca_id row → ca = row) as Hsame.
    { intros E. cbn in Hca. apply elem_of_app in Hca as [Hold|Hnew].
      - exfalso. apply (fresh_not_in (map ca_id (crew_assignments s))).
        rewrite <- Hid, <- E. change (map ca_id ?l) with (ca_id <$> l).
        apply list_elem_of_fmap. by exists ca.
      - by apply list_elem_of_singleton in Hnew. }
    unfold left_join in Hview.
    destruct (filter _ (positions s')) as [|p ps].
    - destruct (decide (ca_id ca = ca_id row)) as [E|]; [|by apply elem_of_nil in Hview].
      apply list_elem_of_singleton in Hview as ->. by apply Hsame.
    - apply list_elem_of_bind in Hview as (p' & Hview & _).
      destruct (decide (ca_id ca = ca_id row)) as [E|]; [|by apply elem_of_nil in Hview].
      apply list_elem_of_singleton in Hview as ->. by apply Hsame. }
  assert (∃ view, view ∈ select_crew_view s' (ca_id row)) as [view Hview].
  { unfold select_crew_view.
    assert (cm ∈ filter (λ cm, ca_crew_member_id row = cm_id cm) (crew_members s'))
      as Hcm' by (by apply list_elem_of_filter).
    destruct (filter (λ p, ca_position_id row = Some (p_id p)) (positions s'))
      as [|p ps] eqn:Ep.
    - exists (mkCrewView row (cm_name cm) (cm_email cm) None).
      apply list_elem_of_bind. exists row. split; [|cbn; apply elem_of_app; right;
                                                 by apply list_elem_of_singleton].
      apply list_elem_of_bind. exists cm. split; [|done].
      rewrite Ep. cbn [left_join]. rewrite decide_True by done.
      by apply list_elem_of_singleton.
    - exists (mkCrewView row (cm_name cm) (cm_email cm) (Some (p_name p))).
      apply list_elem_of_bind. exists row. split; [|cbn; apply elem_of_app; right;
                                                 by apply list_elem_of_singleton].
      apply list_elem_of_bind. exists cm. split; [|done].
      rewrite Ep. cbn [left_join]. apply list_elem_of_bind. exists p.
      split; [|apply elem_of_cons; by left].
      rewrite decide_True by done. by apply list_elem_of_singleton. }
  destruct (select_crew_view s' (ca_id row)) as [|v vs] eqn:E.
  - by apply elem_of_nil in Hview.
  - exists v. split; [done|]. apply Hall. apply elem_of_cons. by left.
Qed.

(** [POST /crew] on a pair that is free. *)
Lemma create_crew_free s user body :
  select_event s (ccb_event_id body) ≠ [] →
  select_active_crew s (ccb_crew_member_id body) ≠ [] →
  (∀ p, ccb_position_id body = Some p → references p_id (positions s) p = true) →
  crew_pair_taken s (ccb_event_id body) (ccb_crew_member_id body) = false →
  ∃ s' view,
    createCrewAssignment s user body = (s', Send 201 (Some view))
    ∧ crew_assignments s' = crew_assignments s ++ [cv_assignment view]
    ∧ same_catalog s s'
    ∧ crew_pair (cv_assignment view) = (ccb_event_id body, ccb_crew_member_id body).
Proof.
  intros Hevent Hcrew Hposition Hfree. unfold createCrewAssignment.
  destruct (select_event s _) as [|e es] eqn:Ee; [done|].
  destruct (select_active_crew s _) as [|c cs] eqn:Ec; [done|].
  set (row := new_crew_row _ _ _ _ _ _ _ _ _).
  assert (insert_crew s row
          = inr (with_crew_assignments s (crew_assignments s ++ [row]), row)) as ->.
  { unfold insert_crew. change (ca_event_id row) with (ccb_event_id body).
    change (ca_crew_member_id row) with (ccb_crew_member_id body). rewrite Hfree.
    unfold crew_foreign_keys. change (ca_event_id row) with (ccb_event_id body).
    change (ca_crew_member_id row) with (ccb_crew_member_id body).
    change (ca_position_id row) with (ccb_position_id body).
    rewrite select_event_references by (by rewrite Ee).
    rewrite select_active_crew_references by (by rewrite Ec). cbn [negb].
    destruct (ccb_position_id body) as [p|]; [|done].
    by rewrite Hposition. }
  destruct (select_crew_view_new s row) as (view & Hview & Hrow); [done|..].
  { apply select_active_crew_references.
    change (select_active_crew s (ccb_crew_member_id body) ≠ []). by rewrite Ec. }
  eexists _, view. split; [by rewrite Hview|]. rewrite Hrow.
  split; [done|]. split; [|done]. apply same_catalog_with, same_catalog_refl.
Qed.

(** [POST /crew] on a pair that is taken. *)
Lemma create_crew_taken s user body :
  select_event s (ccb_event_id body) ≠ [] →
  select_active_crew s (ccb_crew_member_id body) ≠ [] →
  crew_pair_taken s (ccb_event_id body) (ccb_crew_member_id body) = true →
  createCrewAssignment s user body
  = (s, Fail 409 "Crew member already assigned to this event").
Proof.
  intros Hevent Hcrew Htaken. unfold createCrewAssignment.
  destruct (select_event s _) as [|e es]; [done|].
  destruct (select_active_crew s _) as [|c cs]; [done|].
  unfold insert_crew.
  change (ca_event_id (new_crew_row _ ?e ?c _ _ _ _ _ _)) with e.
  change (ca_crew_member_id (new_crew_row _ ?e ?c _ _ _ _ _ _)) with c.
  by rewrite Htaken.
Qed.

(** The reply 409 of [POST /crew] is the reply to a taken pair and to
    nothing else. *)
Lemma create_crew_conflict s user body s' text :
  createCrewAssignment s user body = (s', Fail 409 text) →
  crew_pair_taken s (ccb_event_id body) (ccb_crew_member_id body) = true.
Proof.
  unfold createCrewAssignment.
  destruct (select_event s _) as [|e es]; [done|].
  destruct (select_active_crew s _) as [|c cs]; [done|].
  unfold insert_crew.
  change (ca_event_id (new_crew_row _ ?e ?c _ _ _ _ _ _)) with e.
  change (ca_crew_member_id (new_crew_row _ ?e ?c _ _ _ _ _ _)) with c.
  destruct (crew_pair_taken _ _ _); [done|].
  destruct (crew_foreign_keys _ _) as [error|] eqn:E; [|done].
  apply crew_foreign_keys_code in E. unfold errorHandler. by rewrite E.
Qed.

Lemma select_equipment_view_new s row :
  ea_id row = fresh (map ea_id (equipment_assignments s)) →
  references eq_id (equipment s) (ea_equipment_id row) = true →
  ∃ view,
    head (select_equipment_view
            (with_equipment_assignments s (equipment_assignments s ++ [row]))
            (ea_id row)) = Some view
    ∧ ev_assignment view = row.
Proof.
  intros Hid (eq & Heq & Hkey)%references_spec.
  set (s' := with_equipment_assignments s (equipment_assignments s ++ [row])).
  assert (∀ view, view ∈ select_equipment_view s' (ea_id row) → ev_assignment view = row)
    as Hall.
  { intros view. unfold select_equipment_view.
    rewrite list_elem_of_bind. intros (ea & Hview & Hea).
    apply list_elem_of_bind in Hview as (eq' & Hview & _).
    assert (ea_id ea = ea_id row → ea = row) as Hsame.
    { intros E. cbn in Hea. apply elem_of_app in Hea as [Hold|Hnew].
      - exfalso. apply (fresh_not_in (map ea_id (equipment_assignments s))).
        rewrite <- Hid, <- E. change (map ea_id ?l) with (ea_id <$> l).
        apply list_elem_of_fmap. by exists ea.
      - by apply list_elem_of_singleton in Hnew. }
    unfold left_join in Hview.
    destruct (filter _ (equipment_categories s')) as [|c cs].
    - destruct (decide (ea_id ea = ea_id row)) as [E|]; [|by apply elem_of_nil in Hview].
      apply list_elem_of_singleton in Hview as ->. by apply Hsame.
    - apply list_elem_of_bind in Hview as (c' & Hview & _).
      destruct (decide (ea_id ea = ea_id row)) as [E|]; [|by apply elem_of_nil in Hview].
      apply list_elem_of_singleton in Hview as ->. by apply Hsame. }
  assert (∃ view, view ∈ select_equipment_view s' (ea_id row)) as [view Hview].
  { unfold select_equipment_view.
    assert (eq ∈ filter (λ eq, ea_equipment_id row = eq_id eq) (equipment s'))
      as Heq' by (by apply list_elem_of_filter).
    destruct (filter (λ ec, eq_category_id eq = Some (ec_id ec)) (equipment_categories s'))
      as [|c cs] eqn:Ec.
    - exists (mkEquipmentView row (eq_name eq) (eq_serial_number eq) None).
      apply list_elem_of_bind. exists row. split; [|cbn; apply elem_of_app; right;
                                                 by apply list_elem_of_singleton].
      apply list_elem_of_bind. exists eq. split; [|done].
      rewrite Ec. cbn [left_join]. rewrite decide_True by done.
      by apply list_elem_of_singleton.
    - exists (mkEquipmentView row (eq_name eq) (eq_serial_number eq) (Some (ec_name c))).
      apply list_elem_of_bind. exists row. split; [|cbn; apply elem_of_app; right;
                                                 by apply list_elem_of_singleton].
      apply list_elem_of_bind. exists eq. split; [|done].
      rewrite Ec. cbn [left_join]. apply list_elem_of_bind. exists c.
      split; [|apply elem_of_cons; by left].
      rewrite decide_True by done. by apply list_elem_of_singleton. }
  destruct (select_equipment_view s' (ea_id row)) as [|v vs] eqn:E.
  - by apply elem_of_nil in Hview.
  - exists v. split; [done|]. apply Hall. apply elem_of_cons. by left.
Qed.

(** [POST /equipment] on a pair that is free. *)
Lemma create_equipment_free s user body :
  select_event s (ceb_event_id body) ≠ [] →
  select_active_equipment s (ceb_equipment_id body) ≠ [] →
  equipment_pair_taken s (ceb_event_id body) (ceb_equipment_id body) = false →
  ∃ s' view,
    createEquipmentAssignment s user body = (s', Send 201 (Some view))
    ∧ s' = with_equipment_assignments s (equipment_assignments s ++ [ev_assignment view])
    ∧ equipment_pair (ev_assignment view) = (ceb_event_id body, ceb_equipment_id body).
Proof.
  intros Hevent Hitem Hfree. unfold createEquipmentAssignment.
  destruct (select_event s _) as [|e es] eqn:Ee; [done|].
  destruct (select_active_equipment s _) as [|c cs] eqn:Ec; [done|].
  set (row := mkEquipmentAssignment _ _ _ _ _ _ _).
  assert (insert_equipment s row
          = inr (with_equipment_assignments s (equipment_assignments s ++ [row]), row))
    as ->.
  { unfold insert_equipment. cbn [row ea_event_id ea_equipment_id]. rewrite Hfree.
    unfold equipment_foreign_keys. cbn [row ea_event_id ea_equipment_id].
    rewrite select_event_references by (by rewrite Ee).
    by rewrite select_active_equipment_references by (by rewrite Ec). }
  destruct (select_equipment_view_new s row) as (view & Hview & Hrow); [done|..].
  { apply select_active_equipment_references.
    change (select_active_equipment s (ceb_equipment_id body) ≠ []). by rewrite Ec. }
  eexists _, view. split; [by rewrite Hview|]. by rewrite Hrow.
Qed.

(** [POST /equipment] on a pair that is taken. *)
Lemma create_equipment_taken s user body :
  select_event s (ceb_event_id body) ≠ [] →
  select_active_equipment s (ceb_equipment_id body) ≠ [] →
  equipment_pair_taken s (ceb_event_id body) (ceb_equipment_id body) = true →
  createEquipmentAssignment s user body
  = (s, Fail 409 "Equipment already assigned to this event").
Proof.
  intros Hevent Hitem Htaken. unfold createEquipmentAssignment.
  destruct (select_event s _) as [|e es]; [done|].
  destruct (select_active_equipment s _) as [|c cs]; [done|].
  unfold insert_equipment. cbn [ea_event_id ea_equipment_id]. by rewrite Htaken.
Qed.

Lemma create_equipment_conflict s user body s' text :
  createEquipmentAssignment s user body = (s', Fail 409 text) →
  equipment_pair_taken s (ceb_event_id body) (ceb_equipment_id body) = true.
Proof.
  unfold createEquipmentAssignment.
  destruct (select_event s _) as [|e es]; [done|].
  destruct (select_active_equipment s _) as [|c cs]; [done|].
  unfold insert_equipment. cbn [ea_event_id ea_equipment_id].
  destruct (equipment_pair_taken _ _ _); [done|].
  destruct (equipment_foreign_keys _ _) as [error|] eqn:E; [|done].
  apply equipment_foreign_keys_code in E. unfold errorHandler. by rewrite E.
Qed.

(** An [UPDATE] leaves the identifier and the pair of a row alone. *)
Lemma apply_crew_set_keys ca set ca' :
  apply_crew_set ca set = inr ca' →
  ca_id ca' = ca_id ca ∧ crew_pair ca' = crew_pair ca.
Proof.
  destruct ca, set as [| | | |[text|]|]; cbn; try (by intros [= <-]).
  destruct (status_in text); [by intros [= <-]|done].
Qed.

Lemma apply_crew_sets_keys sets ca ca' :
  apply_crew_sets ca sets = inr ca' →
  ca_id ca' = ca_id ca ∧ crew_pair ca' = crew_pair ca.
Proof.
  revert ca. induction sets as [|set sets IH]; intros ca; cbn.
  - by intros [= <-].
  - destruct (apply_crew_set ca set) as [|ca1] eqn:E; [done|]. cbn.
    intros [-> ->]%IH. by apply apply_crew_set_keys in E.
Qed.

Lemma position_key_after_update_inr s old new ca :
  position_key_after_update s old new = inr ca → ca = new.
Proof.
  unfold position_key_after_update. destruct (ca_position_id new); [|by intros [= <-]].
  destruct (_ || _); [by intros [= <-]|done].
Qed.

Lemma update_crew_rows_keys s sets key rows rows' :
  update_crew_rows s sets key rows = inr rows' →
  ca_id <$> rows' = ca_id <$> rows ∧ crew_pair <$> rows' = crew_pair <$> rows.
Proof.
  revert rows'. induction rows as [|ca rows IH]; intros rows'; cbn.
  - by intros [= <-].
  - destruct (decide (ca_id ca = key)) as [E|E].
    + destruct (apply_crew_sets ca sets) as [|new] eqn:Hnew; [done|]. cbn.
      destruct (position_key_after_update s ca new) as [|ca'] eqn:Hkey; [done|]. cbn.
      destruct (update_crew_rows s sets key rows) as [|rest]; [done|]. cbn.
      intros [= <-]. apply position_key_after_update_inr in Hkey as ->.
      apply apply_crew_sets_keys in Hnew as [Hid Hpair].
      destruct (IH rest eq_refl) as [Hids Hpairs].
      by rewrite !fmap_cons, Hid, Hpair, Hids, Hpairs.
    + cbn. destruct (update_crew_rows s sets key rows) as [|rest]; [done|]. cbn.
      intros [= <-]. destruct (IH rest eq_refl) as [Hids Hpairs].
      by rewrite !fmap_cons, Hids, Hpairs.
Qed.

Lemma apply_equipment_set_keys ea set :
  ea_id (apply_equipment_set ea set) = ea_id ea
  ∧ equipment_pair (apply_equipment_set ea set) = equipment_pair ea.
Proof. by destruct ea, set. Qed.

Lemma apply_equipment_sets_keys sets ea :
  ea_id (foldl apply_equipment_set ea sets) = ea_id ea
  ∧ equipment_pair (foldl apply_equipment_set ea sets) = equipment_pair ea.
Proof.
  revert ea. induction sets as [|set sets IH]; intros ea; [done|]. cbn [foldl].
  destruct (IH (apply_equipment_set ea set)) as [-> ->].
  apply apply_equipment_set_keys.
Qed.

(** Each handler keeps the pairs apart. *)
Lemma create_crew_unique s user body :
  unique_pairs s → unique_pairs (createCrewAssignment s user body).1.
Proof.
  intros Hs. unfold createCrewAssignment.
  destruct (select_event s _); [done|]. destruct (select_active_crew s _); [done|].
  destruct (insert_crew s _) as [error|[s' row]] eqn:E.
  - by destruct (bool_decide _).
  - by eapply insert_crew_unique.
Qed.

Lemma update_crew_unique s id body :
  unique_pairs s → unique_pairs (updateCrewAssignment s id body).1.
Proof.
  intros Hs. unfold updateCrewAssignment.
  destruct (collect_updates body) as [|u us]; [done|].
  destruct (update_crew s _ id) as [error|[s' rows]] eqn:E; [done|].
  assert (unique_pairs s') as Hs'.
  { unfold update_crew in E.
    destruct (bind_crew_sets _) as [|typed]; [done|]. cbn [mbind result_bind] in E.
    destruct (bind_uuid id) as [|[key|]]; [done|..]; cbn [mbind result_bind] in E; [|by simplify_eq].
    destruct (update_crew_rows s typed key _) as [|rows'] eqn:Hrows; [done|].
    cbn [mbind result_bind] in E. simplify_eq. apply update_crew_rows_keys in Hrows as [_ Hpairs].
    destruct Hs as [Hc He]. split; [|done]. cbn. by rewrite Hpairs. }
  by destruct rows.
Qed.

Lemma delete_crew_unique s id :
  unique_pairs s → unique_pairs (deleteCrewAssignment s id).1.
Proof.
  intros Hs. unfold deleteCrewAssignment, delete_crew.
  destruct (bind_uuid id) as [|[key|]]; [done|..]; cbn; [|done].
  assert (unique_pairs (with_crew_assignments s
            (filter (λ ca, ca_id ca ≠ key) (crew_assignments s)))) as Hs'.
  { destruct Hs as [Hc He]. split; [|done]. cbn.
    eapply sublist_NoDup; [exact Hc|]. apply fmap_sublist, sublist_filter. }
  by destruct (ca_id <$> _).
Qed.

Lemma bulk_create_crew_unique s user body :
  unique_pairs s → unique_pairs (bulkCreateCrewAssignments s user body).1.
Proof.
  intros [Hc He]. rewrite bulk_reply. cbv zeta. cbn [fst].
  destruct (bulk_loop_invariant s user body (bb_crew_member_ids body))
    as ((_&_&_&_&_&Hequipment) & (added & Hrows & Hadded & Hnodup) & _).
  split; [|by rewrite Hequipment].
  rewrite Hrows, fmap_app. apply NoDup_app. split; [done|]. split; [|done].
  intros pair Hold (ca & -> & Hca)%list_elem_of_fmap.
  rewrite Forall_forall in Hadded. destruct (Hadded ca Hca) as (_&_&_&Hfree&_).
  by apply crew_pair_not_taken_spec in Hfree.
Qed.

Lemma create_equipment_unique s user body :
  unique_pairs s → unique_pairs (createEquipmentAssignment s user body).1.
Proof.
  intros Hs. unfold createEquipmentAssignment.
  destruct (select_event s _); [done|]. destruct (select_active_equipment s _); [done|].
  destruct (insert_equipment s _) as [error|[s' row]] eqn:E.
  - by destruct (bool_decide _).
  - by eapply insert_equipment_unique.
Qed.

Lemma update_equipment_unique s id body :
  unique_pairs s → unique_pairs (updateEquipmentAssignment s id body).1.
Proof.
  intros Hs. unfold updateEquipmentAssignment.
  destruct (collect_equipment_updates body) as [|u us]; [done|].
  destruct (update_equipment s _ id) as [error|[s' rows]] eqn:E; [done|].
  assert (unique_pairs s') as Hs'.
  { unfold update_equipment in E.
    destruct (bind_equipment_sets _) as [|typed]; [done|]. cbn [mbind result_bind] in E.
    destruct (bind_uuid id) as [|[key|]]; [done|..]; cbn [mbind result_bind] in E; [|by simplify_eq].
    simplify_eq. destruct Hs as [Hc He]. split; [done|]. cbn.
    rewrite <- list_fmap_compose.
    erewrite list_fmap_ext; [exact He|]. intros i ea _. cbn.
    destruct (decide (ea_id ea = key)); [|done]. apply apply_equipment_sets_keys. }
  by destruct rows.
Qed.

Lemma delete_equipment_unique s id :
  unique_pairs s → unique_pairs (deleteEquipmentAssignment s id).1.
Proof.
  intros Hs. unfold deleteEquipmentAssignment, delete_equipment.
  destruct (bind_uuid id) as [|[key|]]; [done|..]; cbn; [|done].
  assert (unique_pairs (with_equipment_assignments s
            (filter (λ ea, ea_id ea ≠ key) (equipment_assignments s)))) as Hs'.
  { destruct Hs as [Hc He]. split; [done|]. cbn.
    eapply sublist_NoDup; [exact He|]. apply fmap_sublist, sublist_filter. }
  by destruct (ea_id <$> _).
Qed.

(** The requests that write to the two tables, as the router takes them. *)
Inductive Request : Type :=
| PostCrew (user : Uuid) (body : CreateCrewBody)
| PutCrew (id : string) (body : gmap string Js.Value)
| DeleteCrew (id : string)
| PostCrewBulk (user : Uuid) (body : BulkBody)
| PostEquipment (user : Uuid) (body : CreateEquipmentBody)
| PutEquipment (id : string) (body : gmap string Js.Value)
| DeleteEquipment (id : string).

(** The store a request leaves. *)
Definition serve (s : Store) (request : Request) : Store :=
  match request with
  | PostCrew user body => (createCrewAssignment s user body).1
  | PutCrew id body => (updateCrewAssignment s id body).1
  | DeleteCrew id => (deleteCrewAssignment s id).1
  | PostCrewBulk user body => (bulkCreateCrewAssignments s user body).1
  | PostEquipment user body => (createEquipmentAssignment s user body).1
  | PutEquipment id body => (updateEquipmentAssignment s id body).1
  | DeleteEquipment id => (deleteEquipmentAssignment s id).1
  end.

Lemma serve_unique s request : unique_pairs s → unique_pairs (serve s request).
Proof.
  destruct request; cbn [serve];
    eauto using create_crew_unique, update_crew_unique, delete_crew_unique,
      bulk_create_crew_unique, create_equipment_unique, update_equipment_unique,
      delete_equipment_unique.
Qed.

Lemma serve_all_unique requests s :
  unique_pairs s → unique_pairs (foldl serve s requests).
Proof.
  revert s. induction requests as [|request requests IH]; intros s Hs; [done|].
  cbn [foldl]. by apply IH, serve_unique.
Qed.

End Unique.



(** *** Partial updates *)

Section Update.
Context `{!Conversions}.
Context (body : gmap string Js.Value).

(** What the request supplies for a field: nothing when the field is
    omitted, null when it is the empty string, its value otherwise. *)
Definition supplied (field : string) : option Js.Value :=
  match Js.get body field with
  | Js.Undefined => None
  | Js.Str EmptyString => Some Js.Null
  | v => Some v
  end.

(** A column after the update, as the specification words it: left as it
    was when the field is omitted, the supplied value in the type of the
    column otherwise. *)
Definition column {A : Type} (field type : string) (input : string → option A)
    (old : option A) : Error + option A :=
  match supplied field with
  | None => inr old
  | Some v => bind type input v
  end.

Definition text_column (field : string) (old : option string) : option string :=
  match supplied field with
  | None => old
  | Some v => param_text v
  end.

Definition status_column (old : option Status) : Error + option Status :=
  match supplied "status" with
  | None => inr old
  | Some v =>
      match param_text v with
      | None => inr None
      | Some text =>
          match status_in text with
          | Some st => inr (Some st)
          | None => inl (CheckViolation "crew_assignments_status_check")
          end
      end
  end.

(** The row after the update, column by column. *)
Definition updated (ca : CrewAssignment) : Error + CrewAssignment :=
  position ← column "position_id" "uuid" uuid_in (ca_position_id ca);
  call_time ← column "call_time" "time" time_in (ca_call_time ca);
  end_time ← column "end_time" "time" time_in (ca_end_time ca);
  rate ← column "rate_override" "numeric" numeric_in (ca_rate_override ca);
  status ← status_column (ca_status ca);
  inr (mkCrewAssignment (ca_id ca) (ca_event_id ca) (ca_crew_member_id ca)
         position call_time end_time rate status
         (text_column "notes" (ca_notes ca)) (ca_created_by ca)).

(** What the loop over [allowedFields] adds for one field. *)
Definition entry (field : string) : list (string * Js.Value) :=
  match supplied field with
  | None => []
  | Some v => [(field, v)]
  end.

Lemma collect_step updates field :
  (if bool_decide (Js.get body field = Js.Undefined) then updates
   else updates ++ [(field, if bool_decide (Js.get body field = Js.Str "")
                             then Js.Null else Js.get body field)])
  = updates ++ entry field.
Proof.
  unfold entry, supplied.
  destruct (Js.get body field) as [| |n|[|c r]]; cbn; by rewrite ?app_nil_r.
Qed.

Lemma collect_updates_entries :
  collect_updates body
  = entry "position_id" ++ entry "call_time" ++ entry "end_time"
    ++ entry "rate_override" ++ entry "status" ++ entry "notes".
Proof.
  unfold collect_updates, allowedFields. cbn [foldl].
  rewrite !collect_step. cbn [app]. by rewrite <- !(assoc_L (++)).
Qed.

Lemma collect_updates_nil :
  collect_updates body = [] ↔ ∀ field, field ∈ allowedFields → supplied field = None.
Proof.
  rewrite collect_updates_entries. unfold allowedFields, entry. split.
  - intros E field Hfield.
    repeat (apply app_eq_nil in E as [E0 E];
            apply elem_of_cons in Hfield as [->|Hfield];
            [by destruct (supplied _)|clear E0]).
    apply list_elem_of_singleton in Hfield as ->. by destruct (supplied _).
  - intros Hnone.
    rewrite !Hnone; [done|rewrite !elem_of_cons; tauto..].
Qed.

(** The parameters of the statement bound, then its assignments applied to
    one row. *)
Definition run (sets : list (string * Js.Value)) (ca : CrewAssignment)
  : Error + CrewAssignment :=
  typed ← bind_crew_sets sets; apply_crew_sets ca typed.

Lemma bind_crew_sets_app l1 l2 :
  bind_crew_sets (l1 ++ l2)
  = (xs ← bind_crew_sets l1; ys ← bind_crew_sets l2; inr (xs ++ ys)).
Proof.
  induction l1 as [|[column0 v] l1 IH]; cbn.
  - by destruct (bind_crew_sets l2).
  - destruct (bind_crew_set column0 v); [done|]. cbn. rewrite IH.
    destruct (bind_crew_sets l1); [done|]. cbn.
    by destruct (bind_crew_sets l2).
Qed.

Lemma apply_crew_sets_app xs ys ca :
  apply_crew_sets ca (xs ++ ys) = (ca' ← apply_crew_sets ca xs; apply_crew_sets ca' ys).
Proof.
  revert ca. induction xs as [|x xs IH]; intros ca; cbn; [done|].
  destruct (apply_crew_set ca x); [done|]. cbn. apply IH.
Qed.

Lemma run_app l1 l2 ca ca' :
  run (l1 ++ l2) ca = inr ca' ↔ ∃ ca1, run l1 ca = inr ca1 ∧ run l2 ca1 = inr ca'.
Proof.
  unfold run. rewrite bind_crew_sets_app.
  destruct (bind_crew_sets l1) as [e|xs]; cbn.
  { split; [done|]. by intros (? & ? & ?). }
  destruct (bind_crew_sets l2) as [e|ys]; cbn.
  { split; [done|]. by intros (? & ? & ?). }
  rewrite apply_crew_sets_app.
  destruct (apply_crew_sets ca xs) as [e|ca1]; cbn.
  { split; [done|]. by intros (? & ? & ?). }
  split; [by exists ca1|]. by intros (? & [= <-] & ?).
Qed.

Lemma run_nil ca ca' : run [] ca = inr ca' ↔ ca' = ca.
Proof. cbn. split; [by intros [= <-]|by intros ->]. Qed.

(** The parameter of each column. *)
Lemma bind_crew_set_columns v :
  bind_crew_set "position_id" v = (x ← bind "uuid" uuid_in v; inr (SetPosition x))
  ∧ bind_crew_set "call_time" v = (x ← bind "time" time_in v; inr (SetCallTime x))
  ∧ bind_crew_set "end_time" v = (x ← bind "time" time_in v; inr (SetEndTime x))
  ∧ bind_crew_set "rate_override" v = (x ← bind "numeric" numeric_in v; inr (SetRate x))
  ∧ bind_crew_set "status" v = inr (SetStatus (param_text v))
  ∧ bind_crew_set "notes" v = inr (SetNotes (param_text v)).
Proof. repeat split; reflexivity. Qed.

Lemma run_one field v ca :
  run [(field, v)] ca = (x ← bind_crew_set field v; apply_crew_set ca x).
Proof.
  unfold run. cbn [bind_crew_sets]. destruct (bind_crew_set field v) as [|x]; [done|].
  cbn. by destruct (apply_crew_set ca x).
Qed.

(** One field: the row with the column changed. *)
Lemma run_position ca ca' :
  run (entry "position_id") ca = inr ca'
  ↔ ∃ x, column "position_id" "uuid" uuid_in (ca_position_id ca) = inr x
         ∧ ca' = mkCrewAssignment (ca_id ca) (ca_event_id ca) (ca_crew_member_id ca) x
                   (ca_call_time ca) (ca_end_time ca) (ca_rate_override ca)
                   (ca_status ca) (ca_notes ca) (ca_created_by ca).
Proof.
  unfold entry, column. destruct (supplied _) as [v|].
  - rewrite run_one, (proj1 (bind_crew_set_columns v)). destruct ca.
    destruct (bind "uuid" uuid_in v) as [e|x]; cbn.
    + split; [done|]. by intros (? & ? & ?).
    + split; [intros [= <-]; by exists x|]. by intros (? & [= <-] & ->).
  - rewrite run_nil. destruct ca; cbn.
    split; [intros ->; by eexists|]. by intros (? & [= <-] & ->).
Qed.

Lemma run_call_time ca ca' :
  run (entry "call_time") ca = inr ca'
  ↔ ∃ x, column "call_time" "time" time_in (ca_call_time ca) = inr x
         ∧ ca' = mkCrewAssignment (ca_id ca) (ca_event_id ca) (ca_crew_member_id ca)
                   (ca_position_id ca) x (ca_end_time ca) (ca_rate_override ca)
                   (ca_status ca) (ca_notes ca) (ca_created_by ca).
Proof.
  unfold entry, column. destruct (supplied _) as [v|].
  - rewrite run_one, (proj1 (proj2 (bind_crew_set_columns v))). destruct ca.
    destruct (bind "time" time_in v) as [e|x]; cbn.
    + split; [done|]. by intros (? & ? & ?).
    + split; [intros [= <-]; by exists x|]. by intros (? & [= <-] & ->).
  - rewrite run_nil. destruct ca; cbn.
    split; [intros ->; by eexists|]. by intros (? & [= <-] & ->).
Qed.

Lemma run_end_time ca ca' :
  run (entry "end_time") ca = inr ca'
  ↔ ∃ x, column "end_time" "time" time_in (ca_end_time ca) = inr x
         ∧ ca' = mkCrewAssignment (ca_id ca) (ca_event_id ca) (ca_crew_member_id ca)
                   (ca_position_id ca) (ca_call_time ca) x (ca_rate_override ca)
                   (ca_status ca) (ca_notes ca) (ca_created_by ca).
Proof.
  unfold entry, column. destruct (supplied _) as [v|].
  - rewrite run_one, (proj1 (proj2 (proj2 (bind_crew_set_columns v)))). destruct ca.
    destruct (bind "time" time_in v) as [e|x]; cbn.
    + split; [done|]. by intros (? & ? & ?).
    + split; [intros [= <-]; by exists x|]. by intros (? & [= <-] & ->).
  - rewrite run_nil. destruct ca; cbn.
    split; [intros ->; by eexists|]. by intros (? & [= <-] & ->).
Qed.

Lemma run_rate ca ca' :
  run (entry "rate_override") ca = inr ca'
  ↔ ∃ x, column "rate_override" "numeric" numeric_in (ca_rate_override ca) = inr x
         ∧ ca' = mkCrewAssignment (ca_id ca) (ca_event_id ca) (ca_crew_member_id ca)
                   (ca_position_id ca) (ca_call_time ca) (ca_end_time ca) x
                   (ca_status ca) (ca_notes ca) (ca_created_by ca).
Proof.
  unfold entry, column. destruct (supplied _) as [v|].
  - rewrite run_one, (proj1 (proj2 (proj2 (proj2 (bind_crew_set_columns v))))). destruct ca.
    destruct (bind "numeric" numeric_in v) as [e|x]; cbn.
    + split; [done|]. by intros (? & ? & ?).
    + split; [intros [= <-]; by exists x|]. by intros (? & [= <-] & ->).
  - rewrite run_nil. destruct ca; cbn.
    split; [intros ->; by eexists|]. by intros (? & [= <-] & ->).
Qed.

Lemma run_status ca ca' :
  run (entry "status") ca = inr ca'
  ↔ ∃ x, status_column (ca_status ca) = inr x
         ∧ ca' = mkCrewAssignment (ca_id ca) (ca_event_id ca) (ca_crew_member_id ca)
                   (ca_position_id ca) (ca_call_time ca) (ca_end_time ca)
                   (ca_rate_override ca) x (ca_notes ca) (ca_created_by ca).
Proof.
  unfold entry, status_column. destruct (supplied _) as [v|].
  - rewrite run_one, (proj1 (proj2 (proj2 (proj2 (proj2 (bind_crew_set_columns v)))))). destruct ca. cbn.
    destruct (param_text v) as [text|]; cbn.
    + destruct (status_in text) as [st|]; cbn.
      * split; [intros [= <-]; by eexists|]. by intros (? & [= <-] & ->).
      * split; [done|]. by intros (? & ? & ?).
    + split; [intros [= <-]; by eexists|]. by intros (? & [= <-] & ->).
  - rewrite run_nil. destruct ca; cbn.
    split; [intros ->; by eexists|]. by intros (? & [= <-] & ->).
Qed.

Lemma run_notes ca ca' :
  run (entry "notes") ca = inr ca'
  ↔ ca' = mkCrewAssignment (ca_id ca) (ca_event_id ca) (ca_crew_member_id ca)
            (ca_position_id ca) (ca_call_time ca) (ca_end_time ca)
            (ca_rate_override ca) (ca_status ca) (text_column "notes" (ca_notes ca))
            (ca_created_by ca).
Proof.
  unfold entry, text_column. destruct (supplied _) as [v|].
  - rewrite run_one, (proj2 (proj2 (proj2 (proj2 (proj2 (bind_crew_set_columns v)))))). destruct ca. cbn.
    split; [by intros [= <-]|by intros ->].
  - rewrite run_nil. by destruct ca.
Qed.

(** The statement changes a row to what the specification says of each
    column. *)
Lemma run_updated ca ca' :
  run (collect_updates body) ca = inr ca' ↔ updated ca = inr ca'.
Proof.
  rewrite collect_updates_entries. unfold updated. split.
  - intros (c1 & (x1 & H1 & ->)%run_position
            & (c2 & (x2 & H2 & ->)%run_call_time
               & (c3 & (x3 & H3 & ->)%run_end_time
                  & (c4 & (x4 & H4 & ->)%run_rate
                     & (c5 & (x5 & H5 & ->)%run_status
                        & ->%run_notes)%run_app)%run_app)%run_app)%run_app)%run_app.
    cbn in *. by rewrite H1, H2, H3, H4, H5.
  - destruct (column "position_id" _ _ _) as [|x1] eqn:H1; [done|].
    destruct (column "call_time" _ _ _) as [|x2] eqn:H2; [done|].
    destruct (column "end_time" _ _ _) as [|x3] eqn:H3; [done|].
    destruct (column "rate_override" _ _ _) as [|x4] eqn:H4; [done|].
    destruct (status_column _) as [|x5] eqn:H5; [done|]. cbn. intros [= <-].
    apply run_app. eexists. split; [apply run_position; by eexists|].
    apply run_app. eexists. split; [apply run_call_time; by eexists|].
    apply run_app. eexists. split; [apply run_end_time; by eexists|].
    apply run_app. eexists. split; [apply run_rate; by eexists|].
    apply run_app. eexists. split; [apply run_status; by eexists|].
    by apply run_notes.
Qed.

(** The foreign key on [position_id] after an update: the position is the
    one the row had, or one that exists. *)
Definition position_ok (s : Store) (old new : CrewAssignment) : Prop :=
  ∀ p, ca_position_id new = Some p →
       ca_position_id old = Some p ∨ references p_id (positions s) p = true.

(** A row of the table after [PUT /crew/:id] with key [key]: the row the
    key names is updated, the others are as they were. *)
Definition row_after (s : Store) (key : Uuid) (ca ca' : CrewAssignment) : Prop :=
  if decide (ca_id ca = key) then updated ca = inr ca' ∧ position_ok s ca ca'
  else ca' = ca.

(** Every supplied value converts to the type of its column. *)
Definition well_typed : Prop :=
  (∃ x, column "position_id" "uuid" uuid_in None = inr x)
  ∧ (∃ x, column "call_time" "time" time_in None = inr x)
  ∧ (∃ x, column "end_time" "time" time_in None = inr x)
  ∧ (∃ x, column "rate_override" "numeric" numeric_in None = inr x).

Lemma position_key_after_update_spec s old new ca :
  position_key_after_update s old new = inr ca ↔ ca = new ∧ position_ok s old new.
Proof.
  unfold position_key_after_update, position_ok.
  destruct (ca_position_id new) as [p|].
  - destruct (bool_decide _ || references _ _ _) eqn:E.
    + split; [|by intros [-> _]]. intros [= <-]. split; [done|]. intros ? [= <-].
      apply orb_true_iff in E as [E|E]; [left; by apply bool_decide_eq_true in E|by right].
    + split; [done|]. intros [_ Hok]. apply orb_false_iff in E as [E1 E2].
      apply bool_decide_eq_false in E1. destruct (Hok p eq_refl); [done|congruence].
  - split; [by intros [= <-]|by intros [-> _]].
Qed.

Lemma bind_crew_sets_well_typed :
  well_typed ↔ ∃ typed, bind_crew_sets (collect_updates body) = inr typed.
Proof.
  rewrite collect_updates_entries, !bind_crew_sets_app.
  unfold well_typed, column, entry.
  destruct (supplied "position_id") as [v1|], (supplied "call_time") as [v2|],
    (supplied "end_time") as [v3|], (supplied "rate_override") as [v4|],
    (supplied "status") as [v5|], (supplied "notes") as [v6|];
    cbn [bind_crew_sets];
    rewrite ?(proj1 (bind_crew_set_columns _)),
      ?(proj1 (proj2 (bind_crew_set_columns _))),
      ?(proj1 (proj2 (proj2 (bind_crew_set_columns _)))),
      ?(proj1 (proj2 (proj2 (proj2 (bind_crew_set_columns _))))),
      ?(proj1 (proj2 (proj2 (proj2 (proj2 (bind_crew_set_columns _)))))),
      ?(proj2 (proj2 (proj2 (proj2 (proj2 (bind_crew_set_columns _))))));
    repeat match goal with
           | |- context [bind ?type ?input ?v] => destruct (bind type input v)
           end; cbn;
    (split; [intros ([? ?] & [? ?] & [? ?] & [? ?]); simplify_eq; by eexists
            |intros [? ?]; simplify_eq; repeat split; by eexists]).
Qed.

Lemma update_crew_rows_spec s typed key rows rows' :
  update_crew_rows s typed key rows = inr rows'
  ↔ Forall2 (λ ca ca',
               if decide (ca_id ca = key)
               then ∃ new, apply_crew_sets ca typed = inr new
                           ∧ position_key_after_update s ca new = inr ca'
               else ca' = ca) rows rows'.
Proof.
  revert rows'. induction rows as [|ca rows IH]; intros rows'; cbn.
  - split; [intros [= <-]; constructor|by intros ->%Forall2_nil_inv_l].
  - split.
    + destruct (decide (ca_id ca = key)) as [E|E] eqn:Hdec.
      * destruct (apply_crew_sets ca typed) as [|new] eqn:Hnew; [done|]. cbn.
        destruct (position_key_after_update s ca new) as [|ca'] eqn:Hkey; [done|]. cbn.
        destruct (update_crew_rows s typed key rows) as [|rest]; [done|]. cbn.
        intros [= <-]. constructor; [|by apply IH]. rewrite Hdec. by exists new.
      * cbn. destruct (update_crew_rows s typed key rows) as [|rest]; [done|]. cbn.
        intros [= <-]. constructor; [|by apply IH]. by rewrite Hdec.
    + intros (ca' & rest & Hrow & Hrest%IH & ->)%Forall2_cons_inv_l.
      rewrite Hrest. destruct (decide (ca_id ca = key)).
      * destruct Hrow as (new & -> & Hkey). cbn. by rewrite Hkey.
      * by rewrite Hrow.
Qed.

Lemma rows_after typed s key rows rows' :
  bind_crew_sets (collect_updates body) = inr typed →
  update_crew_rows s typed key rows = inr rows' ↔ Forall2 (row_after s key) rows rows'.
Proof.
  intros Hbind. rewrite update_crew_rows_spec.
  assert (∀ ca new, apply_crew_sets ca typed = inr new ↔ updated ca = inr new) as Hrun.
  { intros ca new. rewrite <- run_updated. unfold run. by rewrite Hbind. }
  split; intros HF; (eapply Forall2_impl; [exact HF|]); intros ca ca'; unfold row_after;
    destruct (decide (ca_id ca = key)); try done.
  - intros (new & Hnew%Hrun & [-> Hok]%position_key_after_update_spec). done.
  - intros [Hnew%Hrun Hok]. exists ca'. split; [done|].
    by apply position_key_after_update_spec.
Qed.

Lemma Forall2_choose {A B : Type} (R : A → B → Prop) (l : list A) :
  (∀ x, x ∈ l → ∃ y, R x y) → ∃ k, Forall2 R l k.
Proof.
  induction l as [|x l IH]; intros Hall; [by exists []|].
  destruct (Hall x) as [y Hy]; [apply elem_of_cons; by left|].
  destruct IH as [k Hk]; [intros z Hz; apply Hall, elem_of_cons; by right|].
  exists (y :: k). by constructor.
Qed.

Lemma row_after_id s key rows rows' :
  Forall2 (row_after s key) rows rows' → ca_id <$> rows' = ca_id <$> rows.
Proof.
  induction 1 as [|ca ca' rows rows' Hrow _ IH]; [done|].
  rewrite !fmap_cons, IH. f_equal. unfold row_after in Hrow.
  destruct (decide (ca_id ca = key)); [|by subst].
  destruct Hrow as [Hrow _]. unfold updated in Hrow.
  repeat (match type of Hrow with
          | (?m ≫= _) = _ => destruct m; [done|]; cbn in Hrow
          end).
  by simplify_eq.
Qed.

(** No row has the key: the statement changes nothing. *)
Lemma row_after_none s key rows rows' :
  (∀ ca, ca ∈ rows → ca_id ca ≠ key) →
  Forall2 (row_after s key) rows rows' → rows' = rows.
Proof.
  intros Hnone. induction 1 as [|ca ca' rows rows' Hrow _ IH]; [done|].
  unfold row_after in Hrow. rewrite decide_False in Hrow
      by (apply Hnone, elem_of_cons; by left).
  rewrite Hrow, IH; [done|]. intros ? ?. apply Hnone, elem_of_cons. by right.
Qed.

Lemma with_crew_assignments_same s : with_crew_assignments s (crew_assignments s) = s.
Proof. by destruct s. Qed.

Lemma filter_key_nil (key : Uuid) rows :
  filter (λ ca, ca_id ca = key) rows = [] ↔ ∀ ca, ca ∈ rows → ca_id ca ≠ key.
Proof.
  split.
  - intros E ca Hca Hkey.
    assert (ca ∈ filter (λ ca, ca_id ca = key) rows) as Hin
      by (by apply list_elem_of_filter).
    rewrite E in Hin. by apply elem_of_nil in Hin.
  - intros Hnone. induction rows as [|ca rows IH]; [done|].
    rewrite filter_cons_False by (apply Hnone, elem_of_cons; by left).
    apply IH. intros ? ?. apply Hnone, elem_of_cons. by right.
Qed.

Lemma update_reply s id :
  collect_updates body ≠ [] →
  updateCrewAssignment s id body
  = match update_crew s (collect_updates body) id with
    | inr (s', []) => (s', Fail 404 "Assignment not found")
    | inr (s', row :: _) => (s', Send 200 (head (select_crew_view s' (ca_id row))))
    | inl error => (s, errorHandler (DbError error))
    end.
Proof. unfold updateCrewAssignment. by destruct (collect_updates body). Qed.

Lemma some_supplied :
  (∃ field, field ∈ allowedFields ∧ supplied field ≠ None) → collect_updates body ≠ [].
Proof. intros (field & Hfield & Hsome) Hnil. by eapply Hsome, collect_updates_nil. Qed.

Lemma update_crew_bound s id typed key :
  bind_crew_sets (collect_updates body) = inr typed →
  bind_uuid id = inr (Some key) →
  update_crew s (collect_updates body) id
  = (rows ← update_crew_rows s typed key (crew_assignments s);
     inr (with_crew_assignments s rows, filter (λ ca, ca_id ca = key) rows)).
Proof. intros Hbind Hkey. unfold update_crew. by rewrite Hbind, Hkey. Qed.

(** No fields: 400, and the store is as it was. *)
Lemma update_nothing s id :
  (∀ field, field ∈ allowedFields → supplied field = None) →
  updateCrewAssignment s id body = (s, Fail 400 "No updates provided").
Proof.
  intros Hnone%collect_updates_nil. unfold updateCrewAssignment. by rewrite Hnone.
Qed.

(** No row with the identifier: 404, and the store is as it was. *)
Lemma update_not_found s id key :
  (∃ field, field ∈ allowedFields ∧ supplied field ≠ None) →
  well_typed → bind_uuid id = inr key →
  (∀ ca, ca ∈ crew_assignments s → Some (ca_id ca) ≠ key) →
  updateCrewAssignment s id body = (s, Fail 404 "Assignment not found").
Proof.
  intros Hsome%some_supplied [typed Hbind]%bind_crew_sets_well_typed Hkey Hnone.
  rewrite update_reply by done. destruct key as [key|].
  - assert (∀ ca, ca ∈ crew_assignments s → ca_id ca ≠ key) as Hnone'
        by (intros ca Hca E; apply (Hnone ca Hca); by rewrite E).
    rewrite (update_crew_bound s id typed key) by done.
    assert (update_crew_rows s typed key (crew_assignments s) = inr (crew_assignments s))
      as ->.
    { apply rows_after; [done|]. apply Forall2_same_length_lookup_2; [done|].
      intros i ca ca' Hi Hi'. unfold row_after.
      rewrite decide_False by (by eapply Hnone', list_elem_of_lookup_2). congruence. }
    cbn. rewrite (proj2 (filter_key_nil key _)) by done.
    by rewrite with_crew_assignments_same.
  - unfold update_crew. by rewrite Hbind, Hkey.
Qed.

(** A row with the identifier, values that convert, a position that
    exists: 200, and the table is rewritten row by row. *)
Lemma update_applied s id key :
  (∃ field, field ∈ allowedFields ∧ supplied field ≠ None) →
  bind_uuid id = inr (Some key) →
  (∃ ca, ca ∈ crew_assignments s ∧ ca_id ca = key) →
  (∀ ca, ca ∈ crew_assignments s → ca_id ca = key →
         ∃ ca', updated ca = inr ca' ∧ position_ok s ca ca') →
  ∃ s',
    updateCrewAssignment s id body = (s', Send 200 (head (select_crew_view s' key)))
    ∧ same_catalog s s'
    ∧ Forall2 (row_after s key) (crew_assignments s) (crew_assignments s').
Proof.
  intros Hsome%some_supplied Hkey (ca & Hca & Hid) Hrows.
  destruct (Hrows ca Hca Hid) as (ca1 & Hca1%run_updated & _).
  unfold run in Hca1.
  destruct (bind_crew_sets (collect_updates body)) as [|typed] eqn:Hbind; [done|].
  clear Hca1.
  destruct (Forall2_choose (row_after s key) (crew_assignments s)) as [rows' Hall].
  { intros x Hx. unfold row_after. destruct (decide (ca_id x = key)) as [E|E].
    - by apply Hrows.
    - by exists x. }
  exists (with_crew_assignments s rows').
  rewrite update_reply by done. rewrite (update_crew_bound s id typed key) by done.
  rewrite (proj2 (rows_after typed s key _ rows' Hbind) Hall). cbn [mbind result_bind].
  destruct (filter (λ ca, ca_id ca = key) rows') as [|row rest] eqn:Hrow.
  - exfalso. assert (key ∈ ca_id <$> rows') as (ca' & E & Hca')%list_elem_of_fmap.
    { rewrite (row_after_id s key _ _ Hall). apply list_elem_of_fmap. by exists ca. }
    by apply (proj1 (filter_key_nil key rows') Hrow ca').
  - assert (row ∈ filter (λ ca, ca_id ca = key) rows') as [-> _]%list_elem_of_filter
        by (rewrite Hrow; apply elem_of_cons; by left).
    split; [done|]. split; [|done]. apply same_catalog_with, same_catalog_refl.
Qed.

(** A request that is refused leaves the store as it was. *)
Lemma update_refused s id s' status text :
  updateCrewAssignment s id body = (s', Fail status text) → s' = s.
Proof.
  destruct (decide (collect_updates body = [])) as [Hnil|Hsome].
  { unfold updateCrewAssignment. rewrite Hnil. by intros [= <-]. }
  rewrite update_reply by done.
  destruct (update_crew s _ id) as [error|[s1 [|row rest]]] eqn:E;
    [by intros [= <-]| |done].
  intros [= <- _ _]. unfold update_crew in E.
  destruct (bind_crew_sets (collect_updates body)) as [|typed] eqn:Hbind; [done|].
  cbn [mbind result_bind] in E.
  destruct (bind_uuid id) as [|[key|]]; [done|..]; cbn [mbind result_bind] in E;
    [|by simplify_eq].
  destruct (update_crew_rows s typed key _) as [|rows'] eqn:Hrows; [done|].
  cbn [mbind result_bind] in E. injection E as <- Hnone.
  apply (rows_after typed) in Hrows; [|done].
  rewrite (row_after_none s key (crew_assignments s) rows');
    [apply with_crew_assignments_same| |done].
  intros ca Hca Hkey. rewrite filter_key_nil in Hnone.
  assert (key ∈ ca_id <$> rows') as (ca' & E & Hca')%list_elem_of_fmap.
  { rewrite (row_after_id s key _ _ Hrows). apply list_elem_of_fmap. by exists ca. }
  by apply (Hnone ca').
Qed.

End Update.

(** C9. [PUT /crew/:id] with none of the six fields answers 400 "No updates
    provided" and leaves the store as it was, whatever the identifier.
    With some field, values that convert to the types of their columns and
    an identifier that names no row, it answers 404 "Assignment not found"
    and leaves the store as it was.  With some field and an identifier that
    names a row, it answers 200 and the table is the old one with that row
    changed column by column: a column whose field is omitted keeps its
    value, a column whose field is the empty string becomes null, a column
    with a value takes it; the other rows and tables are as they were.  A
    request that is refused never changes the store. *)
Theorem update_applies_supplied_fields `{!Conversions} (s : Store) (id : string)
    (body : gmap string Js.Value) :
  ((∀ field, field ∈ allowedFields → supplied body field = None) →
   updateCrewAssignment s id body = (s, Fail 400 "No updates provided"))
  ∧ (∀ key,
       (∃ field, field ∈ allowedFields ∧ supplied body field ≠ None) →
       well_typed body → bind_uuid id = inr key →
       (∀ ca, ca ∈ crew_assignments s → Some (ca_id ca) ≠ key) →
       updateCrewAssignment s id body = (s, Fail 404 "Assignment not found"))
  ∧ (∀ key,
       (∃ field, field ∈ allowedFields ∧ supplied body field ≠ None) →
       bind_uuid id = inr (Some key) →
       (∃ ca, ca ∈ crew_assignments s ∧ ca_id ca = key) →
       (∀ ca, ca ∈ crew_assignments s → ca_id ca = key →
              ∃ ca', updated body ca = inr ca' ∧ position_ok s ca ca') →
       ∃ s',
         updateCrewAssignment s id body
         = (s', Send 200 (head (select_crew_view s' key)))
         ∧ same_catalog s s'
         ∧ Forall2 (row_after body s key) (crew_assignments s) (crew_assignments s'))
  ∧ (∀ A field type input (old : option A),
       (Js.get body field = Js.Undefined → column body field type input old = inr old)
       ∧ (Js.get body field = Js.Str "" → column body field type input old = inr None))
  ∧ (∀ field old,
       (Js.get body field = Js.Undefined → text_column body field old = old)
       ∧ (Js.get body field = Js.Str "" → text_column body field old = None))
  ∧ (∀ old,
       (Js.get body "status" = Js.Undefined → status_column body old = inr old)
       ∧ (Js.get body "status" = Js.Str "" → status_column body old = inr None))
  ∧ (∀ s' status text,
       updateCrewAssignment s id body = (s', Fail status text) → s' = s).
Proof.
  split; [apply update_nothing|]. split; [apply update_not_found|].
  split; [apply update_applied|].
  unfold text_column, status_column, column, supplied.
  split; [intros A field type input old; split; by intros ->|].
  split; [intros field old; split; by intros ->|].
  split; [intros old; split; by intros ->|apply update_refused].
Qed.

(** A request that moves the call time to 09:30 and clears the rate. *)
Definition reschedule : gmap string Js.Value :=
  <["call_time" := Js.Str "09:30"]> (<["rate_override" := Js.Str ""]> ∅).

(** On the sample store, the assignment of Ann to the Gala loses its
    override and gets its call time; the rest of the row stays. *)
Example reschedule_ann :
  (updateCrewAssignment Sample.booked "1" reschedule).1
  = with_crew_assignments Sample.booked
      [mkCrewAssignment 1 1 1 None (Some (mkTime 9 30 0)) None None (Some pending)
                        None (Some 9%N)].
Proof. by vm_compute. Qed.

Lemma update_applies_supplied_fields_witness :
  ∃ s',
    updateCrewAssignment Sample.booked "1" reschedule
    = (s', Send 200 (head (select_crew_view s' 1)))
    ∧ same_catalog Sample.booked s'
    ∧ Forall2 (row_after reschedule Sample.booked 1)
              (crew_assignments Sample.booked) (crew_assignments s').
Proof.
  apply (proj1 (proj2 (proj2
           (update_applies_supplied_fields Sample.booked "1" reschedule))) 1%N).
  - exists "call_time"%string. split; [|by vm_compute].
    apply elem_of_cons. right. apply elem_of_cons. by left.
  - by vm_compute.
  - eexists. split; [apply elem_of_cons; by left|done].
  - intros ca [->|[]%elem_of_nil]%elem_of_cons _.
    eexists. split; [by vm_compute|]. intros p. by vm_compute.
Defined.

End AssignmentFacts.

(** ** Availability *)

Module AvailabilityFacts.
Import Db Assignments.

(** *** The order of the rows *)

#[local] Instance nulls_last_total {A : Type} (le : relation A) `{!Total le} :
  Total (nulls_last le).
Proof.
  intros [x|] [y|]; unfold nulls_last.
  - apply (total le).
  - by left.
  - by right.
  - by left.
Qed.

#[local] Instance nulls_last_trans {A : Type} (le : relation A) `{!Transitive le} :
  Transitive (nulls_last le).
Proof. intros [x|] [y|] [z|]; cbn; try done. apply transitivity. Qed.

#[local] Instance then_by_total {R K1 K2 : Type} (k1 : R → K1) (le1 : relation K1)
    (k2 : R → K2) (le2 : relation K2)
    `{!RelDecision le1, !Total le1, !Total le2} :
  Total (then_by k1 le1 k2 le2).
Proof.
  intros a b. unfold then_by.
  destruct (decide (le1 (k1 b) (k1 a))) as [Hba|Hba]; [|by left; left].
  destruct (decide (le1 (k1 a) (k1 b))) as [Hab|Hab]; [|by right; left].
  destruct (total le2 (k2 a) (k2 b)); [left|right]; by right.
Qed.

#[local] Instance then_by_trans {R K1 K2 : Type} (k1 : R → K1) (le1 : relation K1)
    (k2 : R → K2) (le2 : relation K2)
    `{!Total le1, !Transitive le1, !Transitive le2} :
  Transitive (then_by k1 le1 k2 le2).
Proof.
  intros a b c [Hab|[Hab Hab2]] [Hbc|[Hbc Hbc2]]; unfold then_by.
  - left. intros Hca. apply Hbc. transitivity (k1 a); [done|].
    by destruct (total le1 (k1 a) (k1 b)).
  - left. intros Hca. apply Hab. by transitivity (k1 c).
  - left. intros Hca. apply Hbc. by transitivity (k1 a).
  - right. split; [by transitivity (k1 b)|by transitivity (k2 b)].
Qed.

(** *** Objects read and written by key *)

Section Objects.
Context {K V : Type} `{EqDecision K}.
Implicit Types (o : list (K * V)) (k : K) (v : V).

Lemma obj_get_snoc o k v k' :
  Js.obj_get (o ++ [(k, v)]) k'
  = match Js.obj_get o k' with
    | Some x => Some x
    | None => if decide (k = k') then Some v else None
    end.
Proof.
  induction o as [|[k0 v0] o IH]; cbn; [done|].
  by destruct (decide (k0 = k')).
Qed.

Lemma obj_get_alter f o k k' :
  Js.obj_get (Js.obj_alter f k o) k'
  = if decide (k' = k) then f <$> Js.obj_get o k' else Js.obj_get o k'.
Proof.
  induction o as [|[k0 v0] o IH]; cbn; [by destruct (decide _)|].
  destruct (decide (k0 = k)) as [->|Hk0]; cbn.
  - destruct (decide (k = k')) as [->|]; [by rewrite decide_True|].
    by rewrite decide_False by done.
  - destruct (decide (k0 = k')) as [->|]; [by rewrite decide_False|done].
Qed.

Lemma obj_alter_keys f o k : (Js.obj_alter f k o).*1 = o.*1.
Proof.
  induction o as [|[k0 v0] o IH]; cbn; [done|].
  destruct (decide (k0 = k)); cbn; [done|]. by rewrite IH.
Qed.

Lemma obj_get_None o k : Js.obj_get o k = None ↔ k ∉ o.*1.
Proof.
  induction o as [|[k0 v0] o IH]; cbn.
  - split; [intros _; apply not_elem_of_nil|done].
  - rewrite not_elem_of_cons. destruct (decide (k0 = k)) as [->|]; [by split; [|intros []]|].
    rewrite IH. split; [by split|by intros []].
Qed.

Lemma obj_get_elem o k v : NoDup o.*1 → (k, v) ∈ o → Js.obj_get o k = Some v.
Proof.
  induction o as [|[k0 v0] o IH]; cbn; [by intros _ ?%elem_of_nil|].
  intros [Hk0 Hnodup]%NoDup_cons [[= -> ->]|Hin]%elem_of_cons.
  - by rewrite decide_True.
  - rewrite decide_False; [by apply IH|]. intros ->. apply Hk0.
    apply list_elem_of_fmap. by exists (k, v).
Qed.

End Objects.

(** *** The grouping loop *)

(** The entry of a member after the rows [rows]: none when no row is the
    member's, otherwise the name of the first such row and the events of
    all of them, in their order. *)
Definition entry_of (rows : list AvailabilityRow) (k : Uuid) : option Availability :=
  match filter (λ r, ar_id r = k) rows with
  | [] => None
  | r :: rs => Some (mkAvailability k (ar_name r) (omap ar_event (r :: rs)))
  end.

Lemma entry_of_id rows k entry : entry_of rows k = Some entry → av_id entry = k.
Proof. unfold entry_of. destruct (filter _ rows); [done|]. by intros [= <-]. Qed.

Lemma entry_of_snoc rows row k :
  entry_of (rows ++ [row]) k
  = if decide (ar_id row = k)
    then Some (match entry_of rows k with
               | Some entry =>
                   mkAvailability k (av_name entry)
                     (av_assignments entry ++ omap ar_event [row])
               | None => mkAvailability k (ar_name row) (omap ar_event [row])
               end)
    else entry_of rows k.
Proof.
  unfold entry_of. rewrite filter_app, filter_cons, filter_nil.
  destruct (decide (ar_id row = k)) as [E|E]; [|by rewrite app_nil_r].
  destruct (filter _ rows) as [|r rs]; [done|].
  cbn [app av_name av_assignments]. by rewrite <- omap_app.
Qed.

Lemma availability_step_invariant acc rows row :
  NoDup acc.*1 → (∀ k, Js.obj_get acc k = entry_of rows k) →
  NoDup (availability_step acc row).*1
  ∧ ∀ k, Js.obj_get (availability_step acc row) k = entry_of (rows ++ [row]) k.
Proof.
  intros Hnodup Hget. unfold availability_step.
  set (acc1 := match Js.obj_get acc (ar_id row) with
               | None => acc ++ [(ar_id row, mkAvailability (ar_id row) (ar_name row) [])]
               | Some _ => acc
               end).
  assert (NoDup acc1.*1
          ∧ ∀ k, Js.obj_get acc1 k
                 = if decide (ar_id row = k)
                   then Some (default (mkAvailability k (ar_name row) [])
                                      (entry_of rows k))
                   else entry_of rows k) as [Hnodup1 Hget1].
  { unfold acc1. destruct (Js.obj_get acc (ar_id row)) as [entry|] eqn:E.
    - split; [done|]. intros k. rewrite Hget.
      destruct (decide (ar_id row = k)) as [<-|]; [|done].
      by rewrite <- Hget, E.
    - split.
      + rewrite fmap_app. apply AssignmentFacts.NoDup_snoc; [done|].
        by apply obj_get_None.
      + intros k. rewrite obj_get_snoc, Hget.
        destruct (decide (ar_id row = k)) as [<-|]; [|by destruct (entry_of rows k)].
        by rewrite <- Hget, E. }
  clearbody acc1. split.
  - destruct (ar_event row); [by rewrite obj_alter_keys|done].
  - intros k. rewrite entry_of_snoc. destruct (ar_event row) as [a|] eqn:Ea.
    + rewrite obj_get_alter, Hget1. cbn [omap list_omap]. rewrite Ea.
      destruct (decide (k = ar_id row)) as [->|Hk].
      * rewrite !decide_True by done.
        destruct (entry_of rows (ar_id row)) as [entry|] eqn:E; cbn; [|done].
        unfold push_assignment. by rewrite (entry_of_id _ _ _ E).
      * by rewrite !decide_False by done.
    + rewrite Hget1. cbn [omap list_omap]. rewrite Ea.
      destruct (decide (ar_id row = k)) as [<-|]; [|done].
      destruct (entry_of rows (ar_id row)) as [[i n l]|] eqn:E; cbn; [|done].
      rewrite app_nil_r. unfold entry_of in E.
      destruct (filter _ rows); by simplify_eq.
Qed.

Lemma group_invariant rows :
  NoDup (foldl availability_step [] rows).*1
  ∧ ∀ k, Js.obj_get (foldl availability_step [] rows) k = entry_of rows k.
Proof.
  induction rows as [|row rows [IH1 IH2]] using rev_ind.
  - split; [constructor|done].
  - rewrite foldl_snoc. by apply availability_step_invariant.
Qed.

(** The entries the route sends, read off the rows. *)
Lemma grouped_entries rows :
  let entries := Js.obj_values (foldl availability_step [] rows) in
  NoDup (av_id <$> entries)
  ∧ (∀ k, k ∈ av_id <$> entries ↔ k ∈ ar_id <$> rows)
  ∧ ∀ entry, entry ∈ entries →
      ∃ r rs, filter (λ r, ar_id r = av_id entry) rows = r :: rs
              ∧ av_name entry = ar_name r
              ∧ av_assignments entry = omap ar_event (r :: rs).
Proof.
  destruct (group_invariant rows) as [Hnodup Hget].
  set (acc := foldl availability_step [] rows) in *. cbv zeta. unfold Js.obj_values.
  assert (∀ k entry, (k, entry) ∈ acc → entry_of rows k = Some entry) as Hin.
  { intros k entry Hk. rewrite <- Hget. by apply obj_get_elem. }
  assert (av_id <$> acc.*2 = acc.*1) as Hids.
  { rewrite <- list_fmap_compose. apply list_fmap_ext. intros i [k entry] Hi.
    apply list_elem_of_lookup_2, Hin in Hi. unfold entry_of in Hi. cbn.
    destruct (filter _ rows); by simplify_eq. }
  rewrite Hids. split; [done|]. split.
  - intros k. transitivity (Js.obj_get acc k ≠ None).
    { split.
      - intros Hk Hnone%obj_get_None. by apply Hnone.
      - intros Hk. destruct (decide (k ∈ acc.*1)) as [|Hnot]; [done|].
        by apply obj_get_None in Hnot. }
    rewrite Hget, list_elem_of_fmap. unfold entry_of. split.
    + destruct (filter _ rows) as [|r rs] eqn:E; [done|]. intros _.
      assert (r ∈ filter (λ r, ar_id r = k) rows) as [? ?]%list_elem_of_filter
          by (rewrite E; apply elem_of_cons; by left).
      by exists r.
    + intros (r & -> & Hr).
      assert (r ∈ filter (λ r', ar_id r' = ar_id r) rows) as Hin'
          by (by apply list_elem_of_filter).
      by destruct (filter _ rows); [apply elem_of_nil in Hin'|].
  - intros entry ([k entry'] & -> & Hk%Hin)%list_elem_of_fmap. cbn.
    unfold entry_of in Hk. destruct (filter _ rows) as [|r rs] eqn:E; [done|].
    injection Hk as <-. cbn. by exists r, rs.
Qed.

(** *** The query *)

Lemma filter_all {A : Type} (P : A → Prop) `{!∀ x, Decision (P x)} (l : list A) :
  (∀ x, x ∈ l → P x) → filter P l = l.
Proof.
  induction l as [|x l IH]; intros Hall; [done|].
  rewrite filter_cons_True by (apply Hall, elem_of_cons; by left).
  rewrite IH; [done|]. intros y Hy. apply Hall, elem_of_cons. by right.
Qed.

Lemma filter_none {A : Type} (P : A → Prop) `{!∀ x, Decision (P x)} (l : list A) :
  (∀ x, x ∈ l → ¬ P x) → filter P l = [].
Proof.
  induction l as [|x l IH]; intros Hnone; [done|].
  rewrite filter_cons_False by (apply Hnone, elem_of_cons; by left).
  apply IH. intros y Hy. apply Hnone, elem_of_cons. by right.
Qed.

Lemma omap_bind {A B C : Type} (f : B → option C) (g : A → list B) (l : list A) :
  omap f (l ≫= g) = l ≫= (λ x, omap f (g x)).
Proof.
  induction l as [|x l IH]; [done|]. by rewrite !bind_cons, omap_app, IH.
Qed.

Lemma StronglySorted_filter {A : Type} (R : relation A) (P : A → Prop)
    `{!∀ x, Decision (P x)} (l : list A) :
  StronglySorted R l → StronglySorted R (filter P l).
Proof.
  induction 1 as [|x l Hl IH Hx]; [constructor|].
  rewrite filter_cons. destruct (decide (P x)); [|done].
  constructor; [done|]. rewrite Forall_forall in Hx. apply Forall_forall.
  intros y [_ Hy]%list_elem_of_filter. by apply Hx.
Qed.

Section Query.
Context `{!Conversions, !Collation}.
Context (s : Store) (d1 d2 : Date).

(** The rows of one crew member in the join. *)
Definition member_rows (cm : CrewMember) : list AvailabilityRow :=
  left_join (filter (λ ca, cm_id cm = ca_crew_member_id ca) (crew_assignments s))
    (λ ca,
       left_join
         (match ca with
          | Some ca =>
              filter (λ e, ca_event_id ca = e_id e
                           ∧ between (e_event_date e) (Some d1) (Some d2))
                     (events s)
          | None => []
          end)
         (λ e, if is_true (cm_is_active cm)
               then [mkAvailabilityRow (cm_id cm) (cm_name cm)
                       ((λ e, (e_event_date e, e_name e)) <$> e)]
               else [])).

Lemma select_availability_members :
  select_availability s (Some d1) (Some d2)
  = merge_sort availability_order (crew_members s ≫= member_rows).
Proof. reflexivity. Qed.

(** The assignments of a crew member whose event is dated within
    [[d1, d2]], as (date, event name) pairs. *)
Definition assignments_in_range (crew : Uuid) : list (Date * string) :=
  ca ← filter (λ ca, ca_crew_member_id ca = crew) (crew_assignments s);
  e ← filter (λ e, e_id e = ca_event_id ca ∧ d1 ≤ e_event_date e ≤ d2) (events s);
  [(e_event_date e, e_name e)].

Lemma member_rows_key cm r :
  r ∈ member_rows cm →
  ar_id r = cm_id cm ∧ ar_name r = cm_name cm ∧ is_true (cm_is_active cm) = true.
Proof.
  unfold member_rows. rewrite ReportFacts.elem_of_left_join.
  intros [[_ Hr]|(ca & _ & Hr)]; apply ReportFacts.elem_of_left_join in Hr;
    destruct Hr as [[_ Hr]|(e & _ & Hr)];
    destruct (is_true (cm_is_active cm)); try (by apply elem_of_nil in Hr);
    by apply list_elem_of_singleton in Hr as ->.
Qed.

Lemma member_rows_nonempty cm :
  is_true (cm_is_active cm) = true → ∃ r, r ∈ member_rows cm.
Proof.
  intros Hactive. unfold member_rows. rewrite Hactive.
  destruct (filter _ (crew_assignments s)) as [|ca cas]; cbn [left_join].
  - eexists. apply elem_of_cons. by left.
  - rewrite bind_cons. cbn [left_join].
    destruct (filter _ (events s)) as [|e es].
    + eexists. apply elem_of_app. left. apply elem_of_cons. by left.
    + eexists. apply elem_of_app. left. cbn [left_join]. rewrite bind_cons.
      apply elem_of_cons. by left.
Qed.

Lemma member_rows_events cm :
  is_true (cm_is_active cm) = true →
  omap ar_event (member_rows cm) = assignments_in_range (cm_id cm).
Proof.
  intros Hactive. unfold member_rows, assignments_in_range. rewrite Hactive.
  rewrite (list_filter_iff (λ ca, ca_crew_member_id ca = cm_id cm)
                           (λ ca, cm_id cm = ca_crew_member_id ca)) by done.
  destruct (filter _ (crew_assignments s)) as [|ca0 cas]; [done|].
  cbn [left_join]. rewrite omap_bind. apply list_bind_ext; [|done]. intros ca.
  rewrite (list_filter_iff (λ e, e_id e = ca_event_id ca ∧ d1 ≤ e_event_date e ≤ d2)
             (λ e, ca_event_id ca = e_id e
                   ∧ between (e_event_date e) (Some d1) (Some d2)))
    by (intros e; cbn; split; intros [? ?]; by split).
  destruct (filter _ (events s)) as [|e0 es]; [done|].
  cbn [left_join]. rewrite omap_bind. by apply list_bind_ext.
Qed.

(** The rows with an identifier are the rows of the members with it. *)
Lemma members_filter (l : list CrewMember) k :
  filter (λ r, ar_id r = k) (l ≫= member_rows)
  = filter (λ c, cm_id c = k) l ≫= member_rows.
Proof.
  induction l as [|c l IH]; [done|].
  rewrite bind_cons, filter_app, IH, filter_cons.
  destruct (decide (cm_id c = k)) as [E|E].
  - rewrite bind_cons. f_equal. apply filter_all.
    intros r [? _]%member_rows_key. congruence.
  - rewrite filter_none; [done|]. intros r [? _]%member_rows_key. congruence.
Qed.

Lemma filter_member (l : list CrewMember) cm :
  NoDup (cm_id <$> l) → cm ∈ l → filter (λ c, cm_id c = cm_id cm) l = [cm].
Proof.
  induction l as [|c l IH]; [by intros _ ?%elem_of_nil|]. rewrite fmap_cons.
  intros [Hc Hl]%NoDup_cons [->|Hcm]%elem_of_cons.
  - rewrite filter_cons_True by done. f_equal. apply filter_none.
    intros c' Hc' E. apply Hc. rewrite <- E. apply list_elem_of_fmap. by exists c'.
  - rewrite filter_cons_False; [by apply IH|].
    intros E. apply Hc. rewrite E. apply list_elem_of_fmap. by exists cm.
Qed.

(** Rows in the order of the query that bear one name are in the order of
    their dates. *)
Lemma sorted_by_date (rows : list AvailabilityRow) (name : string) :
  StronglySorted availability_order rows →
  (∀ r, r ∈ rows → ar_name r = name) →
  StronglySorted (λ a b : Date * string, a.1 ≤ b.1) (omap ar_event rows).
Proof.
  induction 1 as [|r rows Hrows IH Hr]; intros Hname; [constructor|].
  cbn [omap list_omap].
  assert (StronglySorted (λ a b : Date * string, a.1 ≤ b.1) (omap ar_event rows))
    as Hrest by (apply IH; intros ? ?; apply Hname, elem_of_cons; by right).
  destruct (ar_event r) as [a|] eqn:Ea; [|done].
  constructor; [done|]. apply Forall_forall.
  intros b (r' & Hr' & Eb)%list_elem_of_omap.
  rewrite Forall_forall in Hr. specialize (Hr r' Hr').
  unfold availability_order, then_by in Hr.
  rewrite (Hname r), (Hname r') in Hr by (rewrite elem_of_cons; auto).
  rewrite Ea, Eb in Hr. destruct Hr as [Hr|[_ Hr]]; [|done].
  exfalso. apply Hr. by destruct (total text_le name name).
Qed.

Lemma assignments_in_range_none crew :
  (∀ e, e ∈ events s → ¬ d1 ≤ e_event_date e ≤ d2) → assignments_in_range crew = [].
Proof.
  intros Hnone. unfold assignments_in_range.
  induction (filter _ (crew_assignments s)) as [|ca cas IH]; [done|].
  rewrite bind_cons, IH, app_nil_r, filter_none; [done|].
  intros e He [_ Hin]. by apply (Hnone e).
Qed.

End Query.

(** C8. When both dates are given and read as the dates [d1] and [d2],
    [GET /availability/crew] answers 200 with one entry per active crew
    member (identifiers of crew members being unique).  The entry of a
    member bears the member's name and lists the (date, event name) pairs
    of exactly the member's assignments whose event is dated within
    [[d1, d2]], bounds included, by ascending date.  When no event is dated
    within the range every list is empty. *)
Theorem crew_availability_entries `{!Conversions, !Collation} (s : Store)
    (start_date end_date : Js.Value) (d1 d2 : Date) :
  NoDup (cm_id <$> crew_members s) →
  Js.truthy start_date = true → Js.truthy end_date = true →
  bind "date" date_in start_date = inr (Some d1) →
  bind "date" date_in end_date = inr (Some d2) →
  ∃ entries,
    crewAvailability s start_date end_date = Send 200 entries
    ∧ av_id <$> entries
      ≡ₚ cm_id <$> filter (λ cm, is_true (cm_is_active cm) = true) (crew_members s)
    ∧ (∀ entry, entry ∈ entries →
         (∃ cm, cm ∈ crew_members s ∧ is_true (cm_is_active cm) = true
                ∧ av_id entry = cm_id cm ∧ av_name entry = cm_name cm)
         ∧ av_assignments entry ≡ₚ assignments_in_range s d1 d2 (av_id entry)
         ∧ StronglySorted (λ a b : Date * string, a.1 ≤ b.1) (av_assignments entry))
    ∧ ((∀ e, e ∈ events s → ¬ d1 ≤ e_event_date e ≤ d2) →
       ∀ entry, entry ∈ entries → av_assignments entry = []).
Proof.
  intros Hnodup Hstart Hend Hd1 Hd2. unfold crewAvailability.
  rewrite Hstart, Hend, Hd1, Hd2. cbn [negb orb mbind result_bind].
  rewrite select_availability_members.
  set (flat := crew_members s ≫= member_rows s d1 d2).
  set (rows := merge_sort availability_order flat).
  assert (rows ≡ₚ flat) as Hperm by apply merge_sort_Permutation.
  assert (StronglySorted availability_order rows) as Hsorted.
  { apply StronglySorted_merge_sort; apply _. }
  destruct (grouped_entries rows) as (Hids & Hkeys & Hentries).
  cbv zeta in Hids, Hkeys, Hentries.
  set (entries := Js.obj_values (foldl availability_step [] rows)) in *.
  assert (∀ entry, entry ∈ entries →
            ∃ cm, cm ∈ crew_members s ∧ is_true (cm_is_active cm) = true
                  ∧ av_id entry = cm_id cm ∧ av_name entry = cm_name cm
                  ∧ av_assignments entry
                    = omap ar_event (filter (λ r, ar_id r = cm_id cm) rows)
                  ∧ filter (λ r, ar_id r = cm_id cm) rows ≡ₚ member_rows s d1 d2 cm)
    as Hmember.
  { intros entry (r & rs & Hfilter & Hname & Hevents)%Hentries.
    assert (r ∈ filter (λ r, ar_id r = av_id entry) rows) as [Hid Hr]%list_elem_of_filter
        by (rewrite Hfilter; apply elem_of_cons; by left).
    rewrite Hperm in Hr. apply list_elem_of_bind in Hr as (cm & Hr & Hcm).
    apply member_rows_key in Hr as (Hid' & Hname' & Hactive).
    exists cm. rewrite <- Hid', Hid, <- Hname', Hfilter.
    do 5 (split; [done|]).
    rewrite <- Hfilter, <- Hid, Hid', Hperm. unfold flat.
    rewrite members_filter, filter_member by done. cbn. by rewrite app_nil_r. }
  exists entries. split; [done|]. split; [|split].
  - apply NoDup_Permutation; [done|..].
    + eapply sublist_NoDup; [exact Hnodup|]. apply fmap_sublist, sublist_filter.
    + intros k. rewrite Hkeys, Hperm, !list_elem_of_fmap. split.
      * intros (r & -> & (cm & Hr & Hcm)%list_elem_of_bind).
        apply member_rows_key in Hr as (Hid & _ & Hactive).
        exists cm. split; [done|]. by apply list_elem_of_filter.
      * intros (cm & -> & [Hactive Hcm]%list_elem_of_filter).
        destruct (member_rows_nonempty s d1 d2 cm Hactive) as [r Hr].
        exists r. split; [by apply member_rows_key in Hr as [-> _]|].
        apply list_elem_of_bind. by exists cm.
  - intros entry (cm & Hcm & Hactive & Hid & Hname & Hevents & Hrows)%Hmember.
    split; [by exists cm|]. rewrite Hevents, Hid. split.
    + by rewrite Hrows, member_rows_events.
    + apply (sorted_by_date _ (cm_name cm)); [by apply StronglySorted_filter|].
      intros r Hr. rewrite Hrows in Hr.
      by apply member_rows_key in Hr as (_ & -> & _).
  - intros Hnone entry (cm & Hcm & Hactive & Hid & Hname & Hevents & Hrows)%Hmember.
    apply Permutation_nil_r.
    by rewrite Hevents, Hrows, member_rows_events, assignments_in_range_none.
Qed.

(** On the sample store: Ann is on the Gala (day 100), Bob is on nothing,
    Cy is inactive. *)
Example availability_of_the_sample :
  crewAvailability Sample.booked (Js.Str "100") (Js.Str "101")
  = Send 200 [mkAvailability 1 "Ann" [(100, "Gala"%string)];
              mkAvailability 2 "Bob" []]
  ∧ crewAvailability Sample.booked (Js.Str "101") (Js.Str "200")
    = Send 200 [mkAvailability 1 "Ann" []; mkAvailability 2 "Bob" []]
  ∧ crewAvailability Sample.booked (Js.Str "100") (Js.Str "")
    = Fail 400 "start_date and end_date required".
Proof. repeat split; by vm_compute. Qed.

Lemma crew_availability_entries_witness :
  ∃ entries,
    crewAvailability Sample.booked (Js.Str "100") (Js.Str "101") = Send 200 entries
    ∧ av_id <$> entries
      ≡ₚ cm_id <$> filter (λ cm, is_true (cm_is_active cm) = true)
                          (crew_members Sample.booked)
    ∧ (∀ entry, entry ∈ entries →
         (∃ cm, cm ∈ crew_members Sample.booked ∧ is_true (cm_is_active cm) = true
                ∧ av_id entry = cm_id cm ∧ av_name entry = cm_name cm)
         ∧ av_assignments entry ≡ₚ assignments_in_range Sample.booked 100 101 (av_id entry)
         ∧ StronglySorted (λ a b : Date * string, a.1 ≤ b.1) (av_assignments entry))
    ∧ ((∀ e, e ∈ events Sample.booked → ¬ 100 ≤ e_event_date e ≤ 101) →
       ∀ entry, entry ∈ entries → av_assignments entry = []).
Proof.
  apply (crew_availability_entries Sample.booked (Js.Str "100") (Js.Str "101") 100 101).
  - apply (bool_decide_unpack _). vm_compute. exact I.
  - reflexivity.
  - reflexivity.
  - reflexivity.
  - reflexivity.
Defined.

End AvailabilityFacts.

(** ** More on the routes of [routes/assignments.js] *)

Module RouteFacts.
Import Db Assignments AssignmentFacts.

Section Create.
Context `{!Conversions}.


(** What [POST /crew] writes when it is served. *)
Lemma create_crew_served s user body :
  select_event s (ccb_event_id body) ≠ [] →
  select_active_crew s (ccb_crew_member_id body) ≠ [] →
  (∀ p, ccb_position_id body = Some p → references p_id (positions s) p = true) →
  crew_pair_taken s (ccb_event_id body) (ccb_crew_member_id body) = false →
  let row := new_crew_row s (ccb_event_id body) (ccb_crew_member_id body)
               (ccb_position_id body) (ccb_call_time body) (ccb_end_time body)
               (amount_or_null (ccb_rate_override body))
               (text_or_null (ccb_notes body)) user in
  ∃ view,
    createCrewAssignment s user body
    = (with_crew_assignments s (crew_assignments s ++ [row]), Send 201 (Some view))
    ∧ cv_assignment view = row.
Proof.
  intros Hevent Hcrew Hposition Hfree row.
  destruct (create_crew_free s user body) as (s' & view & Hreply & _); [done..|].
  exists view. revert Hreply. unfold createCrewAssignment.
  destruct (select_event s _) as [|e es] eqn:Ee; [done|].
  destruct (select_active_crew s _) as [|c cs] eqn:Ec; [done|].
  fold row. destruct (insert_crew s row) as [error|[s1 row1]] eqn:E.
  { destruct (bool_decide _); [done|].
    unfold errorHandler. by repeat destruct (bool_decide _). }
  apply insert_crew_inr in E as (-> & -> & _). intros [= <- Hview].
  split; [do 2 f_equal; exact Hview|].
  destruct (select_crew_view_new s row) as (view' & Hview' & Hrow); [done|..].
  { apply select_active_crew_references.
    change (select_active_crew s (ccb_crew_member_id body) ≠ []). by rewrite Ec. }
  assert (Some view = Some view') as [= ->]; [|done].
  rewrite <- Hview. exact Hview'.
Qed.


End Create.


Lemma NoDup_fmap_same {A B : Type} (f : A → B) (l : list A) (x y : A) :
  NoDup (f <$> l) → x ∈ l → y ∈ l → f x = f y → x = y.
Proof.
  induction l as [|z l IH]; [by intros _ ?%elem_of_nil|]. rewrite fmap_cons.
  intros [Hz Hl]%NoDup_cons [->|Hx]%elem_of_cons [->|Hy]%elem_of_cons E; [done|..].
  - exfalso. apply Hz. rewrite E. apply list_elem_of_fmap. by exists y.
  - exfalso. apply Hz. rewrite <- E. apply list_elem_of_fmap. by exists x.
  - by apply IH.
Qed.

Section Delete.
Context `{!Conversions}.

(** An identifier that is no UUID is an error of the database, which the
    error handler answers 500. *)
Lemma bind_uuid_error id error :
  bind_uuid id = inl error →
  errorHandler (A := string) (DbError error) = Fail 500 "Internal server error".
Proof.
  unfold bind_uuid, bind. cbn. destruct (uuid_in id); [done|]. by intros [= <-].
Qed.

(** X3. [DELETE /crew/:id]: when the identifier names rows they are removed,
    the other rows stay in their order and the answer is 200; when it names
    no row the answer is 404 and the store is as it was; when it is no UUID
    the answer is 500 and the store is as it was.  After the request no row
    has the identifier, so that the same request again is answered 404. *)
Theorem delete_crew_assignment (s : Store) (id : string) :
  (∀ key, bind_uuid id = inr (Some key) →
          key ∈ ca_id <$> crew_assignments s →
          deleteCrewAssignment s id
          = (with_crew_assignments s
               (filter (λ ca, ca_id ca ≠ key) (crew_assignments s)),
             Send 200 "Assignment deleted successfully"%string))
  ∧ (∀ key, bind_uuid id = inr (Some key) →
            key ∉ ca_id <$> crew_assignments s →
            deleteCrewAssignment s id = (s, Fail 404 "Assignment not found"))
  ∧ (∀ error, bind_uuid id = inl error →
              deleteCrewAssignment s id = (s, Fail 500 "Internal server error"))
  ∧ (∀ key, bind_uuid id = inr (Some key) →
            key ∉ ca_id <$> crew_assignments (deleteCrewAssignment s id).1)
  ∧ (∀ key, bind_uuid id = inr (Some key) →
            deleteCrewAssignment (deleteCrewAssignment s id).1 id
            = ((deleteCrewAssignment s id).1, Fail 404 "Assignment not found")).
Proof.
  assert (∀ s0 key, bind_uuid id = inr (Some key) →
                    key ∉ ca_id <$> crew_assignments s0 →
                    deleteCrewAssignment s0 id = (s0, Fail 404 "Assignment not found"))
    as Hmissing.
  { intros s0 key Hkey Hnone. unfold deleteCrewAssignment, delete_crew.
    rewrite Hkey. cbn [mbind result_bind].
    rewrite (AvailabilityFacts.filter_none (λ ca, ca_id ca = key)).
    - rewrite AvailabilityFacts.filter_all; [by rewrite with_crew_assignments_same|].
      intros ca Hca E. apply Hnone, list_elem_of_fmap. by exists ca.
    - intros ca Hca E. apply Hnone, list_elem_of_fmap. by exists ca. }
  assert (∀ key, bind_uuid id = inr (Some key) →
                 key ∉ ca_id <$> crew_assignments (deleteCrewAssignment s id).1)
    as Hgone.
  { intros key Hkey. unfold deleteCrewAssignment, delete_crew.
    rewrite Hkey. cbn [mbind result_bind].
    assert (key ∉ ca_id <$> filter (λ ca, ca_id ca ≠ key) (crew_assignments s)) as Hout.
    { intros (ca & -> & [Hne _]%list_elem_of_filter)%list_elem_of_fmap. done. }
    by destruct (ca_id <$> filter (λ ca, ca_id ca = key) _). }
  split; [|split; [apply Hmissing|split; [|split; [done|]]]].
  - intros key Hkey (ca & -> & Hca)%list_elem_of_fmap.
    unfold deleteCrewAssignment, delete_crew. rewrite Hkey. cbn [mbind result_bind].
    assert (ca ∈ filter (λ ca', ca_id ca' = ca_id ca) (crew_assignments s)) as Hin
        by (by apply list_elem_of_filter).
    destruct (filter (λ ca', ca_id ca' = ca_id ca) _); [by apply elem_of_nil in Hin|done].
  - intros error Herror. unfold deleteCrewAssignment, delete_crew. rewrite Herror.
    cbn [mbind result_bind]. by rewrite (bind_uuid_error id).
  - intros key Hkey. apply (Hmissing _ key); [done|by apply Hgone].
Qed.

Lemma with_equipment_assignments_same s :
  with_equipment_assignments s (equipment_assignments s) = s.
Proof. by destruct s. Qed.

(** X4. [DELETE /equipment/:id]: when the identifier names rows they are removed,
    the other rows stay in their order and the answer is 200; when it names
    no row the answer is 404 and the store is as it was; when it is no UUID
    the answer is 500 and the store is as it was.  After the request no row
    has the identifier, so that the same request again is answered 404. *)
Theorem delete_equipment_assignment (s : Store) (id : string) :
  (∀ key, bind_uuid id = inr (Some key) →
          key ∈ ea_id <$> equipment_assignments s →
          deleteEquipmentAssignment s id
          = (with_equipment_assignments s
               (filter (λ ea, ea_id ea ≠ key) (equipment_assignments s)),
             Send 200 "Assignment deleted successfully"%string))
  ∧ (∀ key, bind_uuid id = inr (Some key) →
            key ∉ ea_id <$> equipment_assignments s →
            deleteEquipmentAssignment s id = (s, Fail 404 "Assignment not found"))
  ∧ (∀ error, bind_uuid id = inl error →
              deleteEquipmentAssignment s id = (s, Fail 500 "Internal server error"))
  ∧ (∀ key, bind_uuid id = inr (Some key) →
            key ∉ ea_id <$> equipment_assignments (deleteEquipmentAssignment s id).1)
  ∧ (∀ key, bind_uuid id = inr (Some key) →
            deleteEquipmentAssignment (deleteEquipmentAssignment s id).1 id
            = ((deleteEquipmentAssignment s id).1, Fail 404 "Assignment not found")).
Proof.
  assert (∀ s0 key, bind_uuid id = inr (Some key) →
                    key ∉ ea_id <$> equipment_assignments s0 →
                    deleteEquipmentAssignment s0 id = (s0, Fail 404 "Assignment not found"))
    as Hmissing.
  { intros s0 key Hkey Hnone. unfold deleteEquipmentAssignment, delete_equipment.
    rewrite Hkey. cbn [mbind result_bind].
    rewrite (AvailabilityFacts.filter_none (λ ea, ea_id ea = key)).
    - rewrite AvailabilityFacts.filter_all; [by rewrite with_equipment_assignments_same|].
      intros ea Hea E. apply Hnone, list_elem_of_fmap. by exists ea.
    - intros ea Hea E. apply Hnone, list_elem_of_fmap. by exists ea. }
  assert (∀ key, bind_uuid id = inr (Some key) →
                 key ∉ ea_id <$> equipment_assignments (deleteEquipmentAssignment s id).1)
    as Hgone.
  { intros key Hkey. unfold deleteEquipmentAssignment, delete_equipment.
    rewrite Hkey. cbn [mbind result_bind].
    assert (key ∉ ea_id <$> filter (λ ea, ea_id ea ≠ key) (equipment_assignments s)) as Hout.
    { intros (ea & -> & [Hne _]%list_elem_of_filter)%list_elem_of_fmap. done. }
    by destruct (ea_id <$> filter (λ ea, ea_id ea = key) _). }
  split; [|split; [apply Hmissing|split; [|split; [done|]]]].
  - intros key Hkey (ea & -> & Hea)%list_elem_of_fmap.
    unfold deleteEquipmentAssignment, delete_equipment. rewrite Hkey. cbn [mbind result_bind].
    assert (ea ∈ filter (λ ea', ea_id ea' = ea_id ea) (equipment_assignments s)) as Hin
        by (by apply list_elem_of_filter).
    destruct (filter (λ ea', ea_id ea' = ea_id ea) _); [by apply elem_of_nil in Hin|done].
  - intros error Herror. unfold deleteEquipmentAssignment, delete_equipment. rewrite Herror.
    cbn [mbind result_bind]. by rewrite (bind_uuid_error id).
  - intros key Hkey. apply (Hmissing _ key); [done|by apply Hgone].
Qed.


End Delete.

Lemma delete_crew_assignment_witness :
  deleteCrewAssignment Sample.booked "1"
  = (with_crew_assignments Sample.booked
       (filter (λ ca, ca_id ca ≠ 1%N) (crew_assignments Sample.booked)),
     Send 200 "Assignment deleted successfully"%string).
Proof.
  apply (proj1 (delete_crew_assignment Sample.booked "1") 1%N); [reflexivity|].
  apply elem_of_cons. by left.
Defined.

Lemma delete_equipment_assignment_witness :
  deleteEquipmentAssignment Sample.booked "7" = (Sample.booked, Fail 404 "Assignment not found").
Proof.
  apply (proj1 (proj2 (delete_equipment_assignment Sample.booked "7")) 7%N);
    [reflexivity|].
  intros Hin. repeat (apply elem_of_cons in Hin as [[=]|Hin]). by apply elem_of_nil in Hin.
Defined.


Section BulkAgain.
Context `{!Conversions}.

(** The store the loop leaves, every turn of a second run leaves alone. *)
Lemma bulk_step_again s user body s' results0 id :
  bulk_invariant s user body (bb_crew_member_ids body) (s', results0) →
  id ∈ bb_crew_member_ids body →
  ∀ results,
    bulk_step user body (s', results) id
    = (s', mkBulkResults
             (assigned results
              + N.of_nat (length (filter (passes s user body) [id])))
             (skipped results)
             (errors results ++ omap (verdict s user body) [id])).
Proof.
  intros (Hcat & (added & Hrows & Hadded & _) & _ & _ & _ & Htaken) Hid results.
  cbn [fst snd] in *. unfold bulk_step.
  pose proof (bulk_insert_agree s user body s' added _ id Hcat Hrows Hadded) as Hagree.
  rewrite filter_cons, filter_nil. cbn [omap list_omap]. unfold passes, verdict in *.
  destruct (bulk_insert s' user body id) as [e'|s''],
    (bulk_insert s user body id) as [e|s0] eqn:E; try done.
  - subst e'. rewrite decide_False by done. cbn. by rewrite N.add_0_r.
  - rewrite decide_True by done. cbn. rewrite app_nil_r.
    destruct Hagree as (crew & Hcrew & [[_ ->]|[Hfree _]]); [done|].
    rewrite (Htaken id crew) in Hfree; [done..| |done]. by rewrite E.
Qed.

Lemma bulk_loop_again s user body s' results0 ids :
  bulk_invariant s user body (bb_crew_member_ids body) (s', results0) →
  ids ⊆ bb_crew_member_ids body →
  ∀ results,
    foldl (bulk_step user body) (s', results) ids
    = (s', mkBulkResults
             (assigned results
              + N.of_nat (length (filter (passes s user body) ids)))
             (skipped results)
             (errors results ++ omap (verdict s user body) ids)).
Proof.
  intros Hinv. induction ids as [|id ids IH]; intros Hsub results.
  - cbn. rewrite N.add_0_r, app_nil_r. by destruct results.
  - cbn [foldl]. rewrite (bulk_step_again s user body s' results0) by set_solver.
    rewrite IH by set_solver. cbn [assigned skipped errors]. f_equal. f_equal.
    + rewrite (filter_cons _ id ids), (filter_cons _ id []), filter_nil.
      destruct (decide (passes s user body id)); cbn [length]; lia.
    + rewrite <- (assoc_L (++)). f_equal. cbn [omap list_omap].
      by destruct (verdict s user body id).
Qed.

(** X6. [POST /crew/bulk] a second time with the same body changes nothing
    and answers what the first call answered. *)
Theorem bulk_twice (s : Store) (user : Uuid) (body : BulkBody) :
  bulkCreateCrewAssignments (bulkCreateCrewAssignments s user body).1 user body
  = bulkCreateCrewAssignments s user body.
Proof.
  rewrite !bulk_reply. cbv zeta.
  pose proof (bulk_loop_invariant s user body (bb_crew_member_ids body)) as Hinv.
  destruct (foldl _ (s, _) _) as [s' results] eqn:E. cbn [fst snd].
  rewrite (bulk_loop_again s user body s' results) by done. cbn [fst snd].
  destruct Hinv as (_ & _ & Herrors & Hassigned & Hskipped & _). cbn [fst snd] in *.
  destruct results as [a k e]. cbn in *. subst. by rewrite N.add_0_l.
Qed.

(** X7. The bulk route does not look at [is_active]: a crew member who is
    in the table but inactive, whom [POST /crew] refuses with 404, is
    assigned by [POST /crew/bulk], and is not reported as an error. *)
Theorem bulk_takes_inactive (s : Store) (user : Uuid) (body : BulkBody)
    (id : Js.Value) (crew : Uuid) (call_time : option Time) :
  id ∈ bb_crew_member_ids body →
  bind "uuid" uuid_in id = inr (Some crew) →
  bind "time" time_in
       (if Js.truthy (bb_call_time body) then bb_call_time body else Js.Null)
  = inr call_time →
  select_event s (bb_event_id body) ≠ [] →
  references cm_id (crew_members s) crew = true →
  select_active_crew s crew = [] →
  (∀ p, bb_position_id body = Some p → references p_id (positions s) p = true) →
  (∀ create,
     ccb_event_id create = bb_event_id body → ccb_crew_member_id create = crew →
     createCrewAssignment s user create
     = (s, Fail 404 "Crew member not found or inactive"))
  ∧ ∃ s' message results,
      bulkCreateCrewAssignments s user body = (s', Send 200 (message, results))
      ∧ crew_pair_taken s' (bb_event_id body) crew = true
      ∧ ∀ text, (id, text) ∉ errors results.
Proof.
  intros Hid Hcrew Htime Hevent Hmember Hinactive Hposition. split.
  { intros create E1 E2. unfold createCrewAssignment. rewrite E1, E2, Hinactive.
    by destruct (select_event s _). }
  assert (passes s user body id) as Hpasses.
  { unfold passes, verdict, bulk_insert. rewrite Hcrew, Htime.
    cbn [mbind result_bind required]. unfold insert_crew_or_nothing.
    destruct (crew_pair_taken s _ _); [done|]. unfold crew_foreign_keys.
    change (ca_event_id (new_crew_row _ ?e ?c _ _ _ _ _ _)) with e.
    change (ca_crew_member_id (new_crew_row _ ?e ?c _ _ _ _ _ _)) with c.
    change (ca_position_id (new_crew_row _ _ _ ?p _ _ _ _ _)) with p.
    rewrite select_event_references, Hmember by done. cbn [negb].
    destruct (bb_position_id body) as [p|]; [|done]. by rewrite Hposition. }
  rewrite bulk_reply. cbv zeta.
  pose proof (bulk_loop_invariant s user body (bb_crew_member_ids body)) as Hinv.
  destruct (foldl _ _ _) as [s' results].
  destruct Hinv as (_ & _ & Herrors & _ & _ & Htaken). cbn [fst snd] in *.
  eexists s', _, results. split; [done|]. split; [by apply (Htaken id)|].
  intros text. rewrite Herrors, list_elem_of_omap. intros (id' & _ & Hverdict).
  unfold verdict in Hverdict.
  destruct (bulk_insert s user body id') as [error|] eqn:E'; [|done].
  injection Hverdict as Hsame _. subst id'.
  unfold passes, verdict in Hpasses. by rewrite E' in Hpasses.
Qed.

End BulkAgain.

(** On the sample catalog Cy is inactive. *)
Lemma bulk_takes_inactive_witness :
  (∀ create,
     ccb_event_id create = 1%N → ccb_crew_member_id create = 3%N →
     createCrewAssignment Sample.catalog 9 create
     = (Sample.catalog, Fail 404 "Crew member not found or inactive"))
  ∧ ∃ s' message results,
      bulkCreateCrewAssignments Sample.catalog 9
        (mkBulkBody 1 [Js.Str "3"] None Js.Undefined)
      = (s', Send 200 (message, results))
      ∧ crew_pair_taken s' 1 3 = true
      ∧ ∀ text, (Js.Str "3", text) ∉ errors results.
Proof.
  apply (bulk_takes_inactive Sample.catalog 9%N
           (mkBulkBody 1 [Js.Str "3"] None Js.Undefined) (Js.Str "3") 3%N None).
  - apply elem_of_cons. by left.
  - reflexivity.
  - reflexivity.
  - by vm_compute.
  - by vm_compute.
  - by vm_compute.
  - by intros p [=].
Defined.

Section CreateEquipment.
Context `{!Conversions}.


End CreateEquipment.


Section UpdateEquipment.
Context `{!Conversions}.
Context (body : gmap string Js.Value).

(** The three columns after [PUT /equipment/:id], each on its own: a field
    that is omitted leaves the column; a quantity is taken as it is; a
    rate that is the empty string is null; notes that are falsy are null. *)
Definition quantity_after (old : option Z) : Error + option Z :=
  match Js.get body "quantity" with
  | Js.Undefined => inr old
  | v => bind "integer" int4_in v
  end.

Definition rate_after (old : option Cents) : Error + option Cents :=
  match Js.get body "rate_override" with
  | Js.Undefined => inr old
  | Js.Str EmptyString => inr None
  | v => bind "numeric" numeric_in v
  end.

Definition notes_after (old : option string) : option string :=
  match Js.get body "notes" with
  | Js.Undefined => old
  | v => if Js.truthy v then param_text v else None
  end.

Definition updated_equipment (ea : EquipmentAssignment) : Error + EquipmentAssignment :=
  quantity ← quantity_after (ea_quantity ea);
  rate ← rate_after (ea_rate_override ea);
  inr (mkEquipmentAssignment (ea_id ea) (ea_event_id ea) (ea_equipment_id ea)
         quantity rate (notes_after (ea_notes ea)) (ea_created_by ea)).

Definition nothing_supplied : Prop :=
  Js.get body "quantity" = Js.Undefined
  ∧ Js.get body "rate_override" = Js.Undefined
  ∧ Js.get body "notes" = Js.Undefined.

Lemma bind_equipment_set_columns v :
  bind_equipment_set "quantity" v = (x ← bind "integer" int4_in v; inr (SetQuantity x))
  ∧ bind_equipment_set "rate_override" v
    = (x ← bind "numeric" numeric_in v; inr (SetEquipmentRate x))
  ∧ bind_equipment_set "notes" v = inr (SetEquipmentNotes (param_text v)).
Proof. repeat split; reflexivity. Qed.

Lemma collect_equipment_updates_nil :
  collect_equipment_updates body = [] ↔ nothing_supplied.
Proof.
  unfold collect_equipment_updates, nothing_supplied. split.
  - intros E. repeat case_bool_decide; by simplify_eq.
  - intros (-> & -> & ->). done.
Qed.

(** The statement and the three columns agree, on every row. *)
Lemma bind_equipment_sets_updated :
  match bind_equipment_sets (collect_equipment_updates body) with
  | inr typed => ∀ ea, updated_equipment ea = inr (foldl apply_equipment_set ea typed)
  | inl _ => ∀ ea, ∃ error, updated_equipment ea = inl error
  end.
Proof.
  unfold collect_equipment_updates, updated_equipment, quantity_after, rate_after,
    notes_after.
  destruct (Js.get body "quantity") as [| |q|q] eqn:Eq,
    (Js.get body "rate_override") as [| |r|[|c r]] eqn:Er,
    (Js.get body "notes") as [| |n|n] eqn:En;
    cbn [Js.truthy]; repeat case_bool_decide; simplify_eq;
    cbn [negb app bind_equipment_sets];
    rewrite ?(proj1 (bind_equipment_set_columns _)),
      ?(proj1 (proj2 (bind_equipment_set_columns _))),
      ?(proj2 (proj2 (bind_equipment_set_columns _)));
    repeat match goal with
           | |- context [bind ?type ?input ?v] =>
               destruct (bind type input v) eqn:?
           end;
    repeat match goal with
           | E : bind _ _ Js.Null = _ |- _ => cbn in E
           end;
    simplify_eq; cbn; intros [];
    try destruct (Js.truthy_num _); cbn; by eauto.
Qed.

(** The rows after the statement, and the rows it returns. *)
Definition rewritten (typed : list EquipmentSet) (key : Uuid)
    (ea : EquipmentAssignment) : EquipmentAssignment :=
  if decide (ea_id ea = key) then foldl apply_equipment_set ea typed else ea.

Lemma rewritten_id typed key ea : ea_id (rewritten typed key ea) = ea_id ea.
Proof.
  unfold rewritten. destruct (decide _); [|done]. apply apply_equipment_sets_keys.
Qed.

Lemma returned_rows typed key (rows : list EquipmentAssignment) :
  filter (λ ea, ea_id ea = key) (rewritten typed key <$> rows) = []
  ↔ key ∉ ea_id <$> rows.
Proof.
  split.
  - intros E (ea & -> & Hea)%list_elem_of_fmap.
    assert (rewritten typed (ea_id ea) ea
            ∈ filter (λ ea', ea_id ea' = ea_id ea) (rewritten typed (ea_id ea) <$> rows))
      as Hin.
    { apply list_elem_of_filter. split; [apply rewritten_id|].
      apply list_elem_of_fmap. by exists ea. }
    rewrite E in Hin. by apply elem_of_nil in Hin.
  - intros Hnone. apply AvailabilityFacts.filter_none.
    intros ea' (ea & -> & Hea)%list_elem_of_fmap E. rewrite rewritten_id in E.
    apply Hnone, list_elem_of_fmap. by exists ea.
Qed.

Lemma update_equipment_reply s id :
  ¬ nothing_supplied →
  updateEquipmentAssignment s id body
  = match update_equipment s (collect_equipment_updates body) id with
    | inr (s', []) => (s', Fail 404 "Assignment not found")
    | inr (s', row :: _) =>
        (s', Send 200 (head (select_equipment_view s' (ea_id row))))
    | inl error => (s, errorHandler (DbError error))
    end.
Proof.
  intros Hsome. unfold updateEquipmentAssignment.
  destruct (collect_equipment_updates body) eqn:E; [|done].
  by apply collect_equipment_updates_nil in E.
Qed.

Lemma update_equipment_rows s id typed key :
  bind_equipment_sets (collect_equipment_updates body) = inr typed →
  bind_uuid id = inr (Some key) →
  update_equipment s (collect_equipment_updates body) id
  = inr (with_equipment_assignments s (rewritten typed key <$> equipment_assignments s),
         filter (λ ea, ea_id ea = key)
                (rewritten typed key <$> equipment_assignments s)).
Proof. intros Hbind Hkey. unfold update_equipment. by rewrite Hbind, Hkey. Qed.

Lemma rewritten_none typed key (rows : list EquipmentAssignment) :
  key ∉ ea_id <$> rows → rewritten typed key <$> rows = rows.
Proof.
  intros Hnone. rewrite <- (list_fmap_id rows) at 2. apply list_fmap_ext.
  intros i ea Hea. unfold rewritten. rewrite decide_False; [done|].
  intros E. apply Hnone, list_elem_of_fmap. exists ea.
  split; [done|]. by eapply list_elem_of_lookup_2.
Qed.

End UpdateEquipment.

Section UpdateEquipmentRoute.
Context `{!Conversions}.

(** X9. [PUT /equipment/:id] with none of [quantity], [rate_override] and
    [notes] answers 400.  With some of them and an identifier that names a
    row it answers 200 and rewrites that row column by column: an omitted
    field leaves its column, a rate that is the empty string and notes that
    are falsy become null, everything else of the store stays.  With an
    identifier that names no row it answers 404.  A refused request leaves
    the store as it was. *)
Theorem update_equipment_fields (s : Store) (id : string)
    (body : gmap string Js.Value) :
  (nothing_supplied body →
   updateEquipmentAssignment s id body = (s, Fail 400 "No updates provided"))
  ∧ (∀ key,
       ¬ nothing_supplied body → bind_uuid id = inr (Some key) →
       key ∈ ea_id <$> equipment_assignments s →
       (∀ ea, ea ∈ equipment_assignments s → ea_id ea = key →
              ∃ ea', updated_equipment body ea = inr ea') →
       ∃ rows,
         updateEquipmentAssignment s id body
         = (with_equipment_assignments s rows,
            Send 200 (head (select_equipment_view
                              (with_equipment_assignments s rows) key)))
         ∧ Forall2 (λ ea ea', if decide (ea_id ea = key)
                              then updated_equipment body ea = inr ea'
                              else ea' = ea)
                   (equipment_assignments s) rows)
  ∧ (∀ key,
       ¬ nothing_supplied body → bind_uuid id = inr key →
       (∀ ea, ∃ ea', updated_equipment body ea = inr ea') →
       (∀ ea, ea ∈ equipment_assignments s → Some (ea_id ea) ≠ key) →
       updateEquipmentAssignment s id body = (s, Fail 404 "Assignment not found"))
  ∧ (∀ s' status text,
       updateEquipmentAssignment s id body = (s', Fail status text) → s' = s).
Proof.
  pose proof (bind_equipment_sets_updated body) as Hbind.
  split; [|split; [|split]].
  - intros Hnone%collect_equipment_updates_nil.
    unfold updateEquipmentAssignment. by rewrite Hnone.
  - intros key Hsome Hkey (ea0 & -> & Hea0)%list_elem_of_fmap Hrows.
    rewrite update_equipment_reply by done.
    destruct (bind_equipment_sets _) as [error|typed] eqn:E.
    { destruct (Hrows ea0 Hea0 eq_refl) as [ea' Hea'].
      destruct (Hbind ea0) as [error' Herror]. congruence. }
    rewrite (update_equipment_rows body s id typed (ea_id ea0)) by done.
    exists (rewritten typed (ea_id ea0) <$> equipment_assignments s).
    destruct (filter _ (_ <$> _)) as [|row rest] eqn:Ereturned.
    { apply returned_rows in Ereturned. exfalso. apply Ereturned.
      apply list_elem_of_fmap. by exists ea0. }
    assert (row ∈ filter (λ ea, ea_id ea = ea_id ea0)
                         (rewritten typed (ea_id ea0) <$> equipment_assignments s))
      as [-> _]%list_elem_of_filter by (rewrite Ereturned; apply elem_of_cons; by left).
    split; [done|]. apply Forall2_fmap_r, Forall_Forall2_diag, Forall_forall.
    intros ea Hea. unfold rewritten, compose. cbn beta.
    destruct (decide _); [apply Hbind|done].
  - intros key Hsome Hkey Htyped Hnone.
    rewrite update_equipment_reply by done.
    destruct (bind_equipment_sets _) as [error|typed] eqn:E.
    { destruct (Htyped (mkEquipmentAssignment 0 0 0 None None None None)) as [ea' Hea'].
      destruct (Hbind (mkEquipmentAssignment 0 0 0 None None None None)) as [? ?].
      congruence. }
    destruct key as [key|].
    + assert (key ∉ ea_id <$> equipment_assignments s) as Hout.
      { intros (ea & -> & Hea)%list_elem_of_fmap. by apply (Hnone ea). }
      rewrite (update_equipment_rows body s id typed key) by done.
      rewrite (proj2 (returned_rows typed key _) Hout).
      by rewrite rewritten_none, with_equipment_assignments_same.
    + unfold update_equipment. by rewrite E, Hkey.
  - intros s' status text.
    destruct (collect_equipment_updates body) as [|u us] eqn:Ec.
    { unfold updateEquipmentAssignment. rewrite Ec. by intros [= <- _ _]. }
    rewrite update_equipment_reply
      by (intros Hnone%collect_equipment_updates_nil; congruence).
    rewrite Ec.
    destruct (update_equipment s _ id) as [error|[s1 [|row rest]]] eqn:Eu;
      [by intros [= <- _]| |done].
    intros [= <- _ _]. unfold update_equipment in Eu.
    destruct (bind_equipment_sets _) as [|typed]; [done|].
    cbn [mbind result_bind] in Eu.
    destruct (bind_uuid id) as [|[key|]]; [done|..]; cbn [mbind result_bind] in Eu;
      [|by simplify_eq].
    injection Eu as <- Hreturned. fold (rewritten typed key) in Hreturned |- *.
    apply returned_rows in Hreturned.
    by rewrite rewritten_none, with_equipment_assignments_same.
Qed.

End UpdateEquipmentRoute.
(** A request for three of the item at its own rate. *)
Definition three_at_own_rate : gmap string Js.Value :=
  <["quantity" := Js.Num (Js.of_Z 3)]> (<["rate_override" := Js.Str ""]> ∅).

(** On the sample store the Truss on the Gala loses its override. *)
Example three_trusses :
  (updateEquipmentAssignment Sample.booked "2" three_at_own_rate).1
  = with_equipment_assignments Sample.booked
      [mkEquipmentAssignment 1 1 1 (Some 1) None None (Some 9%N);
       mkEquipmentAssignment 2 1 2 (Some 3) None None (Some 9%N)].
Proof. by vm_compute. Qed.

Lemma update_equipment_fields_witness :
  ∃ rows,
    updateEquipmentAssignment Sample.booked "2" three_at_own_rate
    = (with_equipment_assignments Sample.booked rows,
       Send 200 (head (select_equipment_view
                         (with_equipment_assignments Sample.booked rows) 2)))
    ∧ Forall2 (λ ea ea', if decide (ea_id ea = 2%N)
                         then updated_equipment three_at_own_rate ea = inr ea'
                         else ea' = ea)
              (equipment_assignments Sample.booked) rows.
Proof.
  apply (proj1 (proj2 (update_equipment_fields Sample.booked "2" three_at_own_rate))
           2%N).
  - intros (Hquantity & _). by vm_compute in Hquantity.
  - reflexivity.
  - apply elem_of_cons. right. apply elem_of_cons. by left.
  - intros ea Hea _.
    repeat (apply elem_of_cons in Hea as [->|Hea]; [eexists; by vm_compute|]).
    by apply elem_of_nil in Hea.
Defined.

(** *** Referential integrity *)

(** Every assignment refers to an event, a crew member or a piece of
    equipment, and a position when it has one, that exist: the foreign keys
    of the two tables hold of every row. *)
Definition referential (s : Store) : Prop :=
  Forall (λ ca, crew_foreign_keys s ca = None) (crew_assignments s)
  ∧ Forall (λ ea, equipment_foreign_keys s ea = None) (equipment_assignments s).

Section Referential.
Context `{!Conversions}.

Lemma crew_foreign_keys_fields s ca :
  crew_foreign_keys s ca = None
  ↔ references e_id (events s) (ca_event_id ca) = true
    ∧ references cm_id (crew_members s) (ca_crew_member_id ca) = true
    ∧ ∀ p, ca_position_id ca = Some p → references p_id (positions s) p = true.
Proof.
  unfold crew_foreign_keys.
  destruct (references e_id _ _); cbn; [|by split; [|intros (? & _)]].
  destruct (references cm_id _ _); cbn; [|by split; [|intros (_ & ? & _)]].
  destruct (ca_position_id ca) as [p|]; [|by split].
  destruct (references p_id _ p) eqn:E.
  - split; [|done]. intros _. do 2 (split; [done|]). by intros ? [= <-].
  - split; [done|]. intros (_ & _ & Hp). by rewrite (Hp p) in E.
Qed.

Lemma equipment_foreign_keys_fields s ea :
  equipment_foreign_keys s ea = None
  ↔ references e_id (events s) (ea_event_id ea) = true
    ∧ references eq_id (equipment s) (ea_equipment_id ea) = true.
Proof.
  unfold equipment_foreign_keys.
  destruct (references e_id _ _); cbn; [|by split; [|intros (? & _)]].
  destruct (references eq_id _ _); cbn; [by split|by split; [|intros (_ & ?)]].
Qed.

(** A store that differs in its two assignment tables only. *)
Lemma referential_rows s crews items :
  Forall (λ ca, crew_foreign_keys s ca = None) crews →
  Forall (λ ea, equipment_foreign_keys s ea = None) items →
  referential (with_equipment_assignments (with_crew_assignments s crews) items).
Proof. intros Hcrews Hitems. by split. Qed.

Lemma referential_crew_rows s crews :
  referential s → Forall (λ ca, crew_foreign_keys s ca = None) crews →
  referential (with_crew_assignments s crews).
Proof. intros [_ Hitems] Hcrews. by split. Qed.

Lemma referential_equipment_rows s items :
  referential s → Forall (λ ea, equipment_foreign_keys s ea = None) items →
  referential (with_equipment_assignments s items).
Proof. intros [Hcrews _] Hitems. by split. Qed.

Lemma create_crew_referential s user body :
  referential s → referential (createCrewAssignment s user body).1.
Proof.
  intros Hs. unfold createCrewAssignment.
  destruct (select_event s _); [done|]. destruct (select_active_crew s _); [done|].
  destruct (insert_crew s _) as [error|[s' row]] eqn:E.
  { by destruct (bool_decide _). }
  unfold insert_crew in E. destruct (crew_pair_taken s _ _); [done|].
  destruct (crew_foreign_keys s _) eqn:Ek; [done|]. injection E as <- <-. cbn [fst].
  apply referential_crew_rows; [done|]. apply Forall_app. split; [apply Hs|].
  by apply Forall_singleton.
Qed.

Lemma update_crew_referential s id body :
  referential s → referential (updateCrewAssignment s id body).1.
Proof.
  intros Hs. unfold updateCrewAssignment.
  destruct (collect_updates body) as [|u us]; [done|].
  destruct (update_crew s _ id) as [error|[s' rows]] eqn:E; [done|].
  assert (referential s') as Hs'; [|by destruct rows].
  unfold update_crew in E.
  destruct (bind_crew_sets _) as [|typed]; [done|]. cbn [mbind result_bind] in E.
  destruct (bind_uuid id) as [|[key|]]; [done|..]; cbn [mbind result_bind] in E;
    [|by simplify_eq].
  destruct (update_crew_rows s typed key _) as [|rows'] eqn:Hrows; [done|].
  cbn [mbind result_bind] in E. injection E as <- _.
  apply referential_crew_rows; [done|]. destruct Hs as [Hcrews _].
  apply update_crew_rows_spec in Hrows. revert Hcrews.
  induction Hrows as [|ca ca' rows0 rows1 Hrow _ IH]; [done|].
  intros [Hca Hrest]%Forall_cons. constructor; [|by apply IH].
  destruct (decide (ca_id ca = key)); [|by subst].
  destruct Hrow as (new & Hnew & [-> Hok]%position_key_after_update_spec).
  apply apply_crew_sets_keys in Hnew as [_ [= Hevent Hmember]].
  apply crew_foreign_keys_fields in Hca as (He & Hm & Hp).
  apply crew_foreign_keys_fields. rewrite Hevent, Hmember.
  do 2 (split; [done|]). intros p Hnew. destruct (Hok p Hnew); auto.
Qed.

Lemma delete_crew_referential s id :
  referential s → referential (deleteCrewAssignment s id).1.
Proof.
  intros Hs. unfold deleteCrewAssignment, delete_crew.
  destruct (bind_uuid id) as [|[key|]]; [done|..]; cbn; [|done].
  assert (referential (with_crew_assignments s
            (filter (λ ca, ca_id ca ≠ key) (crew_assignments s)))) as Hs'.
  { apply referential_crew_rows; [done|]. apply Forall_forall.
    intros ca [_ Hca]%list_elem_of_filter. destruct Hs as [Hcrews _].
    by eapply Forall_forall in Hcrews. }
  by destruct (ca_id <$> _).
Qed.

Lemma bulk_create_crew_referential s user body :
  referential s → referential (bulkCreateCrewAssignments s user body).1.
Proof.
  intros [Hcrews Hitems]. rewrite bulk_reply. cbv zeta. cbn [fst].
  destruct (bulk_loop_invariant s user body (bb_crew_member_ids body))
    as ((He & Hp & Hc & Hcat & Heq & Hequipment)
        & (added & Hrows & Hadded & Hnodup) & _).
  set (s' := (foldl _ _ _).1) in *.
  assert (∀ ca, crew_foreign_keys s' ca = crew_foreign_keys s ca) as Hcrew
      by (intros ca; unfold crew_foreign_keys; by rewrite He, Hp, Hc).
  assert (∀ ea, equipment_foreign_keys s' ea = equipment_foreign_keys s ea) as Hitem
      by (intros ea; unfold equipment_foreign_keys; by rewrite He, Heq).
  split.
  - rewrite Hrows. apply Forall_app. split.
    + eapply Forall_impl; [exact Hcrews|]. intros ca Hca. by rewrite Hcrew.
    + eapply Forall_impl; [exact Hadded|]. intros ca (_ & _ & Hca & _).
      by rewrite Hcrew.
  - rewrite Hequipment. eapply Forall_impl; [exact Hitems|].
    intros ea Hea. by rewrite Hitem.
Qed.

Lemma create_equipment_referential s user body :
  referential s → referential (createEquipmentAssignment s user body).1.
Proof.
  intros Hs. unfold createEquipmentAssignment.
  destruct (select_event s _); [done|].
  destruct (select_active_equipment s _); [done|].
  destruct (insert_equipment s _) as [error|[s' row]] eqn:E.
  { by destruct (bool_decide _). }
  unfold insert_equipment in E. destruct (equipment_pair_taken s _ _); [done|].
  destruct (equipment_foreign_keys s _) eqn:Ek; [done|]. injection E as <- <-.
  cbn [fst]. apply referential_equipment_rows; [done|].
  apply Forall_app. split; [apply Hs|]. by apply Forall_singleton.
Qed.

Lemma update_equipment_referential s id body :
  referential s → referential (updateEquipmentAssignment s id body).1.
Proof.
  intros Hs. unfold updateEquipmentAssignment.
  destruct (collect_equipment_updates body) as [|u us]; [done|].
  destruct (update_equipment s _ id) as [error|[s' rows]] eqn:E; [done|].
  assert (referential s') as Hs'; [|by destruct rows].
  unfold update_equipment in E.
  destruct (bind_equipment_sets _) as [|typed]; [done|]. cbn [mbind result_bind] in E.
  destruct (bind_uuid id) as [|[key|]]; [done|..]; cbn [mbind result_bind] in E;
    [|by simplify_eq].
  injection E as <- _. apply referential_equipment_rows; [done|].
  apply Forall_fmap, Forall_forall. intros ea Hea. cbn.
  destruct Hs as [_ Hitems]. eapply Forall_forall in Hitems; [|done].
  destruct (decide (ea_id ea = key)); [|done].
  apply equipment_foreign_keys_fields in Hitems as [He Hq].
  apply equipment_foreign_keys_fields.
  destruct (apply_equipment_sets_keys typed ea) as [_ [= -> ->]]. done.
Qed.

Lemma delete_equipment_referential s id :
  referential s → referential (deleteEquipmentAssignment s id).1.
Proof.
  intros Hs. unfold deleteEquipmentAssignment, delete_equipment.
  destruct (bind_uuid id) as [|[key|]]; [done|..]; cbn; [|done].
  assert (referential (with_equipment_assignments s
            (filter (λ ea, ea_id ea ≠ key) (equipment_assignments s)))) as Hs'.
  { apply referential_equipment_rows; [done|]. apply Forall_forall.
    intros ea [_ Hea]%list_elem_of_filter. destruct Hs as [_ Hitems].
    by eapply Forall_forall in Hitems. }
  by destruct (ea_id <$> _).
Qed.

(** X10. The routes that write to the assignment tables keep the foreign
    keys of the schema: from a store where every assignment refers to an
    existing event, crew member (or piece of equipment) and position, any
    sequence of creates, updates, deletes and bulk creates leaves such a
    store. *)
Theorem referential_integrity (s : Store) (requests : list Request) :
  referential s → referential (foldl serve s requests).
Proof.
  revert s. induction requests as [|request requests IH]; intros s Hs; [done|].
  cbn [foldl]. apply IH. destruct request; cbn [serve].
  - by apply create_crew_referential.
  - by apply update_crew_referential.
  - by apply delete_crew_referential.
  - by apply bulk_create_crew_referential.
  - by apply create_equipment_referential.
  - by apply update_equipment_referential.
  - by apply delete_equipment_referential.
Qed.

End Referential.

Lemma referential_integrity_witness :
  referential
    (foldl serve Sample.booked
       [PostCrew 9 (mkCreateCrewBody 2 2 (Some 1%N) None None None None);
        PutCrew "1" reschedule;
        PostCrewBulk 9 (mkBulkBody 2 [Js.Str "1"; Js.Str "7"] None Js.Undefined);
        DeleteEquipment "1"]).
Proof.
  apply referential_integrity.
  split; apply (bool_decide_unpack _); vm_compute; exact I.
Defined.

(** *** The order of the availability entries *)

Section AvailabilityOrder.
Context `{!Conversions, !Collation}.

#[local] Existing Instance AvailabilityFacts.nulls_last_total.
#[local] Existing Instance AvailabilityFacts.nulls_last_trans.
#[local] Existing Instance AvailabilityFacts.then_by_total.
#[local] Existing Instance AvailabilityFacts.then_by_trans.

Lemma StronglySorted_sublist {A : Type} (R : relation A) (l k : list A) :
  l `sublist_of` k → StronglySorted R k → StronglySorted R l.
Proof.
  induction 1 as [|x l k Hsub IH|x l k Hsub IH]; [done|..].
  - intros [Hk Hx]%StronglySorted_inv. constructor; [by apply IH|].
    rewrite Forall_forall in Hx. apply Forall_forall. intros y Hy.
    apply Hx. by eapply elem_of_sublist.
  - intros [Hk _]%StronglySorted_inv. by apply IH.
Qed.

Definition names (o : list (Uuid * Availability)) : list string := av_name <$> o.*2.

Lemma names_alter a k o : names (Js.obj_alter (push_assignment a) k o) = names o.
Proof.
  unfold names. induction o as [|[k0 v0] o IH]; [done|]. cbn.
  destruct (decide (k0 = k)); cbn; [done|]. by f_equal.
Qed.

(** Entries are made in the order their members are first met. *)
Lemma names_step acc rows row :
  names acc `sublist_of` ar_name <$> rows →
  names (availability_step acc row) `sublist_of` ar_name <$> (rows ++ [row]).
Proof.
  intros Hsub. unfold availability_step. rewrite fmap_app.
  assert (names match Js.obj_get acc (ar_id row) with
                | None => acc ++ [(ar_id row,
                                   mkAvailability (ar_id row) (ar_name row) [])]
                | Some _ => acc
                end `sublist_of` (ar_name <$> rows) ++ [ar_name row]) as Hnames.
  { destruct (Js.obj_get acc (ar_id row)).
    - by apply sublist_inserts_r.
    - unfold names. rewrite !fmap_app. by apply sublist_app. }
  destruct (ar_event row); [by rewrite names_alter|done].
Qed.

Lemma names_loop rows :
  names (foldl availability_step [] rows) `sublist_of` ar_name <$> rows.
Proof.
  induction rows as [|row rows IH] using rev_ind; [done|].
  rewrite foldl_snoc. by apply names_step.
Qed.

(** X11. The entries of [GET /availability/crew] come in the order of the
    members' names ([ORDER BY cm.name] and the order in which an object
    enumerates its keys). *)
Theorem availability_by_name (s : Store) (start_date end_date : Js.Value)
    (d1 d2 : option Date) :
  Js.truthy start_date = true → Js.truthy end_date = true →
  bind "date" date_in start_date = inr d1 →
  bind "date" date_in end_date = inr d2 →
  ∃ entries,
    crewAvailability s start_date end_date = Send 200 entries
    ∧ StronglySorted text_le (av_name <$> entries).
Proof.
  intros Hstart Hend Hd1 Hd2. unfold crewAvailability.
  rewrite Hstart, Hend, Hd1, Hd2. cbn [negb orb mbind result_bind].
  eexists. split; [done|]. unfold Js.obj_values.
  apply (StronglySorted_sublist _ _ _ (names_loop _)).
  apply (StronglySorted_fmap _ availability_order).
  - intros x y [Hxy|[Hxy _]]; [|done]. by destruct (total text_le (ar_name x) (ar_name y)).
  - unfold select_availability. apply StronglySorted_merge_sort; apply _.
Qed.

End AvailabilityOrder.

Lemma availability_by_name_witness :
  ∃ entries,
    crewAvailability Sample.booked (Js.Str "100") (Js.Str "101") = Send 200 entries
    ∧ StronglySorted text_le (av_name <$> entries).
Proof.
  by apply (availability_by_name Sample.booked (Js.Str "100") (Js.Str "101")
              (Some 100) (Some 101)).
Defined.

End RouteFacts.

(** ** More on the routes of [routes/reports.js] *)

Module ReportRouteFacts.
Import Db Reports.

(** The label of the bucket an event goes to: [event.cost_center ||
    'Unassigned']. *)
Definition label (e : Event) : string :=
  match e_cost_center e with
  | Some c => if bool_decide (c = ""%string) then "Unassigned"%string else c
  | None => "Unassigned"%string
  end.

(** The events listed in the buckets, bucket after bucket. *)
Definition listed (o : list (string * Bucket)) : list Event :=
  o ≫= λ kb, ce_event <$> b_events kb.2.

(** What the loop keeps true of the buckets once the rows [rows] are done:
    the labels are distinct and none is an inherited property; a bucket is
    not empty and holds events of its label, in the order of the rows; the
    buckets hold the events of the rows, each once. *)
Definition grouped (o : list (string * Bucket)) (rows : list CostRow) : Prop :=
  NoDup o.*1
  ∧ Forall (λ k, k ∉ inherited_properties) o.*1
  ∧ Forall (λ kb, b_events kb.2 ≠ []
                  ∧ Forall (λ ce, label (ce_event ce) = kb.1
                                  ∧ ce_total ce
                                    = Js.add (ce_crew_cost ce) (ce_equipment_cost ce))
                           (b_events kb.2)
                  ∧ (ce_event <$> b_events kb.2) `sublist_of` (cr_event <$> rows)) o
  ∧ listed o ≡ₚ cr_event <$> rows.

Section Objects.
Context {V : Type}.
Implicit Types (o : list (string * V)).

(** Where [o[k] = f(o[k])] writes. *)
Lemma obj_alter_split f o k v :
  Js.obj_get o k = Some v →
  ∃ o1 o2, o = o1 ++ (k, v) :: o2 ∧ Js.obj_alter f k o = o1 ++ (k, f v) :: o2.
Proof.
  induction o as [|[k0 v0] o IH]; cbn; [done|].
  destruct (decide (k0 = k)) as [->|Hne].
  - intros [= ->]. by exists [], o.
  - intros (o1 & o2 & -> & ->)%IH. by exists ((k0, v0) :: o1), o2.
Qed.

End Objects.

(** One turn of the loop on a label that is no inherited property. *)
Lemma cost_step_grouped o g rows row :
  grouped o rows → label (cr_event row) ∉ inherited_properties →
  ∃ o' g', cost_step (o, g) row = Js.Return (o', g') ∧ grouped o' (rows ++ [row]).
Proof.
  intros (Hnodup & Hsafe & Hbuckets & Hlisted) Hlabel. unfold cost_step.
  fold (label (cr_event row)). set (cc := label (cr_event row)) in *.
  set (crewCost := Js.or_num _ _). set (equipmentCost := Js.or_num _ _).
  set (ce := mkCostedEvent _ _ _ _).
  set (empty := mkBucket [] _).
  set (o0 := if _ || _ then o else o ++ [(cc, empty)]).
  assert (∃ b, Js.obj_get o0 cc = Some b
               ∧ NoDup o0.*1 ∧ Forall (λ k, k ∉ inherited_properties) o0.*1
               ∧ Forall (λ kb, (kb.1 = cc ∨ b_events kb.2 ≠ [])
                               ∧ Forall (λ ce, label (ce_event ce) = kb.1
                                               ∧ ce_total ce
                                                 = Js.add (ce_crew_cost ce)
                                                          (ce_equipment_cost ce))
                                        (b_events kb.2)
                               ∧ (ce_event <$> b_events kb.2)
                                 `sublist_of` (cr_event <$> rows)) o0
               ∧ listed o0 ≡ₚ cr_event <$> rows) as (b & Hget & Hn0 & Hs0 & Hb0 & Hl0).
  { unfold o0. rewrite (bool_decide_eq_false_2 (cc ∈ inherited_properties)) by done.
    rewrite orb_false_r. destruct (Js.obj_get o cc) as [b|] eqn:Hget.
    - rewrite bool_decide_eq_true_2 by done. exists b. rewrite Hget.
      do 3 (split; [done|]). split; [|done].
      eapply Forall_impl; [exact Hbuckets|]. intros kb (? & ? & ?). auto.
    - rewrite bool_decide_eq_false_2 by (by intros []).
      exists empty. rewrite AvailabilityFacts.obj_get_snoc, Hget, decide_True by done.
      split; [done|]. rewrite !fmap_app. split.
      { apply AssignmentFacts.NoDup_snoc; [done|].
        by apply AvailabilityFacts.obj_get_None. }
      split; [apply Forall_app; split; [done|by apply Forall_singleton]|]. split.
      + apply Forall_app. split.
        * eapply Forall_impl; [exact Hbuckets|]. intros kb (? & ? & ?). auto.
        * apply Forall_singleton. cbn. split; [by left|]. split; [done|].
          apply sublist_nil_l.
      + unfold listed. rewrite bind_app. cbn. by rewrite !app_nil_r. }
  clearbody o0. rewrite Hget.
  destruct (obj_alter_split
              (λ b, mkBucket (b_events b ++ [ce])
                             (add_totals (b_totals b) crewCost equipmentCost
                                         (Js.add crewCost equipmentCost)))
              o0 cc b Hget) as (o1 & o2 & -> & ->).
  eexists _, _. split; [done|].
  rewrite !fmap_app, !fmap_cons in Hn0, Hs0. cbn [fst] in Hn0, Hs0.
  rewrite Forall_app, Forall_cons in Hb0. destruct Hb0 as (Hb1 & (_ & Hb & Hsub) & Hb2).
  cbn [fst snd] in Hb, Hsub.
  split; [by rewrite !fmap_app, !fmap_cons|].
  split; [by rewrite !fmap_app, !fmap_cons|]. split.
  - rewrite fmap_app. apply Forall_app. split; [|apply Forall_cons; split].
    + apply Forall_forall. intros kb Hkb. rewrite Forall_forall in Hb1.
      destruct (Hb1 kb Hkb) as ([Hk|Hk] & ? & ?).
      * exfalso. apply NoDup_app in Hn0 as (_ & Hn0 & _). apply (Hn0 cc).
        -- rewrite <- Hk. apply list_elem_of_fmap. by exists kb.
        -- apply elem_of_cons. by left.
      * split; [done|]. split; [done|]. by apply sublist_inserts_r.
    + cbn [fst snd b_events]. split; [by destruct (b_events b)|]. split.
      * apply Forall_app. split; [done|]. by apply Forall_singleton.
      * rewrite fmap_app. by apply sublist_app.
    + apply Forall_forall. intros kb Hkb. rewrite Forall_forall in Hb2.
      destruct (Hb2 kb Hkb) as ([Hk|Hk] & ? & ?).
      * exfalso. apply NoDup_app in Hn0 as (_ & _ & Hn0).
        apply NoDup_cons in Hn0 as [Hn0 _]. apply Hn0.
        rewrite <- Hk. apply list_elem_of_fmap. by exists kb.
      * split; [done|]. split; [done|]. by apply sublist_inserts_r.
  - revert Hl0. unfold listed.
    rewrite !bind_app, !bind_cons, fmap_app. cbn [snd b_events].
    rewrite fmap_app. cbn [fmap list_fmap ce_event]. intros <-.
    rewrite <- !(assoc_L (++)). do 2 apply Permutation_app_head.
    apply Permutation_app_comm.
Qed.

(** One turn of the loop on a label that is an inherited property: the
    bucket is not made, since [byCostCenter[cc]] is truthy already, and has
    no [events]. *)
Lemma cost_step_throws o g rows row :
  grouped o rows → label (cr_event row) ∈ inherited_properties →
  cost_step (o, g) row
  = Js.Throw "Cannot read properties of undefined (reading 'push')".
Proof.
  intros (_ & Hsafe & _) Hlabel. unfold cost_step. fold (label (cr_event row)).
  rewrite (bool_decide_eq_true_2 (label (cr_event row) ∈ inherited_properties)) by done.
  rewrite orb_true_r.
  destruct (Js.obj_get o (label (cr_event row))) eqn:Hget; [|done].
  exfalso. assert (label (cr_event row) ∈ o.*1) as Hin.
  { destruct (decide (label (cr_event row) ∈ o.*1)) as [|Hout]; [done|].
    apply AvailabilityFacts.obj_get_None in Hout. congruence. }
  rewrite Forall_forall in Hsafe. by apply (Hsafe _ Hin).
Qed.

Lemma cost_loop_grouped rows : ∀ o g done,
  grouped o done →
  Forall (λ row, label (cr_event row) ∉ inherited_properties) rows →
  ∃ o' g', cost_loop (o, g) rows = Js.Return (o', g') ∧ grouped o' (done ++ rows).
Proof.
  induction rows as [|row rows IH]; intros o g done Ho Hrows.
  - exists o, g. by rewrite app_nil_r.
  - apply Forall_cons in Hrows as [Hrow Hrows]. cbn [cost_loop].
    destruct (cost_step_grouped o g done row Ho Hrow) as (o1 & g1 & -> & Ho1).
    destruct (IH o1 g1 (done ++ [row]) Ho1 Hrows) as (o' & g' & Hloop & Ho').
    exists o', g'. split; [done|]. by rewrite <- (assoc_L (++)) in Ho'.
Qed.

Lemma cost_loop_throws rows : ∀ o g done,
  grouped o done →
  Exists (λ row, label (cr_event row) ∈ inherited_properties) rows →
  cost_loop (o, g) rows
  = Js.Throw "Cannot read properties of undefined (reading 'push')".
Proof.
  induction rows as [|row rows IH]; intros o g done Ho Hrows.
  - by apply Exists_nil in Hrows.
  - cbn [cost_loop].
    destruct (decide (label (cr_event row) ∈ inherited_properties)) as [Hrow|Hrow].
    + by rewrite (cost_step_throws o g done).
    + destruct (cost_step_grouped o g done row Ho Hrow) as (o1 & g1 & -> & Ho1).
      apply (IH o1 g1 (done ++ [row]) Ho1).
      by apply Exists_cons in Hrows as [?|?].
Qed.

Lemma grouped_start : grouped [] [].
Proof. repeat split; constructor. Qed.

Section Query.
Context `{!Conversions}.

#[local] Instance cost_order_total : Total cost_order.
Proof. intros a b. unfold cost_order. lia. Qed.

#[local] Instance cost_order_trans : Transitive cost_order.
Proof. intros a b c. unfold cost_order. lia. Qed.

(** The rows of the query are the events that pass the [WHERE] clause, each
    once, by ascending date. *)
Lemma select_costs_events s d1 d2 c :
  cr_event <$> select_costs s d1 d2 c ≡ₚ filter (cost_filter d1 d2 c) (events s).
Proof.
  unfold select_costs. rewrite merge_sort_Permutation.
  induction (events s) as [|e es IH]; [done|].
  rewrite bind_cons, fmap_app, IH, filter_cons.
  by destruct (decide (cost_filter d1 d2 c e)).
Qed.

Lemma select_costs_sorted s d1 d2 c :
  StronglySorted (λ a b, e_event_date a ≤ e_event_date b)
                 (cr_event <$> select_costs s d1 d2 c).
Proof.
  apply (StronglySorted_fmap _ cost_order); [done|].
  unfold select_costs. apply StronglySorted_merge_sort; apply _.
Qed.

Lemma cost_report_rows s start_date end_date cost_center d1 d2 c :
  optional "date" date_in start_date = inr d1 →
  optional "date" date_in end_date = inr d2 →
  optional "text" Some cost_center = inr c →
  costReport s start_date end_date cost_center
  = match cost_loop ([], mkTotals (Js.of_Z 0) (Js.of_Z 0) (Js.of_Z 0))
                    (select_costs s d1 d2 c) with
    | Js.Throw e => errorHandler (TypeError e)
    | Js.Return (byCostCenter, grandTotal) =>
        Send 200 (mkCostReport byCostCenter grandTotal
                               (length (select_costs s d1 d2 c)))
    end.
Proof. intros H1 H2 H3. unfold costReport. by rewrite H1, H2, H3. Qed.

(** X12. An event whose cost center is the name of a property every object
    inherits ([constructor], [toString], [__proto__], ...) breaks the cost
    report: [byCostCenter[cc]] is truthy before any bucket is made, the
    [push] is on [undefined], and the answer is 500.  When no event that
    passes the filters has such a cost center, the answer is 200. *)
Theorem cost_report_inherited_label (s : Store)
    (start_date end_date cost_center : Js.Value)
    (d1 d2 : option Date) (c : option string) :
  optional "date" date_in start_date = inr d1 →
  optional "date" date_in end_date = inr d2 →
  optional "text" Some cost_center = inr c →
  ((∃ e, e ∈ events s ∧ cost_filter d1 d2 c e ∧ label e ∈ inherited_properties) →
   costReport s start_date end_date cost_center = Fail 500 "Internal server error")
  ∧ ((∀ e, e ∈ events s → cost_filter d1 d2 c e → label e ∉ inherited_properties) →
     ∃ report, costReport s start_date end_date cost_center = Send 200 report).
Proof.
  intros H1 H2 H3. rewrite (cost_report_rows s _ _ _ d1 d2 c) by done. split.
  - intros (e & He & Hfilter & Hlabel).
    rewrite (cost_loop_throws _ _ _ [] grouped_start); [done|].
    assert (e ∈ cr_event <$> select_costs s d1 d2 c) as (row & -> & Hrow)%list_elem_of_fmap
        by (rewrite select_costs_events; by apply list_elem_of_filter).
    apply Exists_exists. by exists row.
  - intros Hsafe.
    destruct (cost_loop_grouped (select_costs s d1 d2 c) []
                (mkTotals (Js.of_Z 0) (Js.of_Z 0) (Js.of_Z 0)) [] grouped_start)
      as (o & g & -> & _); [|by eexists].
    apply Forall_forall. intros row Hrow.
    assert (cr_event row ∈ filter (cost_filter d1 d2 c) (events s))
      as [? ?]%list_elem_of_filter; [|by apply Hsafe].
    rewrite <- select_costs_events. apply list_elem_of_fmap. by exists row.
Qed.

(** X13. In a cost report that is sent, the event count is the number of
    events that pass the filters; the buckets have distinct labels and none
    is empty; every such event is in exactly one bucket, the one labelled
    with its cost center, or [Unassigned] when it has none or an empty one;
    the events of a bucket are by ascending date, and the total of each is
    its crew cost plus its equipment cost. *)
Theorem cost_report_partition (s : Store)
    (start_date end_date cost_center : Js.Value)
    (d1 d2 : option Date) (c : option string) (status : N) (report : CostReport) :
  optional "date" date_in start_date = inr d1 →
  optional "date" date_in end_date = inr d2 →
  optional "text" Some cost_center = inr c →
  costReport s start_date end_date cost_center = Send status report →
  status = 200%N
  ∧ eventCount report = length (filter (cost_filter d1 d2 c) (events s))
  ∧ NoDup (byCostCenter report).*1
  ∧ listed (byCostCenter report) ≡ₚ filter (cost_filter d1 d2 c) (events s)
  ∧ ∀ k b, (k, b) ∈ byCostCenter report →
      b_events b ≠ []
      ∧ (∀ ce, ce ∈ b_events b →
           label (ce_event ce) = k
           ∧ ce_total ce = Js.add (ce_crew_cost ce) (ce_equipment_cost ce))
      ∧ StronglySorted (λ a b, e_event_date a ≤ e_event_date b)
                       (ce_event <$> b_events b).
Proof.
  intros H1 H2 H3. rewrite (cost_report_rows s _ _ _ d1 d2 c) by done.
  destruct (cost_loop _ _) as [[o g]|] eqn:Hloop; [|done]. intros [= <- <-].
  cbn [eventCount byCostCenter].
  assert (grouped o (select_costs s d1 d2 c)) as (Hnodup & Hsafe & Hbuckets & Hlisted).
  { destruct (decide (Exists (λ row, label (cr_event row) ∈ inherited_properties)
                             (select_costs s d1 d2 c))) as [Hbad|Hgood].
    - by rewrite (cost_loop_throws _ _ _ [] grouped_start) in Hloop.
    - apply not_Exists_Forall in Hgood; [|intros row; apply _].
      destruct (cost_loop_grouped (select_costs s d1 d2 c) []
                  (mkTotals (Js.of_Z 0) (Js.of_Z 0) (Js.of_Z 0)) [] grouped_start)
        as (o' & g' & Hloop' & Ho'); [done|].
      rewrite Hloop in Hloop'. by injection Hloop' as <- <-. }
  split; [done|]. split.
  { by rewrite <- (select_costs_events s d1 d2 c), length_fmap. }
  split; [done|]. split; [by rewrite Hlisted, select_costs_events|].
  intros k b Hkb. rewrite Forall_forall in Hbuckets.
  destruct (Hbuckets _ Hkb) as (Hsome & Hevents & Hsub). cbn [fst snd] in *.
  split; [done|]. split; [by apply Forall_forall|].
  apply (RouteFacts.StronglySorted_sublist _ _ _ Hsub), select_costs_sorted.
Qed.

End Query.

(** The sample catalog with a third event, whose cost center is called
    [constructor]. *)
Definition with_odd_cost_center : Store :=
  mkStore (events Sample.catalog ++ [mkEvent 3 "Fair" 102 (Some "constructor"%string)])
          (positions Sample.catalog) (crew_members Sample.catalog)
          (equipment_categories Sample.catalog) (equipment Sample.catalog) [] [].

Lemma cost_report_inherited_label_witness :
  costReport with_odd_cost_center Js.Undefined Js.Undefined Js.Undefined
  = Fail 500 "Internal server error".
Proof.
  apply (proj1 (cost_report_inherited_label with_odd_cost_center
                  Js.Undefined Js.Undefined Js.Undefined None None None
                  eq_refl eq_refl eq_refl)).
  exists (mkEvent 3 "Fair" 102 (Some "constructor"%string)).
  split; [|split; [done|]].
  - do 2 (apply elem_of_cons; right). apply elem_of_cons. by left.
  - apply elem_of_cons. by left.
Defined.

Lemma cost_report_partition_witness :
  let report := ReportFacts.booked_cost_report in
  eventCount report = length (filter (cost_filter None None None) (events Sample.booked))
  ∧ listed (byCostCenter report)
    ≡ₚ filter (cost_filter None None None) (events Sample.booked).
Proof.
  destruct (cost_report_partition Sample.booked Js.Undefined Js.Undefined Js.Undefined
              None None None 200 ReportFacts.booked_cost_report
              eq_refl eq_refl eq_refl ReportFacts.booked_cost_report_sent)
    as (_ & Hcount & _ & Hlisted & _).
  by split.
Defined.

End ReportRouteFacts.

(** ** The hours of a crew assignment, in minutes *)

Module ShiftFacts.
Import Db Reports CostFacts.

(** Minutes since midnight, and the times a clock shows. *)
Definition minutes (t : Time) : Z := 60 * Z.of_N (hour t) + Z.of_N (minute t).

Definition on_clock (t : Time) : Prop := (hour t < 24)%N ∧ (minute t < 60)%N.

Lemma clock_minutes t : clock t = (Qc_of_Z (minutes t) / Qc_of_Z 60)%Qc.
Proof.
  unfold clock, minutes. rewrite Z2Qc_inj_add, Z2Qc_inj_mul.
  field. by apply JsFacts.Qc_of_Z_nonzero.
Qed.

Lemma elapsed_minutes call finish :
  on_clock call → on_clock finish →
  spec_elapsed call finish
  = (Qc_of_Z ((minutes finish - minutes call) mod 1440) / Qc_of_Z 60)%Qc.
Proof.
  intros [Hh1 Hm1] [Hh2 Hm2]. unfold spec_elapsed. rewrite !clock_minutes.
  set (Δ := minutes finish - minutes call).
  assert (-1440 < Δ < 1440) as HΔ by (unfold Δ, minutes; lia).
  assert ((Qc_of_Z (minutes finish) / Qc_of_Z 60
           - Qc_of_Z (minutes call) / Qc_of_Z 60)%Qc
          = (Qc_of_Z Δ / Qc_of_Z 60)%Qc) as ->.
  { unfold Δ. rewrite Z2Qc_inj_sub. field. by apply JsFacts.Qc_of_Z_nonzero. }
  assert ((Qc_of_Z Δ / Qc_of_Z 60 < Qc_of_Z 0)%Qc ↔ Δ < 0) as Hneg.
  { rewrite (Z2Qc_inj_lt Δ 0).
    rewrite (Qcmult_lt_mono_pos_r (Qc_of_Z Δ / Qc_of_Z 60) (Qc_of_Z 0) (Qc_of_Z 60))
      by (by apply (proj1 (Z2Qc_inj_lt 0 60))).
    assert ((Qc_of_Z Δ / Qc_of_Z 60 * Qc_of_Z 60)%Qc = Qc_of_Z Δ) as ->
        by (field; by apply JsFacts.Qc_of_Z_nonzero).
    by rewrite <- Z2Qc_inj_mul. }
  case_bool_decide as Hd.
  - apply Hneg in Hd. rewrite <- (Z.mod_add Δ 1 1440), Z.mod_small by lia.
    rewrite Z2Qc_inj_add. change (1 * 1440) with (24 * 60).
    rewrite Z2Qc_inj_mul. field. by apply JsFacts.Qc_of_Z_nonzero.
  - rewrite Hneg in Hd. by rewrite Z.mod_small by lia.
Qed.



End ShiftFacts.

(** ** The time of day on the printed report ([formatTime], [routes/reports.js]) *)

Module Format.

(** [a >= b]: false as soon as one side is [NaN]. *)
Definition geb (a b : Js.Number) : bool :=
  match a, b with
  | Js.NaN, _ | _, Js.NaN => false
  | _, _ => negb (Js.ltb a b)
  end.

(** A rational truncated toward zero. *)
Definition trunc (q : Qc) : Z :=
  if bool_decide (q < 0)%Qc then Qceiling q else Qfloor q.

(** [a % b]: the remainder has the sign of the dividend; there is none of an
    infinity nor by zero, and a finite number is its own remainder by an
    infinity. *)
Definition rem (a b : Js.Number) : Js.Number :=
  match a, b with
  | Js.NaN, _ | _, Js.NaN => Js.NaN
  | (Js.PosInf | Js.NegInf), _ => Js.NaN
  | Js.Fin x, (Js.PosInf | Js.NegInf) => Js.Fin x
  | Js.Fin x, Js.Fin y =>
      if decide (y = 0%Qc) then Js.NaN
      else Js.Fin (x - y * Qc_of_Z (trunc (x / y)))%Qc
  end.

(** The text of a number in a template literal, for the numbers [parseInt]
    and [%] make of one another: an integer prints its digits after its
    sign.  (Of another rational the integer part is printed; none reaches
    this place.) *)
Definition text_of_integer (n : Js.Number) : string :=
  match n with
  | Js.Fin q =>
      (if bool_decide (q < 0)%Qc then "-" else "")
      +:+ Js.text_of_N (Z.abs_N (Z.quot (Qnum q) (Z.pos (Qden q))))
  | Js.NaN => "NaN"
  | Js.PosInf => "Infinity"
  | Js.NegInf => "-Infinity"
  end.

(** [formatTime(time)]: the destructuring [[hours, minutes] = time.split(':')]
    leaves [minutes] undefined when the string has no colon, and a template
    literal prints that as [undefined]. *)
Definition formatTime (time : Js.Value) : Js.Outcome string :=
  if negb (Js.truthy time) then Js.Return ""%string
  else match time with
       | Js.Str t =>
           let parts := Js.split ":" t in
           let h := match parts !! 0%nat with
                    | Some hours => Js.parseInt_str hours
                    | None => Js.NaN
                    end in
           let minutes := default "undefined"%string (parts !! 1%nat) in
           let ampm := if geb h (Js.of_Z 12) then "PM"%string else "AM"%string in
           let h12 := Js.or_num (rem h (Js.of_Z 12)) (Js.of_Z 12) in
           Js.Return (text_of_integer h12 +:+ ":" +:+ minutes +:+ " " +:+ ampm)
       | _ => Js.Throw "time.split is not a function"
       end.

End Format.

Module FormatFacts.
Import Db Format JsFacts CostFacts.

(** [parseInt] of two digits. *)
Lemma parseInt_pad2 (n : N) :
  (n < 100)%N → Js.parseInt_str (pad2 n) = Js.of_Z (Z.of_N n).
Proof.
  intros Hn. pose proof (digits_pad2 n "" Hn) as Hdigits.
  rewrite append_nil_r in Hdigits. specialize (Hdigits (λ H, H)).
  pose proof (all_digits_pad2 n) as Hall. unfold Js.parseInt_str.
  destruct (pad2 n) as [|c r] eqn:E; [done|]. destruct Hall as [Hc Hr].
  destruct (digit_head (String c r)) as (-> & -> & _); [done|].
  assert (match String c r with
          | String "0" (String c0 r') =>
              if bool_decide (c0 = "x"%char) || bool_decide (c0 = "X"%char)
              then (16%N, r') else (10%N, String c r)
          | _ => (10%N, String c r)
          end = (10%N, String c r)) as ->.
  { digit_cases Hc; try reflexivity. destruct r as [|c' r']; [reflexivity|].
    destruct Hr as [Hc' _]. digit_cases Hc'; reflexivity. }
  by rewrite Hdigits.
Qed.

Lemma geb_12 (h : N) :
  geb (Js.of_Z (Z.of_N h)) (Js.of_Z 12) = negb (h <? 12)%N.
Proof.
  unfold geb, Js.of_Z, Js.ltb. f_equal. destruct (N.ltb_spec h 12).
  - apply bool_decide_eq_true_2, (proj1 (Z2Qc_inj_lt _ _)). lia.
  - apply bool_decide_eq_false_2. intros Hlt%(proj2 (Z2Qc_inj_lt _ _)). lia.
Qed.

Lemma rem_12 (h : N) :
  rem (Js.of_Z (Z.of_N h)) (Js.of_Z 12) = Js.of_Z (Z.of_N (h mod 12)).
Proof.
  unfold rem, Js.of_Z. rewrite decide_False by (by apply Qc_of_Z_nonzero).
  f_equal. unfold trunc. rewrite bool_decide_eq_false_2.
  - assert (Qfloor (Qc_of_Z (Z.of_N h) / Qc_of_Z 12)%Qc = Z.of_N h / 12) as ->.
    { rewrite Zdiv_Qdiv. apply Qfloor_comp.
      unfold Qcdiv, Qcmult, Qcinv, Q2Qc. cbn [this].
      repeat (rewrite Qred_correct). reflexivity. }
    rewrite <- Z2Qc_inj_mul, <- Z2Qc_inj_sub. f_equal.
    rewrite N2Z.inj_mod. change (Z.of_N 12) with 12.
    rewrite (Z.mod_eq (Z.of_N h) 12) by done. done.
  - apply Qcle_ngt.
    assert ((Qc_of_Z (Z.of_N h) / Qc_of_Z 12)%Qc
            = (Qc_of_Z (Z.of_N h) * / Qc_of_Z 12)%Qc) as -> by done.
    apply Qcmult_nonneg_nonneg.
    + rewrite <- Z2Qc_inj_0. apply (proj1 (Z2Qc_inj_le 0 _)). lia.
    + done.
Qed.

Lemma text_of_positive (n : N) :
  text_of_integer (Js.of_Z (Z.of_N n)) = Js.text_of_N n.
Proof.
  unfold text_of_integer, Js.of_Z. rewrite bool_decide_eq_false_2.
  - unfold Qc_of_Z. cbn [this Qnum Qden inject_Z]. by rewrite Z.quot_1_r, Zabs2N.id.
  - apply Qcle_ngt. rewrite <- Z2Qc_inj_0. apply (proj1 (Z2Qc_inj_le 0 _)). lia.
Qed.

(** The hour on a twelve-hour dial. *)
Definition twelve (h : N) : N := if (h mod 12 =? 0)%N then 12%N else (h mod 12)%N.

Lemma or_num_twelve (h : N) :
  Js.or_num (Js.of_Z (Z.of_N (h mod 12))) (Js.of_Z 12) = Js.of_Z (Z.of_N (twelve h)).
Proof.
  unfold Js.or_num, Js.truthy_num, Js.of_Z, twelve. destruct (N.eqb_spec (h mod 12) 0) as [->|Hne].
  - rewrite bool_decide_eq_true_2; [done|]. by apply Qc_is_canon.
  - rewrite bool_decide_eq_false_2; [done|]. apply Qc_of_Z_nonzero. lia.
Qed.

(** X15. [formatTime] on a time of day, as the request writes it ([HH:MM])
    or as the database returns it ([HH:MM:SS]): the hour on a twelve-hour
    dial (12 for noon and for midnight, never 0), the two digits of the
    minute, and [AM] before noon, [PM] from noon on; the seconds are not
    printed.  An absent time prints as the empty string. *)
Theorem format_time_dial (t : Time) (v : Js.Value) :
  (∀ absent, time_value None absent → formatTime absent = Js.Return ""%string)
  ∧ ((hour t < 24)%N → time_value (Some t) v →
     formatTime v
     = Js.Return (Js.text_of_N (twelve (hour t)) +:+ ":" +:+ pad2 (minute t) +:+ " "
                  +:+ (if (hour t <? 12)%N then "AM" else "PM"))
     ∧ (1 ≤ twelve (hour t) ≤ 12)%N).
Proof.
  split.
  { intros absent Habsent. unfold formatTime. by rewrite (time_value_absent _ Habsent). }
  intros Hhour Hv. split.
  - assert (∃ s rest, v = Js.Str s ∧ Js.truthy v = true
                      ∧ Js.split ":" s = pad2 (hour t) :: pad2 (minute t) :: rest)
      as (s & rest & -> & Htruthy & Hsplit).
    { destruct (time_value_present t v Hv) as (s & -> & Htruthy & _).
      inversion Hv; subst.
      - eexists _, []. by rewrite split_short.
      - eexists _, [_]. by rewrite split_time_out. }
    unfold formatTime. rewrite Htruthy, Hsplit. cbn [negb lookup list_lookup default].
    unfold id. rewrite parseInt_pad2 by lia.
    rewrite geb_12, rem_12, or_num_twelve, text_of_positive.
    by destruct (hour t <? 12)%N.
  - unfold twelve. assert (hour t mod 12 < 12)%N as Hdial by (by apply N.mod_upper_bound).
    revert Hdial. generalize (hour t mod 12)%N. intros dial Hdial.
    destruct (N.eqb_spec dial 0); lia.
Qed.

(** Half past midnight and five past one in the afternoon. *)
Lemma format_time_dial_witness :
  formatTime (Js.Str "00:30:00") = Js.Return "12:30 AM"%string
  ∧ formatTime (Js.Str "13:05") = Js.Return "1:05 PM"%string.
Proof.
  split.
  - apply (proj2 (format_time_dial (mkTime 0 30 0) (Js.Str "00:30:00")));
      [done|apply (time_full (mkTime 0 30 0))].
  - apply (proj2 (format_time_dial (mkTime 13 5 0) (Js.Str "13:05")));
      [done|apply (time_short (mkTime 13 5 0))].
Defined.

End FormatFacts.

(** ** Deleting an event ([routes/events.js], with the schema of
    [config/migrate.js]) *)

Module Events.
Import Db.

Section Routes.
Context `{!Conversions}.

(** [DELETE FROM events WHERE id = $1 RETURNING id].  Both assignment tables
    declare [event_id ... REFERENCES events(id) ON DELETE CASCADE]: the rows
    that refer to a deleted event go with it.  The other tables of the store
    do not refer to events. *)
Definition delete_event (s : Store) (id : string) : Error + (Store * list Uuid) :=
  key ← bind_uuid id;
  match key with
  | None => inr (s, [])
  | Some key =>
      match filter (λ e, e_id e = key) (events s) with
      | [] => inr (s, [])
      | gone =>
          inr (mkStore (filter (λ e, e_id e ≠ key) (events s))
                       (positions s) (crew_members s) (equipment_categories s)
                       (equipment s)
                       (filter (λ ca, ca_event_id ca ≠ key) (crew_assignments s))
                       (filter (λ ea, ea_event_id ea ≠ key) (equipment_assignments s)),
               e_id <$> gone)
      end
  end.

(** [router.delete('/:id', ...)]. *)
Definition deleteEvent (s : Store) (id : string) : Store * Reply string :=
  match delete_event s id with
  | inr (s', []) => (s', Fail 404 "Event not found")
  | inr (s', _ :: _) => (s', Send 200 "Event deleted successfully"%string)
  | inl error => (s, errorHandler (DbError error))
  end.

End Routes.
End Events.

Module EventFacts.
Import Db Assignments AssignmentFacts Events.

Section Delete.
Context `{!Conversions}.

Lemma references_filter {R : Type} (key : R → Uuid) (table : list R) (id gone : Uuid) :
  id ≠ gone → references key table id = true →
  references key (filter (λ r, key r ≠ gone) table) id = true.
Proof.
  intros Hne (r & Hr & <-)%references_spec. apply references_spec.
  exists r. split; [|done]. by apply list_elem_of_filter.
Qed.

Lemma delete_event_rows s id key :
  bind_uuid id = inr (Some key) → key ∈ e_id <$> events s →
  deleteEvent s id
  = (mkStore (filter (λ e, e_id e ≠ key) (events s))
             (positions s) (crew_members s) (equipment_categories s) (equipment s)
             (filter (λ ca, ca_event_id ca ≠ key) (crew_assignments s))
             (filter (λ ea, ea_event_id ea ≠ key) (equipment_assignments s)),
     Send 200 "Event deleted successfully"%string).
Proof.
  intros Hid (e & -> & He)%list_elem_of_fmap. unfold deleteEvent, delete_event.
  rewrite Hid. cbn [mbind result_bind].
  destruct (filter _ (events s)) as [|e' gone] eqn:E; [|done].
  assert (e ∈ @nil Event) as Hin by (rewrite <- E; by apply list_elem_of_filter).
  by apply elem_of_nil in Hin.
Qed.

Lemma delete_event_missing s id key :
  bind_uuid id = inr (Some key) → key ∉ e_id <$> events s →
  deleteEvent s id = (s, Fail 404 "Event not found").
Proof.
  intros Hid Hkey. unfold deleteEvent, delete_event. rewrite Hid. cbn [mbind result_bind].
  destruct (filter _ (events s)) as [|e gone] eqn:E; [done|].
  assert (e ∈ e :: gone) as Hin by (apply elem_of_cons; by left).
  rewrite <- E in Hin. apply list_elem_of_filter in Hin as [He Hin].
  destruct Hkey. apply list_elem_of_fmap. by exists e.
Qed.

End Delete.

(** X16. [DELETE /events/:id] with a well-formed id.  When no event has the
    id the answer is 404 and the store is as it was.  When one has, the
    answer is 200, the event is gone, and with it go exactly the crew and
    equipment assignments of that event: those of every other event stay as
    they were and in their order, and the other tables are untouched.  That
    way every assignment left still refers to an event that exists
    (referential integrity is kept), and there is still at most one
    assignment per pair. *)
Theorem delete_event_cascade `{!Conversions} (s : Store) (id : string) (key : Uuid) :
  bind_uuid id = inr (Some key) →
  (key ∉ e_id <$> events s → deleteEvent s id = (s, Fail 404 "Event not found"))
  ∧ (key ∈ e_id <$> events s →
     ∃ s', deleteEvent s id = (s', Send 200 "Event deleted successfully"%string)
       ∧ (key ∉ e_id <$> events s')
       ∧ (∀ e, e ∈ events s' ↔ e ∈ events s ∧ e_id e ≠ key)
       ∧ crew_assignments s' = filter (λ ca, ca_event_id ca ≠ key) (crew_assignments s)
       ∧ equipment_assignments s'
         = filter (λ ea, ea_event_id ea ≠ key) (equipment_assignments s)
       ∧ positions s' = positions s ∧ crew_members s' = crew_members s
       ∧ equipment_categories s' = equipment_categories s
       ∧ equipment s' = equipment s)
  ∧ (RouteFacts.referential s → RouteFacts.referential (deleteEvent s id).1)
  ∧ (unique_pairs s → unique_pairs (deleteEvent s id).1).
Proof.
  intros Hid. split; [by apply delete_event_missing|].
  split; [|split].
  - intros Hkey. eexists. split; [by apply delete_event_rows|]. cbn.
    split; [|split; [|done]].
    + intros (e & He & [Hne _]%list_elem_of_filter)%list_elem_of_fmap. by destruct Hne.
    + intros e. rewrite list_elem_of_filter. tauto.
  - intros [Hcrew Hitems]. destruct (decide (key ∈ e_id <$> events s)) as [Hkey|Hkey];
      [|by rewrite (delete_event_missing s id key)].
    rewrite (delete_event_rows s id key) by done. split; cbn.
    + apply Forall_forall. intros ca [Hne Hca]%list_elem_of_filter.
      rewrite Forall_forall in Hcrew. specialize (Hcrew ca Hca).
      apply RouteFacts.crew_foreign_keys_fields in Hcrew as (He & Hm & Hp).
      apply RouteFacts.crew_foreign_keys_fields. cbn. split; [|done].
      by apply references_filter.
    + apply Forall_forall. intros ea [Hne Hea]%list_elem_of_filter.
      rewrite Forall_forall in Hitems. specialize (Hitems ea Hea).
      apply RouteFacts.equipment_foreign_keys_fields in Hitems as (He & Hq).
      apply RouteFacts.equipment_foreign_keys_fields. cbn. split; [|done].
      by apply references_filter.
  - intros [Hcrew Hitems]. destruct (decide (key ∈ e_id <$> events s)) as [Hkey|Hkey];
      [|by rewrite (delete_event_missing s id key)].
    rewrite (delete_event_rows s id key) by done. split; cbn.
    + eapply sublist_NoDup; [exact Hcrew|]. apply fmap_sublist, sublist_filter.
    + eapply sublist_NoDup; [exact Hitems|]. apply fmap_sublist, sublist_filter.
Qed.

(** On the sample store: the Gala deleted, its three assignments are gone
    with it. *)
Lemma delete_event_cascade_witness :
  ∃ s', deleteEvent Sample.booked "1" = (s', Send 200 "Event deleted successfully"%string)
        ∧ crew_assignments s' = [] ∧ equipment_assignments s' = [].
Proof.
  destruct (delete_event_cascade Sample.booked "1" 1%N) as (_ & Hgone & _);
    [reflexivity|].
  destruct Hgone as (s' & E & _ & _ & Hcrew & Hitems & _).
  - apply elem_of_cons. by left.
  - exists s'. by rewrite Hcrew, Hitems.
Defined.

End EventFacts.

(** ** The gates in front of the routes ([middleware/auth.js]) *)

Module Auth.
Import Db.

(** The columns of [users] that [authenticate] selects. *)
Record User : Type := mkUser {
  u_id : Uuid;
  u_email : string;
  u_name : string;
  u_role : string;
  u_is_active : option bool
}.

#[global] Instance User_eq_dec : EqDecision User.
Proof. solve_decision. Defined.

(** What a gate does with a request: it answers, or it lets the request
    through ([next()]) with the [req.user] it has set. *)
Inductive Gate (A U : Type) : Type :=
| Answer (reply : Reply A)
| Next (user : U).
Arguments Answer {A U} reply.
Arguments Next {A U} user.

Section Gates.
Context `{!Conversions}.

(** [jwt.verify(token, process.env.JWT_SECRET)] belongs to the token library:
    it throws an error, of which the gates read the [name], or returns the
    decoded token, of which they read [userId].  The token is [undefined]
    when the header has no second part. *)
Variable verify : option string → string + Js.Value.

(** The table [users]. *)
Variable users : list User.

(** [SELECT id, email, name, role, is_active FROM users WHERE id = $1]. *)
Definition select_user (id : Js.Value) : Error + list User :=
  key ← bind "uuid" uuid_in id;
  match key with
  | None => inr []
  | Some key => inr (filter (λ u, u_id u = key) users)
  end.

(** [authenticate]: [authorization] is the header of that name, if any.  An
    error that is not one of the two named ones goes to the error
    middleware; one thrown by the token library has no [code] and a name
    the middleware does not know either. *)
Definition authenticate {A : Type} (authorization : option string) : Gate A User :=
  match authorization with
  | None => Answer (Fail 401 "No token provided")
  | Some authHeader =>
      if negb (Js.truthy (Js.Str authHeader))
         || negb (String.prefix "Bearer " authHeader)
      then Answer (Fail 401 "No token provided")
      else
        let token := Js.split " " authHeader !! 1%nat in
        match verify token with
        | inl name =>
            if bool_decide (name = "JsonWebTokenError"%string)
            then Answer (Fail 401 "Invalid token")
            else if bool_decide (name = "TokenExpiredError"%string)
            then Answer (Fail 401 "Token expired")
            else Answer (Fail 500 "Internal server error")
        | inr userId =>
            match select_user userId with
            | inl error => Answer (errorHandler (DbError error))
            | inr [] => Answer (Fail 401 "User not found")
            | inr (user :: _) =>
                if negb (is_true (u_is_active user))
                then Answer (Fail 401 "Account is disabled")
                else Next user
            end
        end
  end.

(** [authorize(...roles)], which reads the [req.user] it is given. *)
Definition authorize {A : Type} (roles : list string) (user : option User)
  : Gate A User :=
  match user with
  | None => Answer (Fail 401 "Not authenticated")
  | Some user =>
      if negb (bool_decide (u_role user ∈ roles))
      then Answer (Fail 403 "Insufficient permissions")
      else Next user
  end.

Definition isAdmin {A : Type} : option User → Gate A User :=
  authorize ["admin"%string].
Definition isScheduler {A : Type} : option User → Gate A User :=
  authorize ["admin"%string; "scheduler"%string].
Definition isCrew {A : Type} : option User → Gate A User :=
  authorize ["admin"%string; "scheduler"%string; "crew"%string].

(** [optionalAuth] lets every request through, with a user or with
    [null]. *)
Definition optionalAuth (authorization : option string) : option User :=
  match authorization with
  | None => None
  | Some authHeader =>
      if negb (Js.truthy (Js.Str authHeader))
         || negb (String.prefix "Bearer " authHeader)
      then None
      else
        let token := Js.split " " authHeader !! 1%nat in
        match verify token with
        | inl _ => None
        | inr userId =>
            match select_user userId with
            | inl _ => None
            | inr [] => None
            | inr (user :: _) =>
                if is_true (u_is_active user) then Some user else None
            end
        end
  end.

(** A route [router.verb(path, authenticate, gate, ..., handler)]: the
    handler runs on the store once the request is through both gates. *)
Definition route {A : Type} (gate : option User → Gate A User)
    (handler : User → Store → Store * Reply A)
    (authorization : option string) (s : Store) : Store * Reply A :=
  match authenticate authorization with
  | Answer reply => (s, reply)
  | Next user =>
      match gate (Some user) with
      | Answer reply => (s, reply)
      | Next user => handler user s
      end
  end.

End Gates.
End Auth.

Module AuthFacts.
Import Db Auth.

Section Gates.
Context `{!Conversions}.
Variable verify : option string → string + Js.Value.
Variable users : list User.

(** The request carries a token that [verify] accepts and that names, by
    [userId], a row of [users] that is active. *)
Definition bearer (authorization : option string) (user : User) : Prop :=
  ∃ header id key,
    authorization = Some header
    ∧ String.prefix "Bearer " header = true
    ∧ verify (Js.split " " header !! 1%nat) = inr id
    ∧ bind "uuid" uuid_in id = inr (Some key)
    ∧ head (filter (λ u, u_id u = key) users) = Some user
    ∧ u_is_active user = Some true.

Lemma authenticate_next {A : Type} authorization user :
  authenticate (A:=A) verify users authorization = Next user
  ↔ bearer authorization user.
Proof.
  unfold authenticate, bearer, select_user. split.
  - destruct authorization as [header|]; [|done].
    destruct (negb (Js.truthy _)); [done|]. cbn [orb].
    destruct (String.prefix _ _) eqn:Hprefix; [|done]. cbn [negb].
    destruct (verify _) as [name|id] eqn:Hverify.
    { by repeat case_bool_decide. }
    destruct (bind _ _ id) as [error|[key|]] eqn:Hbind; cbn [mbind result_bind].
    { unfold errorHandler. by repeat case_bool_decide. }
    2: done.
    destruct (filter _ users) as [|u rest] eqn:Hrows; [done|].
    destruct (u_is_active u) as [[]|] eqn:Hactive; cbn; [|done..].
    intros [= ->]. exists header, id, key. by rewrite Hrows.
  - intros (header & id & key & -> & Hprefix & Hverify & Hbind & Hrows & Hactive).
    rewrite Hprefix, Hverify, Hbind. cbn [mbind result_bind negb orb].
    assert (Js.truthy (Js.Str header) = true) as ->.
    { cbn. apply negb_true_iff, bool_decide_eq_false_2. by intros ->. }
    cbn [negb]. destruct (filter _ users) as [|u rest]; [done|].
    injection Hrows as ->. by rewrite Hactive.
Qed.

Lemma authenticate_answer {A : Type} authorization (reply : Reply A) :
  authenticate verify users authorization = Answer reply →
  ∃ status error, reply = Fail status error ∧ (status = 401 ∨ status = 500)%N.
Proof.
  unfold authenticate, select_user.
  destruct authorization as [header|]; [|intros [= <-]; eauto].
  destruct (_ || _); [intros [= <-]; eauto|].
  destruct (verify _) as [name|id].
  { repeat case_bool_decide; intros [= <-]; eauto. }
  unfold bind. destruct (param_text id) as [text|]; cbn [mbind result_bind];
    [|intros [= <-]; eauto].
  destruct (uuid_in text) as [key|]; cbn [mbind result_bind].
  - destruct (filter _ users) as [|u rest]; [intros [= <-]; eauto|].
    destruct (negb _); [intros [= <-]; eauto|done].
  - intros [= <-]. cbn. eauto.
Qed.

Lemma authorize_next {A : Type} roles user user' :
  authorize (A:=A) roles (Some user) = Next user' ↔ user' = user ∧ u_role user ∈ roles.
Proof.
  unfold authorize. case_bool_decide; cbn; split.
  - by intros [= ->].
  - by intros [-> _].
  - done.
  - by intros [_ ?].
Qed.

End Gates.

(** X17. A route behind [authenticate] and [authorize(...roles)].  The
    handler runs, and its result is the result of the route, exactly when
    the request carries a [Bearer] token that verifies and names an active
    user whose role is one of [roles]; that user is the [req.user] the
    handler sees.  Every other request leaves the store as it was and is
    answered 401, 403 or 500.  [optionalAuth] accepts exactly the users
    [authenticate] lets through. *)
Theorem route_gate `{!Conversions} {A : Type}
    (verify : option string → string + Js.Value) (users : list User)
    (roles : list string) (handler : User → Store → Store * Reply A)
    (authorization : option string) (s : Store) :
  (∀ user, bearer verify users authorization user → u_role user ∈ roles →
           route verify users (authorize roles) handler authorization s
           = handler user s)
  ∧ ((∀ user, bearer verify users authorization user → u_role user ∉ roles) →
     ∃ status error,
       route verify users (authorize roles) handler authorization s
       = (s, Fail status error)
       ∧ (status = 401 ∨ status = 403 ∨ status = 500)%N)
  ∧ (∀ user, optionalAuth verify users authorization = Some user
             ↔ bearer verify users authorization user).
Proof.
  split; [|split].
  - intros user Huser Hrole. unfold route.
    apply (authenticate_next verify users (A:=A)) in Huser as ->.
    by rewrite (proj2 (authorize_next (A:=A) roles user user)).
  - intros Hnone. unfold route.
    destruct (authenticate verify users authorization) as [reply|user] eqn:E.
    + apply authenticate_answer in E as (status & error & -> & [->| ->]); eauto 6.
    + apply authenticate_next in E. specialize (Hnone user E).
      unfold authorize. rewrite bool_decide_eq_false_2 by done. cbn. eauto 6.
  - intros user. rewrite <- (authenticate_next verify users (A:=A)).
    unfold optionalAuth, authenticate.
    destruct authorization as [header|]; [|done].
    destruct (_ || _); [done|].
    destruct (verify _) as [name|id]; [by repeat case_bool_decide|].
    destruct (select_user users id) as [error|[|u rest]]; [|done|].
    { unfold errorHandler. by repeat case_bool_decide. }
    destruct (is_true _); cbn; [|done]. split; by intros [= ->].
Qed.

(** One scheduler, Sam, whose token is [t9]. *)
Definition sample_users : list User :=
  [mkUser 9 "sam@example.org" "Sam" "scheduler" (Some true)].

Definition sample_verify (token : option string) : string + Js.Value :=
  if decide (token = Some "t9"%string) then inr (Js.Str "9")
  else inl "JsonWebTokenError"%string.

(** Sam puts Ann on the Gala: the handler of [POST /crew] runs with Sam's id
    as [req.user.id]. *)
Lemma route_gate_witness :
  route sample_verify sample_users Auth.isScheduler
        (λ user s,
           Assignments.createCrewAssignment s (u_id user)
             (Assignments.mkCreateCrewBody 1 1 None None None None None))
        (Some "Bearer t9"%string) Sample.catalog
  = Assignments.createCrewAssignment Sample.catalog 9
      (Assignments.mkCreateCrewBody 1 1 None None None None None).
Proof.
  apply (proj1 (route_gate sample_verify sample_users
                  ["admin"%string; "scheduler"%string]
                  (λ user s,
                     Assignments.createCrewAssignment s (u_id user)
                       (Assignments.mkCreateCrewBody 1 1 None None None None None))
                  (Some "Bearer t9"%string) Sample.catalog)
               (mkUser 9 "sam@example.org" "Sam" "scheduler" (Some true))).
  - exists "Bearer t9"%string, (Js.Str "9"), 9%N. by repeat split.
  - apply elem_of_cons. right. apply elem_of_cons. by left.
Defined.

End AuthFacts.
